(** * A model of [sandbox/utils/code_cache.py]

    The module keeps code files in one flat directory, named after a
    SHA-256 digest of [(language, suffix, code)].  The development below
    embeds the class [CodeCache] over an explicit model of that directory
    and proves what its methods do.

    Conventions of the model:
    - text is a [string] holding the UTF-8 bytes of a Python [str], so the
      size of a file is the length of its content;
    - integers are [Z]; time is an integer number of seconds, read from the
      world, and does not move during one method call;
    - the cache directory is absent, or a finite map from entry names
      (single path components of a POSIX path) to entries with a kind, a
      content and the two timestamps [st_mtime] and [st_atime];
    - a method is a computation in a state-and-exception monad in which
      the world survives a raised exception; of the operating system's
      failures only the refusals on a protected entry are modelled, by a
      flag on the entry, so a statement that a call returns is made for
      entries the process may change and for suffixes that keep the
      derived name one path component;
    - the calls to [logger] are kept, in order, as a list of events;
    - floats are the rationals they denote, rounded as binary64 does. *)

From Stdlib Require Import ZArith QArith Qabs Qreduction Lia List Ascii String.
From stdpp Require Import base option list gmap strings sorting.

Local Open Scope Z_scope.

(** ** [hashlib.sha256] (FIPS 180-4) *)

Module SHA256.

Definition mask32 : Z := 4294967295.

Definition w32 (x : Z) : Z := Z.land x mask32.

Definition add32 (x y : Z) : Z := w32 (x + y).

Definition rotr (n x : Z) : Z :=
  Z.lor (Z.shiftr x n) (w32 (Z.shiftl x (32 - n))).

Definition Ch (x y z : Z) : Z :=
  Z.lxor (Z.land x y) (Z.land (Z.lxor x mask32) z).

Definition Maj (x y z : Z) : Z :=
  Z.lxor (Z.lxor (Z.land x y) (Z.land x z)) (Z.land y z).

Definition Sigma0 (x : Z) : Z :=
  Z.lxor (Z.lxor (rotr 2 x) (rotr 13 x)) (rotr 22 x).

Definition Sigma1 (x : Z) : Z :=
  Z.lxor (Z.lxor (rotr 6 x) (rotr 11 x)) (rotr 25 x).

Definition sigma0 (x : Z) : Z :=
  Z.lxor (Z.lxor (rotr 7 x) (rotr 18 x)) (Z.shiftr x 3).

Definition sigma1 (x : Z) : Z :=
  Z.lxor (Z.lxor (rotr 17 x) (rotr 19 x)) (Z.shiftr x 10).

(** Round constants: the first 32 bits of the fractional parts of the
    cube roots of the first 64 primes. *)
Definition K : list Z :=
  [ 1116352408; 1899447441; 3049323471; 3921009573; 961987163; 1508970993;
    2453635748; 2870763221; 3624381080; 310598401; 607225278; 1426881987;
    1925078388; 2162078206; 2614888103; 3248222580; 3835390401; 4022224774;
    264347078; 604807628; 770255983; 1249150122; 1555081692; 1996064986;
    2554220882; 2821834349; 2952996808; 3210313671; 3336571891; 3584528711;
    113926993; 338241895; 666307205; 773529912; 1294757372; 1396182291;
    1695183700; 1986661051; 2177026350; 2456956037; 2730485921; 2820302411;
    3259730800; 3345764771; 3516065817; 3600352804; 4094571909; 275423344;
    430227734; 506948616; 659060556; 883997877; 958139571; 1322822218;
    1537002063; 1747873779; 1955562222; 2024104815; 2227730452; 2361852424;
    2428436474; 2756734187; 3204031479; 3329325298 ].

(** Initial hash value: square roots of the first 8 primes. *)
Definition H0 : list Z :=
  [ 1779033703; 3144134277; 1013904242; 2773480762;
    1359893119; 2600822924; 528734635; 1541459225 ].

(** Padding: a [0x80] byte, zero bytes up to 56 modulo 64, then the bit
    length of the message as a 64-bit big-endian integer. *)
Fixpoint be_bytes (n : nat) (x : Z) : list Z :=
  match n with
  | O => []
  | S k => Z.land (Z.shiftr x (8 * Z.of_nat k)) 255 :: be_bytes k x
  end.

Definition pad (msg : list Z) : list Z :=
  let len := Z.of_nat (length msg) in
  let zeros := Z.to_nat ((55 - len) mod 64) in
  msg ++ 128 :: repeat 0 zeros ++ be_bytes 8 (8 * len).

Fixpoint be_word (bs : list Z) (acc : Z) : Z :=
  match bs with
  | [] => acc
  | b :: rest => be_word rest (Z.lor (Z.shiftl acc 8) b)
  end.

(** Cut a byte list into big-endian 32-bit words. *)
Fixpoint words (fuel : nat) (bs : list Z) : list Z :=
  match fuel, bs with
  | S k, _ :: _ => be_word (firstn 4 bs) 0 :: words k (skipn 4 bs)
  | _, _ => []
  end.

(** Message schedule: [w] holds the words computed so far. *)
Fixpoint schedule (n : nat) (w : list Z) : list Z :=
  match n with
  | O => w
  | S k =>
      let t := length w in
      let at_ i := nth (t - i) w 0 in
      schedule k
        (w ++ [add32 (add32 (add32 (sigma1 (at_ 2%nat)) (at_ 7%nat))
                        (sigma0 (at_ 15%nat))) (at_ 16%nat)])
  end.

Record regs := Regs { ra : Z; rb : Z; rc : Z; rd : Z;
                      re : Z; rf : Z; rg : Z; rh : Z }.

Definition round (r : regs) (kw : Z * Z) : regs :=
  let '(k, w) := kw in
  let t1 := add32 (add32 (add32 (add32 (rh r) (Sigma1 (re r)))
                            (Ch (re r) (rf r) (rg r))) k) w in
  let t2 := add32 (Sigma0 (ra r)) (Maj (ra r) (rb r) (rc r)) in
  Regs (add32 t1 t2) (ra r) (rb r) (rc r) (add32 (rd r) t1) (re r) (rf r) (rg r).

Definition regs_of (h : list Z) : regs :=
  Regs (nth 0 h 0) (nth 1 h 0) (nth 2 h 0) (nth 3 h 0)
       (nth 4 h 0) (nth 5 h 0) (nth 6 h 0) (nth 7 h 0).

Definition to_list (r : regs) : list Z :=
  [ra r; rb r; rc r; rd r; re r; rf r; rg r; rh r].

Definition compress (h : list Z) (block : list Z) : list Z :=
  let w := schedule 48 block in
  let r := fold_left round (combine K w) (regs_of h) in
  zip_with add32 h (to_list r).

Fixpoint blocks (fuel : nat) (ws : list Z) (h : list Z) : list Z :=
  match fuel, ws with
  | S k, _ :: _ => blocks k (skipn 16 ws) (compress h (firstn 16 ws))
  | _, _ => h
  end.

(** The 32-byte digest of a message given as a list of byte values. *)
Definition digest (msg : list Z) : list Z :=
  let p := pad msg in
  let ws := words (length p) p in
  flat_map (be_bytes 4) (blocks (length ws) ws H0).

Definition hex_digit (d : Z) : ascii :=
  ascii_of_N (Z.to_N (if d <? 10 then 48 + d else 87 + d)).

Fixpoint hex (bs : list Z) : string :=
  match bs with
  | [] => EmptyString
  | b :: rest =>
      String (hex_digit (Z.shiftr b 4)) (String (hex_digit (Z.land b 15)) (hex rest))
  end.

Definition hexdigest (msg : list Z) : string := hex (digest msg).

End SHA256.

(** [s.encode('utf-8')]: text is kept as its UTF-8 bytes, so encoding
    only reads the bytes off. *)
Definition encode_utf8 (s : string) : list Z :=
  map (fun c => Z.of_N (N_of_ascii c)) (list_ascii_of_string s).

(** ** Binary64 arithmetic

    The eviction target [max_size_bytes * 0.8] and the megabyte figures of
    [get_stats] are Python floats.  A finite float is represented by the
    rational it denotes; [b64] rounds a rational to the nearest value with
    a 53-bit significand, ties to even.  Only the normal range is
    modelled: every float the cache computes from a non-zero integer is
    at least [2^-20] in magnitude, and integers are taken below [2^1024],
    where Python converts them without [OverflowError]. *)

Module Float.

Definition round_half_even (n d : Z) : Z :=
  let q := n / d in
  match Z.compare (2 * (n mod d)) d with
  | Lt => q
  | Gt => q + 1
  | Eq => if Z.even q then q else q + 1
  end.

(** [n / d * 2^-e] as a fraction. *)
Definition scaled_num (n e : Z) : Z := n * 2 ^ Z.max 0 (- e).
Definition scaled_den (d e : Z) : Z := d * 2 ^ Z.max 0 e.

Definition exponent (n d : Z) : Z :=
  let e0 := Z.log2 n - Z.log2 d - 52 in
  if scaled_num n e0 / scaled_den d e0 <? 2 ^ 52 then e0 - 1 else e0.

Definition of_mant (m e : Z) : Q :=
  if 0 <=? e then inject_Z (m * 2 ^ e) else Qred (Qmake m (Z.to_pos (2 ^ (- e)))).

Definition b64_pos (n d : Z) : Q :=
  let e := exponent n d in
  of_mant (round_half_even (scaled_num n e) (scaled_den d e)) e.

Definition b64 (x : Q) : Q :=
  match Z.compare (Qnum x) 0 with
  | Eq => 0%Q
  | Gt => b64_pos (Qnum x) (Zpos (Qden x))
  | Lt => Qopp (b64_pos (- Qnum x) (Zpos (Qden x)))
  end.

(** The literal [0.8]. *)
Definition lit_0_8 : Q := b64 (8 # 10).

(** [float(i)] *)
Definition of_int (i : Z) : Q := b64 (inject_Z i).

(** [i * x] and [x / i] for an integer [i] and a float [x]: the integer
    is converted first. *)
Definition int_mul (i : Z) (x : Q) : Q := b64 (of_int i * x).
Definition div_int (x : Q) (i : Z) : Q := b64 (x / of_int i).

(** [i / j] for two integers: the correctly rounded quotient. *)
Definition int_div (i j : Z) : Q := b64 (inject_Z i / inject_Z j).

(** [i <= x] for an integer [i] and a float [x]: Python compares the
    two exactly. *)
Definition int_le (i : Z) (x : Q) : bool := Qle_bool (inject_Z i) x.

End Float.

(** ** The file system seen by the cache

    Only the cache directory is modelled.  It is absent or holds a finite
    map from entry names to entries; an entry is a regular file or a
    sub-directory.  [e_unlink_ok] tells whether the operating system lets
    this process change and remove the entry: [false] stands for a
    protected entry, such as a file with the immutable attribute, on which
    [os.unlink], [os.utime] and opening for writing all fail.
    Time is an integer number of seconds; names are single path
    components, so the methods are read on suffixes that keep the derived
    name one ([plain_suffix] below). *)

Inductive kind := Regular | Directory.

Record entry := Entry {
  e_kind : kind;
  e_content : string;
  e_mtime : Z;
  e_atime : Z;
  e_unlink_ok : bool
}.

Definition st_size (e : entry) : Z := Z.of_nat (String.length (e_content e)).

(** Calls to [logger], in program order. *)
Inductive event :=
| CacheHit (language hash8 : string)
| CacheExpired (hash8 : string)
| CachedFile (language hash8 : string)
| SizeExceeds (current_size : Z)
| RemovedEntry (name : string)
| CacheCleared.

Record world := World {
  w_root : option (gmap string entry);
  w_now : Z;
  w_log : list event
}.

Inductive exn :=
| FileNotFoundError
| IsADirectoryError
| PermissionError.

Inductive result (A : Type) : Type :=
| Ok (a : A)
| Raise (e : exn).

Arguments Ok {A} a.

Arguments Raise {A} e.

(** A computation returns a value or raises, and leaves a world behind in
    both cases. *)
Definition M (A : Type) : Type := world -> result A * world.

#[global] Instance M_ret : MRet M := fun A a w => (Ok a, w).

#[global] Instance M_bind : MBind M := fun A B f m w =>
  match m w with
  | (Ok a, w') => f a w'
  | (Raise e, w') => (Raise e, w')
  end.

Definition raise {A} (e : exn) : M A := fun w => (Raise e, w).

Definition set_root (r : option (gmap string entry)) (w : world) : world :=
  World r (w_now w) (w_log w).

Definition log (ev : event) : M unit :=
  fun w => (Ok tt, World (w_root w) (w_now w) (w_log w ++ [ev])).

(** [time.time()] *)
Definition time : M Z := fun w => (Ok (w_now w), w).

(** The world between two calls: the clock moves. *)
Definition at_time (t : Z) (w : world) : world :=
  World (w_root w) t (w_log w).

Module Path.

(** [Path.exists()] *)
Definition exists_ (name : string) : M bool := fun w =>
  (Ok match w_root w with
      | Some d => bool_decide (is_Some (d !! name))
      | None => false
      end, w).

(** [Path.exists()] on the cache directory itself *)
Definition dir_exists : M bool := fun w =>
  (Ok (bool_decide (is_Some (w_root w))), w).

(** [Path.is_file()] *)
Definition is_file (name : string) : M bool := fun w =>
  (Ok match w_root w with
      | Some d =>
          match d !! name with
          | Some e => match e_kind e with Regular => true | Directory => false end
          | None => false
          end
      | None => false
      end, w).

(** [Path.stat()] *)
Definition stat (name : string) : M entry := fun w =>
  match w_root w with
  | Some d =>
      match d !! name with
      | Some e => (Ok e, w)
      | None => (Raise FileNotFoundError, w)
      end
  | None => (Raise FileNotFoundError, w)
  end.

(** [Path.touch()]: sets both timestamps of an existing entry to the
    current time, creates an empty file otherwise.  On a protected entry
    [os.utime] is refused and [touch] falls back on opening the path for
    writing, which is refused on a file and is an error on a directory. *)
Definition touch (name : string) : M unit := fun w =>
  match w_root w with
  | Some d =>
      match d !! name with
      | Some e =>
          if e_unlink_ok e then
            (Ok tt, set_root (Some (<[name :=
               Entry (e_kind e) (e_content e) (w_now w) (w_now w) (e_unlink_ok e)]> d)) w)
          else
            match e_kind e with
            | Directory => (Raise IsADirectoryError, w)
            | Regular => (Raise PermissionError, w)
            end
      | None =>
          (Ok tt, set_root (Some (<[name :=
             Entry Regular "" (w_now w) (w_now w) true]> d)) w)
      end
  | None => (Raise FileNotFoundError, w)
  end.

(** [Path.unlink()] *)
Definition unlink (name : string) : M unit := fun w =>
  match w_root w with
  | Some d =>
      match d !! name with
      | Some e =>
          match e_kind e with
          | Directory => (Raise IsADirectoryError, w)
          | Regular =>
              if e_unlink_ok e
              then (Ok tt, set_root (Some (delete name d)) w)
              else (Raise PermissionError, w)
          end
      | None => (Raise FileNotFoundError, w)
      end
  | None => (Raise FileNotFoundError, w)
  end.

(** [Path.write_text(data)]: creates the file, or truncates and
    rewrites an existing one (the access time is then kept). *)
Definition write_text (name data : string) : M unit := fun w =>
  match w_root w with
  | Some d =>
      match d !! name with
      | Some e =>
          match e_kind e with
          | Directory => (Raise IsADirectoryError, w)
          | Regular =>
              if e_unlink_ok e then
                (Ok tt, set_root (Some (<[name :=
                   Entry Regular data (w_now w) (e_atime e) (e_unlink_ok e)]> d)) w)
              else (Raise PermissionError, w)
          end
      | None =>
          (Ok tt, set_root (Some (<[name :=
             Entry Regular data (w_now w) (w_now w) true]> d)) w)
      end
  | None => (Raise FileNotFoundError, w)
  end.

(** [Path.iterdir()], in the order the file system lists the entries. *)
Definition iterdir : M (list string) := fun w =>
  match w_root w with
  | Some d => (Ok (map fst (map_to_list d)), w)
  | None => (Raise FileNotFoundError, w)
  end.

(** [Path.mkdir(parents=True, exist_ok=True)] *)
Definition mkdir : M unit := fun w =>
  match w_root w with
  | Some _ => (Ok tt, w)
  | None => (Ok tt, set_root (Some ∅) w)
  end.

(** [s.split('/')] *)
Fixpoint components (s : string) : list string :=
  match s with
  | EmptyString => [EmptyString]
  | String c rest =>
      if Ascii.eqb c "/" then EmptyString :: components rest
      else
        match components rest with
        | [] => [String c EmptyString]
        | x :: xs => String c x :: xs
        end
  end.

(** The root [pathlib] reads off a POSIX path: two leading slashes are
    kept, one or more than two give one. *)
Definition root_of (s : string) : string :=
  match s with
  | String "/" (String "/" (String "/" _)) => "/"
  | String "/" (String "/" _) => "//"
  | String "/" _ => "/"
  | _ => ""
  end.

Fixpoint join (l : list string) : string :=
  match l with
  | [] => ""
  | [x] => x
  | x :: rest => x +:+ "/" +:+ join rest
  end.

(** [str(Path(s))]: empty and ['.'] components and a trailing slash are
    dropped, and the empty path is written ['.']. *)
Definition normalize (s : string) : string :=
  let parts :=
    filter (fun x => x <> "" /\ x <> ".") (components s) in
  let r := root_of s +:+ join parts in
  if decide (r = "") then "." else r.

(** [str(cache_dir / name)], for the directory as [normalize] writes it
    and a name of one component. *)
Definition str (dir name : string) : string :=
  if decide (dir = ".") then name
  else if decide (dir = "/") then "/" +:+ name
  else if decide (dir = "//") then "//" +:+ name
  else dir +:+ "/" +:+ name.

End Path.

(** [shutil.rmtree]: removes the entries one by one, stops at the first
    one that cannot be removed, and removes the directory last. *)
Definition remove_entry (name : string) : M unit := fun w =>
  (Ok tt, set_root (delete name <$> w_root w) w).

Definition rmdir : M unit := fun w => (Ok tt, set_root None w).

Fixpoint rmtree_entries (names : list string) : M unit :=
  match names with
  | [] => mret tt
  | name :: rest =>
      st ← Path.stat name;
      if e_unlink_ok st
      then remove_entry name ;; rmtree_entries rest
      else raise PermissionError
  end.

Definition rmtree : M unit :=
  names ← Path.iterdir;
  rmtree_entries names ;;
  rmdir.

(** ** The class [CodeCache] *)

(** [cache_dir] holds [str(self.cache_dir)]. *)
Record CodeCache := {
  cache_dir : string;
  max_size_bytes : Z;
  ttl_seconds : Z
}.

Definition _ensure_cache_dir (self : CodeCache) : M unit := Path.mkdir.

Definition default_cache_dir : string := "/tmp/sandbox_code_cache".

Definition __init__ (cache_dir : option string) (max_size_mb ttl_seconds : Z)
  : M CodeCache :=
  let self :=
    {| cache_dir :=
         Path.normalize
           match cache_dir with
           | Some s => if decide (s = "") then default_cache_dir else s
           | None => default_cache_dir
           end;
       max_size_bytes := max_size_mb * 1024 * 1024;
       ttl_seconds := ttl_seconds |} in
  _ensure_cache_dir self ;;
  mret self.

(** [f"{language}:{suffix}:{code}"] *)
Definition content (code language suffix : string) : string :=
  language +:+ ":" +:+ suffix +:+ ":" +:+ code.

Definition _compute_hash (code language suffix : string) : string :=
  let content := content code language suffix in
  SHA256.hexdigest (encode_utf8 content).

(** [code_hash[:8]] *)
Definition hash8 (code_hash : string) : string := String.substring 0 8 code_hash.

(** The name of the cache file inside the cache directory,
    [f"{code_hash}{suffix}"]. *)
Definition cache_file_name (code language suffix : string) : string :=
  _compute_hash code language suffix +:+ suffix.

Definition get_cached_file (self : CodeCache) (code language suffix : string)
  : M (option string) :=
  let code_hash := _compute_hash code language suffix in
  let cache_file := code_hash +:+ suffix in
  present ← Path.exists_ cache_file;
  if (present : bool) then
    now ← time;
    st ← Path.stat cache_file;
    let file_age := now - e_mtime st in
    if file_age <? ttl_seconds self then
      Path.touch cache_file ;;
      log (CacheHit language (hash8 code_hash)) ;;
      mret (Some (Path.str (cache_dir self) cache_file))
    else
      log (CacheExpired (hash8 code_hash)) ;;
      Path.unlink cache_file ;;
      mret None
  else mret None.

Fixpoint sum_sizes (entries : list string) (total_size : Z) : M Z :=
  match entries with
  | [] => mret total_size
  | entry :: rest =>
      f ← Path.is_file entry;
      if (f : bool) then
        st ← Path.stat entry;
        sum_sizes rest (total_size + st_size st)
      else sum_sizes rest total_size
  end.

Definition _get_cache_size (self : CodeCache) : M Z :=
  entries ← Path.iterdir;
  sum_sizes entries 0.

(** Python's order on the tuples [(st_atime, path)]. *)
Definition tuple_le (a b : Z * string) : Prop :=
  a.1 < b.1 ∨ (a.1 = b.1 ∧ String.le a.2 b.2).

#[global] Instance tuple_le_dec : RelDecision tuple_le.
Proof. intros a b. unfold tuple_le. apply _. Defined.

Fixpoint collect_files (entries : list string) (cache_files : list (Z * string))
  : M (list (Z * string)) :=
  match entries with
  | [] => mret cache_files
  | entry :: rest =>
      f ← Path.is_file entry;
      if (f : bool) then
        st ← Path.stat entry;
        collect_files rest (cache_files ++ [(e_atime st, entry)])
      else collect_files rest cache_files
  end.

(** The loop over the sorted files; [break] ends it. *)
Fixpoint evict (target_size : Q) (cache_files : list (Z * string)) (current_size : Z)
  : M unit :=
  match cache_files with
  | [] => mret tt
  | (_, file_path) :: rest =>
      if Float.int_le current_size target_size then mret tt
      else
        st ← Path.stat file_path;
        let file_size := st_size st in
        Path.unlink file_path ;;
        log (RemovedEntry file_path) ;;
        evict target_size rest (current_size - file_size)
  end.

Definition _cleanup_if_needed (self : CodeCache) : M unit :=
  current_size ← _get_cache_size self;
  if current_size >? max_size_bytes self then
    log (SizeExceeds current_size) ;;
    entries ← Path.iterdir;
    cache_files ← collect_files entries [];
    let cache_files := merge_sort tuple_le cache_files in
    let target_size := Float.int_mul (max_size_bytes self) Float.lit_0_8 in
    evict target_size cache_files current_size
  else mret tt.

Definition cache_code_file (self : CodeCache) (code language suffix : string)
  : M string :=
  let code_hash := _compute_hash code language suffix in
  let cache_file := code_hash +:+ suffix in
  present ← Path.exists_ cache_file;
  (if negb present then
     Path.write_text cache_file code ;;
     log (CachedFile language (hash8 code_hash)) ;;
     _cleanup_if_needed self
   else
     Path.touch cache_file) ;;
  mret (Path.str (cache_dir self) cache_file).

(** Truth value of an [Optional[str]]. *)
Definition truthy (o : option string) : bool :=
  match o with
  | Some s => negb (bool_decide (s = ""))
  | None => false
  end.

Definition get_or_cache (self : CodeCache) (code language suffix : string)
  : M (string * bool) :=
  cached_path ← get_cached_file self code language suffix;
  if truthy cached_path then
    mret (default "" cached_path, true)
  else
    new_path ← cache_code_file self code language suffix;
    mret (new_path, false).

Definition clear (self : CodeCache) : M unit :=
  present ← Path.dir_exists;
  if (present : bool) then
    rmtree ;;
    _ensure_cache_dir self ;;
    log CacheCleared
  else mret tt.

(** Values of the dictionary [get_stats] returns. *)
Inductive value :=
| VInt (i : Z)
| VFloat (x : Q)
| VStr (s : string).

Fixpoint count_files (entries : list string) (n : Z) : M Z :=
  match entries with
  | [] => mret n
  | entry :: rest =>
      f ← Path.is_file entry;
      count_files rest (if (f : bool) then n + 1 else n)
  end.

Definition mb (size : Z) : Q := Float.div_int (Float.int_div size 1024) 1024.

Definition get_stats (self : CodeCache) : M (list (string * value)) :=
  present ← Path.dir_exists;
  if negb present then
    mret [ ("num_files", VInt 0);
           ("total_size_mb", VInt 0);
           ("max_size_mb", VFloat (mb (max_size_bytes self))) ]
  else
    entries ← Path.iterdir;
    num_files ← count_files entries 0;
    total_size ← _get_cache_size self;
    mret [ ("num_files", VInt num_files);
           ("total_size_mb", VFloat (mb total_size));
           ("max_size_mb", VFloat (mb (max_size_bytes self)));
           ("cache_dir", VStr (cache_dir self)) ].

(** ** The module-level instance *)

(** The keyword arguments [get_code_cache] hands to the constructor, which
    accepts these three; an absent one takes the constructor's default. *)
Record kwargs := {
  kw_cache_dir : option string;
  kw_max_size_mb : option Z;
  kw_ttl_seconds : option Z
}.

(** The constructor called with these keyword arguments. *)
Definition CodeCache_new (kw : kwargs) : M CodeCache :=
  __init__ (kw_cache_dir kw)
           (default 1024 (kw_max_size_mb kw))
           (default 86400 (kw_ttl_seconds kw)).

(** [get_code_cache]: the module variable [_global_cache] is passed in
    and handed back beside the value returned.  The world is the
    directory the instance is constructed on. *)
Definition get_code_cache (enabled : bool) (kw : kwargs)
    (_global_cache : option CodeCache) : M (option CodeCache * option CodeCache) :=
  if negb enabled then mret (None, _global_cache)
  else
    _global_cache ←
      match _global_cache with
      | None => c ← CodeCache_new kw; mret (Some c)
      | Some _ => mret _global_cache
      end;
    mret (_global_cache, _global_cache).

(** ** The directory as data *)

Definition is_regular (e : entry) : bool :=
  match e_kind e with Regular => true | Directory => false end.

(** Bytes a directory entry contributes to the cache size. *)
Definition file_size (e : entry) : Z :=
  if is_regular e then st_size e else 0.

Definition size_of (l : list (string * entry)) : Z :=
  foldr (fun p acc => file_size p.2 + acc) 0 l.

Definition total_size (d : gmap string entry) : Z := size_of (map_to_list d).

Definition num_regular (l : list (string * entry)) : Z :=
  foldr (fun p acc => (if is_regular p.2 then 1 else 0) + acc) 0 l.

(** The [(st_atime, path)] tuples of the regular files. *)
Definition keys_of (l : list (string * entry)) : list (Z * string) :=
  (fun p => (e_atime p.2, p.1)) <$> filter (fun p => is_regular p.2 = true) l.

(** The files of a directory in eviction order. *)
Definition eviction_order (d : gmap string entry) : list (Z * string) :=
  merge_sort tuple_le (keys_of (map_to_list d)).

Definition remove_names (names : list string) (d : gmap string entry)
  : gmap string entry :=
  foldr delete d names.

(** ** The eviction loop as a function of the directory

    [evict_run] gives the number of entries the loop removes and how it
    ends, reading every file in the directory the pass started with. *)

Fixpoint evict_run (target : Q) (d : gmap string entry)
    (cf : list (Z * string)) (current : Z) : nat * result unit :=
  match cf with
  | [] => (0%nat, Ok tt)
  | (_, n) :: rest =>
      if Float.int_le current target then (0%nat, Ok tt)
      else
        match d !! n with
        | None => (0%nat, Raise FileNotFoundError)
        | Some e =>
            match e_kind e with
            | Directory => (0%nat, Raise IsADirectoryError)
            | Regular =>
                if e_unlink_ok e then
                  let '(k, r) := evict_run target d rest (current - st_size e) in
                  (S k, r)
                else (0%nat, Raise PermissionError)
            end
        end
  end.

(** The pass, run on a directory [d]. *)
Definition cleanup_target (self : CodeCache) : Q :=
  Float.int_mul (max_size_bytes self) Float.lit_0_8.

Definition cleanup_run (self : CodeCache) (d : gmap string entry) : nat * result unit :=
  evict_run (cleanup_target self) d (eviction_order d) (total_size d).

(** Names the pass removes, in order. *)
Definition evicted (self : CodeCache) (d : gmap string entry) : list string :=
  if total_size d >? max_size_bytes self
  then take (cleanup_run self d).1 (eviction_order d).*2
  else [].

(** ** Vocabulary of the statements *)

Definition entry_at (w : world) (name : string) : option entry :=
  w_root w ≫= fun d => d !! name.

(** The entry as [Path.touch] leaves it. *)
Definition touched (now : Z) (e : entry) : entry :=
  Entry (e_kind e) (e_content e) now now (e_unlink_ok e).

(** The file [Path.write_text] creates. *)
Definition new_file (now : Z) (code : string) : entry :=
  Entry Regular code now now true.

(** Bytes the loop subtracts for the files named. *)
Definition sizes (d : gmap string entry) (names : list string) : Z :=
  foldr (fun n acc => from_option st_size 0 (d !! n) + acc) 0 names.

(** Every tuple names a regular file of [d] that may be unlinked. *)
Definition removable (d : gmap string entry) (cf : list (Z * string)) : Prop :=
  forall a n, (a, n) ∈ cf ->
    exists e, d !! n = Some e /\ e_kind e = Regular /\ e_unlink_ok e = true.

(** A directory in which every regular file may be unlinked. *)
Definition unlinkable (d : gmap string entry) : Prop :=
  forall n e, d !! n = Some e -> is_regular e = true -> e_unlink_ok e = true.

(** What a pass leaves: the directory without the evicted names, and the
    log extended by the size warning and one line per evicted name. *)
Definition pass_log (cache : CodeCache) (d : gmap string entry) : list event :=
  if total_size d >? max_size_bytes cache
  then SizeExceeds (total_size d) :: (RemovedEntry <$> evicted cache d)
  else [].

(** A suffix that keeps the derived name one path component the file
    system takes: it holds no ['/'] and no NUL, and with the 64 characters
    of the key the name stays within the 255 bytes of a file name. *)
Fixpoint no_slash_nul (s : string) : bool :=
  match s with
  | EmptyString => true
  | String c rest =>
      negb (Ascii.eqb c "/") && negb (Ascii.eqb c Ascii.zero) && no_slash_nul rest
  end.

Definition plain_suffix (suffix : string) : bool :=
  no_slash_nul suffix && (String.length suffix <=? 191)%nat.

(** No [':'] occurs in the string. *)
Fixpoint no_colon (s : string) : bool :=
  match s with
  | EmptyString => true
  | String c rest => negb (Ascii.eqb c ":") && no_colon rest
  end.

Definition stats_without_root (self : CodeCache) : list (string * value) :=
  [ ("num_files", VInt 0);
    ("total_size_mb", VInt 0);
    ("max_size_mb", VFloat (mb (max_size_bytes self))) ].

Definition stats_of (self : CodeCache) (d : gmap string entry)
  : list (string * value) :=
  [ ("num_files", VInt (num_regular (map_to_list d)));
    ("total_size_mb", VFloat (mb (total_size d)));
    ("max_size_mb", VFloat (mb (max_size_bytes self)));
    ("cache_dir", VStr (cache_dir self)) ].

(** ** The combined accessor as a composition

    [lookup_by_key] and [store_by_key] are the bodies of [get_cached_file]
    and [cache_code_file] once the key is known; [get_or_create] is the
    composition the specification words: derive the key once, look the
    entry up, and store on absent. *)

Definition lookup_by_key (self : CodeCache) (key suffix language : string)
  : M (option string) :=
  let cache_file := key +:+ suffix in
  present ← Path.exists_ cache_file;
  if (present : bool) then
    now ← time;
    st ← Path.stat cache_file;
    if now - e_mtime st <? ttl_seconds self then
      Path.touch cache_file ;;
      log (CacheHit language (hash8 key)) ;;
      mret (Some (Path.str (cache_dir self) cache_file))
    else
      log (CacheExpired (hash8 key)) ;;
      Path.unlink cache_file ;;
      mret None
  else mret None.

Definition store_by_key (self : CodeCache) (key suffix code language : string)
  : M string :=
  let cache_file := key +:+ suffix in
  present ← Path.exists_ cache_file;
  (if (present : bool) then Path.touch cache_file
   else
     Path.write_text cache_file code ;;
     log (CachedFile language (hash8 key)) ;;
     _cleanup_if_needed self) ;;
  mret (Path.str (cache_dir self) cache_file).

Definition get_or_create (self : CodeCache) (code language suffix : string)
  : M (string * bool) :=
  let key := _compute_hash code language suffix in
  found ← lookup_by_key self key suffix language;
  match found with
  | Some path => mret (path, true)
  | None =>
      path ← store_by_key self key suffix code language;
      mret (path, false)
  end.

(** ** Sample caches, directories and runs *)

(** [n] copies of a character. *)
Fixpoint rep (c : ascii) (n : nat) : string :=
  match n with
  | O => EmptyString
  | S k => String c (rep c k)
  end.

(** Caches with a ceiling of 1000 and of 100 bytes, and one whose entries
    expire at once. *)
Definition a_cache : CodeCache :=
  {| cache_dir := "/c"; max_size_bytes := 1000; ttl_seconds := 86400 |}.

Definition tiny_cache : CodeCache :=
  {| cache_dir := "/c"; max_size_bytes := 100; ttl_seconds := 86400 |}.

Definition zero_ttl_cache : CodeCache :=
  {| cache_dir := "/c"; max_size_bytes := 1000; ttl_seconds := 0 |}.

(** A directory holding one cached file. *)
Definition hello_name : string := cache_file_name "print(1)" "python" ".py".

Definition hello_world (mtime now : Z) : world :=
  World (Some {[ hello_name := Entry Regular "print(1)" mtime mtime true ]}) now [].

(** Five 250-byte files stored one after the other under a 1000-byte
    ceiling. *)
Definition E (i : nat) : string := rep (ascii_of_nat (96 + i)) 250.

Definition E_name (i : nat) : string := cache_file_name (E i) "python" ".py".

Definition store_E (i : nat) (w : world) : world :=
  (cache_code_file a_cache (E i) "python" ".py" (at_time (Z.of_nat i) w)).2.

Definition after_five_stores : world :=
  store_E 5 (store_E 4 (store_E 3 (store_E 2 (store_E 1 (World (Some ∅) 0 []))))).

(** Three 500-byte files, oldest first; the flags say whether the two
    oldest may be unlinked. *)
Definition three_files (a_ok b_ok : bool) : gmap string entry :=
  {[ "a.py" := Entry Regular (rep "a" 500) 1 1 a_ok;
     "b.py" := Entry Regular (rep "b" 500) 2 2 b_ok;
     "c.py" := Entry Regular (rep "c" 500) 3 3 true ]}.

Definition two_files : gmap string entry :=
  {[ hello_name := Entry Regular "print(1)" 0 0 true;
     "b.py" := Entry Regular (rep "b" 500) 2 2 true ]}.

(** A file larger than the ceiling, stored twice. *)
Definition big_code : string := rep "x" 1001.

Definition big_name : string := cache_file_name big_code "python" ".py".

Definition after_first_store : world :=
  (cache_code_file a_cache big_code "python" ".py" (World (Some ∅) 1 [])).2.

Definition after_second_store : world :=
  (cache_code_file a_cache big_code "python" ".py" (at_time 2 after_first_store)).2.

(** A hit on one of two files, then a pass of a cache with a small
    ceiling. *)
Definition after_hit : world :=
  (get_cached_file a_cache "print(1)" "python" ".py" (World (Some two_files) 5 [])).2.

Definition after_hit_and_pass : world :=
  (_cleanup_if_needed tiny_cache (at_time 6 after_hit)).2.

(** The world after one store into an empty directory at time 5. *)
Definition after_hello_store : world :=
  (cache_code_file a_cache "print(1)" "python" ".py" (World (Some ∅) 5 [])).2.

(** One old 900-byte file. *)
Definition one_old_file : gmap string entry :=
  {[ "b.py" := Entry Regular (rep "b" 900) 2 2 true ]}.

(** A 250-byte file stored beside it at time 5 under the 1000-byte
    ceiling: the store starts a pass, which removes the old file. *)
Definition after_store_and_pass : world :=
  (cache_code_file a_cache (E 1) "python" ".py" (World (Some one_old_file) 5 [])).2.

(** The world a pass of [a_cache] leaves of three 500-byte files. *)
Definition after_pass : world :=
  (_cleanup_if_needed a_cache (World (Some (three_files true true)) 9 [])).2.

(** A directory whose one file is long expired and may not be unlinked. *)
Definition locked_hello : gmap string entry :=
  {[ hello_name := Entry Regular "print(1)" 0 0 false ]}.

(** * Properties *)

(** ** Test vectors *)

Example sha256_empty :
  SHA256.hexdigest (encode_utf8 "") =
  "e3b0c44298fc1c149afbf4c8996fb92427ae41e4649b934ca495991b7852b855"%string.
Proof. vm_compute. reflexivity. Qed.

Example sha256_abc :
  SHA256.hexdigest (encode_utf8 "abc") =
  "ba7816bf8f01cfea414140de5dae2223b00361a396177a9cb410ff61f20015ad"%string.
Proof. vm_compute. reflexivity. Qed.

Example sha256_two_blocks :
  SHA256.hexdigest
    (encode_utf8 "abcdbcdecdefdefgefghfghighijhijkijkljklmklmnlmnomnopnopq") =
  "248d6a61d20638b8e5c026930c3e6039a33ce45964ff2167f6ecedd419db06c1"%string.
Proof. vm_compute. reflexivity. Qed.

Example lit_0_8_value :
  Float.lit_0_8 = Qmake 3602879701896397 (Z.to_pos (2 ^ 52)).
Proof. vm_compute. reflexivity. Qed.

Example float_800 : Float.int_mul 1000 Float.lit_0_8 = inject_Z 800.
Proof. vm_compute. reflexivity. Qed.

Example float_third : Float.b64 (1 # 3) = Qmake 6004799503160661 (Z.to_pos (2 ^ 54)).
Proof. vm_compute. reflexivity. Qed.

(** ** Running computations *)

(** [str(Path(s))] and [str(Path(s) / name)] on sample paths. *)
Example normalize_vectors :
  map Path.normalize ["/c/"; "a//b/./c/"; "./"; "//c"; "///c"; "/"; "a/../b"] =
  ["/c"; "a/b/c"; "."; "//c"; "/c"; "/"; "a/../b"].
Proof. vm_compute. reflexivity. Qed.

Example path_str_vectors :
  map (fun dir => Path.str dir "n") ["/c"; "/"; "//"; "."; "a/b"] =
  ["/c/n"; "/n"; "//n"; "n"; "a/b/n"].
Proof. vm_compute. reflexivity. Qed.

Example plain_suffix_vectors :
  map plain_suffix [".py"; ""; ".tar.gz"; "/x.py"; "/"] =
  [true; true; true; false; false].
Proof. vm_compute. reflexivity. Qed.

Arguments _compute_hash : simpl never.

Arguments SHA256.hexdigest : simpl never.

Arguments Float.int_mul : simpl never.

Arguments Float.lit_0_8 : simpl never.

Arguments Float.int_le : simpl never.

Arguments mb : simpl never.

Ltac result_eq :=
  solve [ reflexivity | f_equal; solve [ reflexivity | f_equal; lia ] ].

Lemma bind_ok {A B} (m : M A) (f : A -> M B) w a w' :
  m w = (Ok a, w') -> (m ≫= f) w = f a w'.
Proof. intros H. unfold mbind, M_bind. rewrite H. reflexivity. Qed.

Lemma bind_raise {A B} (m : M A) (f : A -> M B) w e w' :
  m w = (Raise e, w') -> (m ≫= f) w = (Raise e, w').
Proof. intros H. unfold mbind, M_bind. rewrite H. reflexivity. Qed.

Lemma bind_inv_ok {A B} (m : M A) (f : A -> M B) w b w2 :
  (m ≫= f) w = (Ok b, w2) ->
  exists a w1, m w = (Ok a, w1) /\ f a w1 = (Ok b, w2).
Proof.
  unfold mbind, M_bind. destruct (m w) as [[a|e] w1]; intros H.
  - exists a, w1. split; [reflexivity | exact H].
  - discriminate H.
Qed.

Section Loops.

Variable d : gmap string entry.
Variable now : Z.

Let W (lg : list event) : world := World (Some d) now lg.

Lemma is_file_eq n lg :
  Path.is_file n (W lg) =
  (Ok (match d !! n with Some e => is_regular e | None => false end), W lg).
Proof. reflexivity. Qed.

Lemma stat_eq n e lg : d !! n = Some e -> Path.stat n (W lg) = (Ok e, W lg).
Proof. intros H. unfold Path.stat. simpl. rewrite H. reflexivity. Qed.

Lemma sum_sizes_eq l t lg :
  (forall n e, (n, e) ∈ l -> d !! n = Some e) ->
  sum_sizes l.*1 t (W lg) = (Ok (t + size_of l), W lg).
Proof.
  revert t. induction l as [|[n e] l IH]; intros t Hl; simpl.
  - unfold mret, M_ret. result_eq.
  - assert (Hn : d !! n = Some e) by (apply Hl; left).
    rewrite (bind_ok _ _ _ _ _ (is_file_eq n lg)). rewrite Hn.
    unfold file_size. destruct (is_regular e).
    + rewrite (bind_ok _ _ _ _ _ (stat_eq n e lg Hn)).
      rewrite IH by (intros; apply Hl; right; assumption).
      result_eq.
    + rewrite IH by (intros; apply Hl; right; assumption).
      result_eq.
Qed.

Lemma count_files_eq l c lg :
  (forall n e, (n, e) ∈ l -> d !! n = Some e) ->
  count_files l.*1 c (W lg) = (Ok (c + num_regular l), W lg).
Proof.
  revert c. induction l as [|[n e] l IH]; intros c Hl; simpl.
  - unfold mret, M_ret. result_eq.
  - assert (Hn : d !! n = Some e) by (apply Hl; left).
    rewrite (bind_ok _ _ _ _ _ (is_file_eq n lg)). rewrite Hn.
    rewrite IH by (intros; apply Hl; right; assumption).
    destruct (is_regular e); result_eq.
Qed.

Lemma collect_files_eq l acc lg :
  (forall n e, (n, e) ∈ l -> d !! n = Some e) ->
  collect_files l.*1 acc (W lg) = (Ok (acc ++ keys_of l), W lg).
Proof.
  revert acc. induction l as [|[n e] l IH]; intros acc Hl; simpl.
  - unfold mret, M_ret, keys_of. simpl. rewrite app_nil_r. reflexivity.
  - assert (Hn : d !! n = Some e) by (apply Hl; left).
    rewrite (bind_ok _ _ _ _ _ (is_file_eq n lg)). rewrite Hn.
    unfold keys_of. rewrite filter_cons. simpl.
    destruct (is_regular e) eqn:He.
    + rewrite (bind_ok _ _ _ _ _ (stat_eq n e lg Hn)).
      rewrite IH by (intros; apply Hl; right; assumption).
      rewrite decide_True by reflexivity. simpl.
      rewrite <- app_assoc. reflexivity.
    + rewrite IH by (intros; apply Hl; right; assumption).
      rewrite decide_False by discriminate. reflexivity.
Qed.

Lemma iterdir_eq lg : Path.iterdir (W lg) = (Ok (map_to_list d).*1, W lg).
Proof. reflexivity. Qed.

Lemma map_to_list_lookup n e : (n, e) ∈ map_to_list d -> d !! n = Some e.
Proof. apply elem_of_map_to_list. Qed.

Lemma get_cache_size_eq self lg :
  _get_cache_size self (W lg) = (Ok (total_size d), W lg).
Proof.
  unfold _get_cache_size. rewrite (bind_ok _ _ _ _ _ (iterdir_eq lg)).
  rewrite sum_sizes_eq by apply map_to_list_lookup. reflexivity.
Qed.

End Loops.

Lemma remove_names_delete n l (d : gmap string entry) :
  remove_names l (delete n d) = delete n (remove_names l d).
Proof.
  unfold remove_names. symmetry. apply delete_foldr_delete.
Qed.

Lemma evict_run_delete target n (d : gmap string entry) cf current :
  n ∉ cf.*2 ->
  evict_run target (delete n d) cf current = evict_run target d cf current.
Proof.
  revert current. induction cf as [|[a m] cf IH]; intros current Hn; simpl.
  - reflexivity.
  - apply not_elem_of_cons in Hn as [Hne Hn]. simpl in Hne.
    rewrite lookup_delete_ne by congruence.
    destruct (Float.int_le current target); [reflexivity|].
    destruct (d !! m) as [e|]; [|reflexivity].
    rewrite IH by assumption. reflexivity.
Qed.

Lemma evict_eq target cf : forall d current now lg,
  NoDup cf.*2 ->
  evict target cf current (World (Some d) now lg) =
  ((evict_run target d cf current).2,
   World (Some (remove_names (take (evict_run target d cf current).1 cf.*2) d)) now
         (lg ++ (RemovedEntry <$> take (evict_run target d cf current).1 cf.*2))).
Proof.
  induction cf as [|[a n] cf IH]; intros d current now lg Hnd; simpl.
  - rewrite app_nil_r. reflexivity.
  - apply NoDup_cons in Hnd as [Hn Hnd].
    destruct (Float.int_le current target); simpl.
    { rewrite app_nil_r. reflexivity. }
    unfold mbind at 1, M_bind, Path.stat. simpl.
    destruct (d !! n) as [e|] eqn:He; simpl; [|rewrite app_nil_r; reflexivity].
    unfold mbind at 1, M_bind, Path.unlink. simpl. rewrite He.
    destruct (e_kind e); simpl; [|rewrite app_nil_r; reflexivity].
    destruct (e_unlink_ok e); simpl; [|rewrite app_nil_r; reflexivity].
    unfold mbind at 1, M_bind, log, set_root. simpl.
    rewrite IH by assumption. rewrite evict_run_delete by assumption.
    destruct (evict_run target d cf (current - st_size e)) as [k r]. simpl.
    rewrite remove_names_delete, <- app_assoc. reflexivity.
Qed.

Lemma NoDup_keys_of (l : list (string * entry)) :
  NoDup l.*1 -> NoDup (keys_of l).*2.
Proof.
  unfold keys_of. induction l as [|[n e] l IH]; intros Hnd; simpl.
  - constructor.
  - apply NoDup_cons in Hnd as [Hn Hnd]. rewrite filter_cons. simpl.
    destruct (decide (is_regular e = true)); [|auto].
    simpl. apply NoDup_cons. split; [|auto].
    intros Hin. apply Hn.
    apply list_elem_of_fmap in Hin as [[a m] [-> Hin]].
    apply list_elem_of_fmap in Hin as [[m' e'] [Heq Hin]].
    apply list_elem_of_filter in Hin as [_ Hin].
    simpl in *. inversion Heq; subst.
    apply list_elem_of_fmap. exists (m', e'). split; [reflexivity | assumption].
Qed.

Lemma NoDup_eviction_order (d : gmap string entry) : NoDup (eviction_order d).*2.
Proof.
  unfold eviction_order. rewrite merge_sort_Permutation.
  apply NoDup_keys_of, NoDup_fst_map_to_list.
Qed.

Lemma cleanup_eq self d now lg :
  _cleanup_if_needed self (World (Some d) now lg) =
  if total_size d >? max_size_bytes self then
    ((cleanup_run self d).2,
     World (Some (remove_names (evicted self d) d)) now
           (lg ++ SizeExceeds (total_size d) :: (RemovedEntry <$> evicted self d)))
  else (Ok tt, World (Some d) now lg).
Proof.
  unfold _cleanup_if_needed, evicted.
  rewrite (bind_ok _ _ _ _ _ (get_cache_size_eq d now self lg)).
  destruct (total_size d >? max_size_bytes self); [|reflexivity].
  unfold mbind at 1, M_bind, log. simpl.
  rewrite (bind_ok _ _ _ _ _ (iterdir_eq d now _)).
  rewrite (bind_ok _ _ _ _ _
             (collect_files_eq d now (map_to_list d) [] _ (map_to_list_lookup d))).
  simpl. fold (eviction_order d). fold (cleanup_target self).
  rewrite evict_eq by apply NoDup_eviction_order.
  unfold cleanup_run. rewrite <- app_assoc. reflexivity.
Qed.

(** ** Equations of the methods *)

Section Methods.

Variable self : CodeCache.
Variables code language suffix : string.

Local Abbreviation name := (cache_file_name code language suffix).
Local Abbreviation path := (Path.str (cache_dir self) name).
Local Abbreviation h8 := (hash8 (_compute_hash code language suffix)).

Lemma get_cached_file_no_root now lg :
  get_cached_file self code language suffix (World None now lg) =
  (Ok None, World None now lg).
Proof. reflexivity. Qed.

Lemma get_cached_file_absent d now lg :
  d !! name = None ->
  get_cached_file self code language suffix (World (Some d) now lg) =
  (Ok None, World (Some d) now lg).
Proof.
  intros H. unfold cache_file_name in *. unfold get_cached_file, mbind, M_bind, Path.exists_. simpl.
  rewrite H. reflexivity.
Qed.

Lemma get_cached_file_hit d now lg e :
  d !! name = Some e ->
  now - e_mtime e < ttl_seconds self ->
  e_unlink_ok e = true ->
  get_cached_file self code language suffix (World (Some d) now lg) =
  (Ok (Some path),
   World (Some (<[name := touched now e]> d)) now (lg ++ [CacheHit language h8])).
Proof.
  intros H Hage Hu. unfold cache_file_name in *. unfold get_cached_file, mbind, M_bind, Path.exists_. simpl.
  rewrite H. simpl.
  unfold Path.stat, Path.touch. simpl. rewrite H.
  apply Z.ltb_lt in Hage. rewrite Hage. simpl. rewrite H. unfold touched.
  rewrite Hu. reflexivity.
Qed.

(** A protected entry cannot be refreshed: the lookup raises before it
    logs anything. *)
Lemma get_cached_file_refused d now lg e :
  d !! name = Some e ->
  now - e_mtime e < ttl_seconds self ->
  e_unlink_ok e = false ->
  get_cached_file self code language suffix (World (Some d) now lg) =
  (Raise match e_kind e with
         | Directory => IsADirectoryError
         | Regular => PermissionError
         end,
   World (Some d) now lg).
Proof.
  intros H Hage Hu. unfold cache_file_name in *. unfold get_cached_file, mbind, M_bind, Path.exists_. simpl.
  rewrite H. simpl.
  unfold Path.stat, Path.touch. simpl. rewrite H.
  apply Z.ltb_lt in Hage. rewrite Hage. simpl. rewrite H, Hu.
  destruct (e_kind e); reflexivity.
Qed.

Lemma get_cached_file_expired d now lg e :
  d !! name = Some e ->
  ttl_seconds self <= now - e_mtime e ->
  get_cached_file self code language suffix (World (Some d) now lg) =
  match e_kind e with
  | Directory =>
      (Raise IsADirectoryError, World (Some d) now (lg ++ [CacheExpired h8]))
  | Regular =>
      if e_unlink_ok e
      then (Ok None, World (Some (delete name d)) now (lg ++ [CacheExpired h8]))
      else (Raise PermissionError, World (Some d) now (lg ++ [CacheExpired h8]))
  end.
Proof.
  intros H Hage. unfold cache_file_name in *. unfold get_cached_file, mbind, M_bind, Path.exists_. simpl.
  rewrite H. simpl.
  unfold Path.stat, Path.unlink. simpl. rewrite H.
  apply Z.ltb_ge in Hage. rewrite Hage. simpl. rewrite H.
  destruct (e_kind e); [|reflexivity].
  destruct (e_unlink_ok e); reflexivity.
Qed.

Lemma cache_code_file_no_root now lg :
  cache_code_file self code language suffix (World None now lg) =
  (Raise FileNotFoundError, World None now lg).
Proof. reflexivity. Qed.

Lemma cache_code_file_present d now lg e :
  d !! name = Some e ->
  e_unlink_ok e = true ->
  cache_code_file self code language suffix (World (Some d) now lg) =
  (Ok path, World (Some (<[name := touched now e]> d)) now lg).
Proof.
  intros H Hu. unfold cache_file_name in *. unfold cache_code_file, mbind, M_bind, Path.exists_. simpl.
  rewrite H. simpl. unfold Path.touch. simpl. rewrite H. unfold touched.
  rewrite Hu. reflexivity.
Qed.

Lemma cache_code_file_refused d now lg e :
  d !! name = Some e ->
  e_unlink_ok e = false ->
  cache_code_file self code language suffix (World (Some d) now lg) =
  (Raise match e_kind e with
         | Directory => IsADirectoryError
         | Regular => PermissionError
         end,
   World (Some d) now lg).
Proof.
  intros H Hu. unfold cache_file_name in *. unfold cache_code_file, mbind, M_bind, Path.exists_. simpl.
  rewrite H. simpl. unfold Path.touch. simpl. rewrite H, Hu.
  destruct (e_kind e); reflexivity.
Qed.

Lemma cache_code_file_absent d now lg :
  d !! name = None ->
  cache_code_file self code language suffix (World (Some d) now lg) =
  match _cleanup_if_needed self
          (World (Some (<[name := new_file now code]> d)) now
                 (lg ++ [CachedFile language h8])) with
  | (Ok _, w') => (Ok path, w')
  | (Raise e, w') => (Raise e, w')
  end.
Proof.
  intros H. unfold cache_file_name in *. unfold cache_code_file, mbind, M_bind, Path.exists_. simpl.
  rewrite H. simpl. unfold Path.write_text. simpl. rewrite H. simpl.
  unfold log, set_root. simpl.
  destruct (_cleanup_if_needed self _) as [[[]|ex] w']; reflexivity.
Qed.

End Methods.

(** ** Lookup *)

(** C1. For a suffix that keeps the derived name one path component,
    [get_cached_file] returns [None] and changes nothing when nothing
    exists at the derived path.  When a regular file is there that the
    process may change and remove: if its age is below [ttl_seconds],
    both its timestamps become the current time and the path is returned;
    if the age has reached [ttl_seconds], the file is removed and [None]
    is returned, so that nothing exists at the path afterwards.  Other
    entries are never touched.  A protected regular file makes the call
    raise [PermissionError], and the directory stays as it is. *)
Theorem get_cached_file_spec (self : CodeCache) (code language suffix : string)
    (w : world) :
  let name := cache_file_name code language suffix in
  plain_suffix suffix = true ->
  (entry_at w name = None ->
   get_cached_file self code language suffix w = (Ok None, w)) /\
  (forall e,
     entry_at w name = Some e -> e_kind e = Regular -> e_unlink_ok e = true ->
     w_now w - e_mtime e < ttl_seconds self ->
     exists w',
       get_cached_file self code language suffix w =
         (Ok (Some (Path.str (cache_dir self) name)), w') /\
       entry_at w' name =
         Some (Entry Regular (e_content e) (w_now w) (w_now w) true) /\
       forall other, other <> name -> entry_at w' other = entry_at w other) /\
  (forall e,
     entry_at w name = Some e -> e_kind e = Regular -> e_unlink_ok e = true ->
     ttl_seconds self <= w_now w - e_mtime e ->
     exists w',
       get_cached_file self code language suffix w = (Ok None, w') /\
       entry_at w' name = None /\
       forall other, other <> name -> entry_at w' other = entry_at w other) /\
  (forall e,
     entry_at w name = Some e -> e_kind e = Regular -> e_unlink_ok e = false ->
     exists w',
       get_cached_file self code language suffix w = (Raise PermissionError, w') /\
       w_root w' = w_root w).
Proof.
  intros name _. destruct w as [[d|] now lg]; unfold entry_at; simpl.
  - split; [|split; [|split]].
    + intros H. apply get_cached_file_absent. exact H.
    + intros e H Hk Hu Hage. eexists. split; [|split].
      * apply get_cached_file_hit; eassumption.
      * simpl. rewrite lookup_insert_eq. unfold touched. rewrite Hk, Hu. reflexivity.
      * intros other Hne. simpl. apply lookup_insert_ne. auto.
    + intros e H Hk Hu Hage. eexists. split; [|split].
      * rewrite (get_cached_file_expired _ _ _ _ _ _ _ e H Hage). rewrite Hk, Hu.
        reflexivity.
      * simpl. apply lookup_delete_eq.
      * intros other Hne. simpl. apply lookup_delete_ne. auto.
    + intros e H Hk Hu.
      destruct (Z.lt_ge_cases (now - e_mtime e) (ttl_seconds self)) as [Hage|Hage].
      * rewrite (get_cached_file_refused _ _ _ _ _ _ _ e H Hage Hu), Hk.
        eexists. split; reflexivity.
      * rewrite (get_cached_file_expired _ _ _ _ _ _ _ e H Hage), Hk, Hu.
        eexists. split; reflexivity.
  - split; [|split; [|split]].
    + intros _. reflexivity.
    + intros e H. discriminate H.
    + intros e H. discriminate H.
    + intros e H. discriminate H.
Qed.

Lemma get_cached_file_spec_witness :
  get_cached_file a_cache "print(1)" "python" ".py" (World (Some ∅) 5 []) =
    (Ok None, World (Some ∅) 5 []) /\
  (exists w',
     get_cached_file a_cache "print(1)" "python" ".py" (hello_world 0 5) =
       (Ok (Some (Path.str "/c" hello_name)), w') /\
     entry_at w' hello_name = Some (Entry Regular "print(1)" 5 5 true) /\
     forall other, other <> hello_name ->
       entry_at w' other = entry_at (hello_world 0 5) other) /\
  (exists w',
     get_cached_file a_cache "print(1)" "python" ".py" (hello_world 0 86400) =
       (Ok None, w') /\
     entry_at w' hello_name = None /\
     forall other, other <> hello_name ->
       entry_at w' other = entry_at (hello_world 0 86400) other) /\
  (exists w',
     get_cached_file a_cache "print(1)" "python" ".py"
       (World (Some locked_hello) 5 []) = (Raise PermissionError, w') /\
     w_root w' = w_root (World (Some locked_hello) 5 [])).
Proof.
  split; [|split; [|split]].
  - apply (get_cached_file_spec a_cache "print(1)" "python" ".py" (World (Some ∅) 5 []));
      reflexivity.
  - apply (proj1 (proj2 (get_cached_file_spec a_cache "print(1)" "python" ".py"
                           (hello_world 0 5) eq_refl))
             (Entry Regular "print(1)" 0 0 true)).
    + vm_compute. reflexivity.
    + reflexivity.
    + reflexivity.
    + simpl. lia.
  - apply (proj1 (proj2 (proj2 (get_cached_file_spec a_cache "print(1)" "python" ".py"
                                  (hello_world 0 86400) eq_refl)))
             (Entry Regular "print(1)" 0 0 true)).
    + vm_compute. reflexivity.
    + reflexivity.
    + reflexivity.
    + simpl. lia.
  - apply (proj2 (proj2 (proj2 (get_cached_file_spec a_cache "print(1)" "python" ".py"
                                  (World (Some locked_hello) 5 []) eq_refl)))
             (Entry Regular "print(1)" 0 0 false)).
    + vm_compute. reflexivity.
    + reflexivity.
    + reflexivity.
Defined.

(** ** Paths returned *)

Module SHA256_facts.
Import SHA256.

Lemma length_be_bytes n x : length (be_bytes n x) = n.
Proof. induction n; simpl; congruence. Qed.

Lemma length_compress h block : length h = 8%nat -> length (compress h block) = 8%nat.
Proof.
  intros H. unfold compress. rewrite length_zip_with. rewrite H. reflexivity.
Qed.

Lemma length_blocks fuel : forall ws h,
  length h = 8%nat -> length (blocks fuel ws h) = 8%nat.
Proof.
  induction fuel as [|k IH]; intros ws h H; simpl.
  - destruct ws; assumption.
  - destruct ws; [assumption|]. apply IH, length_compress, H.
Qed.

Lemma length_flat_be4 ws :
  length (flat_map (be_bytes 4) ws) = (4 * length ws)%nat.
Proof.
  induction ws as [|x ws IH]; [reflexivity|].
  change (flat_map (be_bytes 4) (x :: ws))
    with (be_bytes 4 x ++ flat_map (be_bytes 4) ws)%list.
  rewrite length_app, length_be_bytes, IH. simpl. lia.
Qed.

Lemma length_digest msg : length (digest msg) = 32%nat.
Proof.
  unfold digest. rewrite length_flat_be4, length_blocks; reflexivity.
Qed.

Lemma length_hex bs : String.length (hex bs) = (2 * length bs)%nat.
Proof. induction bs as [|b bs IH]; simpl; [reflexivity|]. rewrite IH. lia. Qed.

Lemma length_hexdigest msg : String.length (hexdigest msg) = 64%nat.
Proof. unfold hexdigest. rewrite length_hex, length_digest. reflexivity. Qed.

End SHA256_facts.

Lemma cache_file_name_nonempty code language suffix :
  cache_file_name code language suffix <> "".
Proof.
  unfold cache_file_name.
  pose proof (SHA256_facts.length_hexdigest
                (encode_utf8 (content code language suffix))) as H.
  change (SHA256.hexdigest _) with (_compute_hash code language suffix) in H.
  destruct (_compute_hash code language suffix); [discriminate H | discriminate].
Qed.

Lemma path_str_nonempty dir name : name <> "" -> Path.str dir name <> "".
Proof.
  intros H. unfold Path.str. repeat case_decide; try exact H; try discriminate.
  destruct dir; discriminate.
Qed.

Lemma get_cached_file_path self code language suffix w p w' :
  get_cached_file self code language suffix w = (Ok (Some p), w') ->
  p = Path.str (cache_dir self) (cache_file_name code language suffix).
Proof.
  destruct w as [[d|] now lg].
  - destruct (d !! cache_file_name code language suffix) as [e|] eqn:He.
    + destruct (Z.lt_ge_cases (now - e_mtime e) (ttl_seconds self)) as [Hage|Hage].
      * destruct (e_unlink_ok e) eqn:Hu.
        -- rewrite (get_cached_file_hit _ _ _ _ _ _ _ e He Hage Hu). congruence.
        -- rewrite (get_cached_file_refused _ _ _ _ _ _ _ e He Hage Hu). discriminate.
      * rewrite (get_cached_file_expired _ _ _ _ _ _ _ e He Hage).
        destruct (e_kind e); [|discriminate].
        destruct (e_unlink_ok e); discriminate.
    + rewrite get_cached_file_absent by assumption. discriminate.
  - rewrite get_cached_file_no_root. discriminate.
Qed.

Lemma cache_code_file_path self code language suffix w p w' :
  cache_code_file self code language suffix w = (Ok p, w') ->
  p = Path.str (cache_dir self) (cache_file_name code language suffix).
Proof.
  destruct w as [[d|] now lg].
  - destruct (d !! cache_file_name code language suffix) as [e|] eqn:He.
    + destruct (e_unlink_ok e) eqn:Hu.
      * rewrite (cache_code_file_present _ _ _ _ _ _ _ e He Hu). congruence.
      * rewrite (cache_code_file_refused _ _ _ _ _ _ _ e He Hu). discriminate.
    + rewrite cache_code_file_absent by assumption.
      destruct (_cleanup_if_needed _ _) as [[[]|ex] w1]; congruence.
  - rewrite cache_code_file_no_root. discriminate.
Qed.

(** ** The combined accessor *)

Lemma lookup_by_key_eq self code language suffix :
  lookup_by_key self (_compute_hash code language suffix) suffix language =
  get_cached_file self code language suffix.
Proof. reflexivity. Qed.

Lemma store_by_key_eq self code language suffix w :
  store_by_key self (_compute_hash code language suffix) suffix code language w =
  cache_code_file self code language suffix w.
Proof.
  unfold store_by_key, cache_code_file, mbind, M_bind, Path.exists_. simpl.
  destruct (w_root w) as [d|]; simpl; [|reflexivity].
  destruct (bool_decide _); reflexivity.
Qed.

Lemma get_or_cache_eq self code language suffix w :
  get_or_cache self code language suffix w =
  match get_cached_file self code language suffix w with
  | (Ok (Some p), w1) => (Ok (p, true), w1)
  | (Ok None, w1) =>
      match cache_code_file self code language suffix w1 with
      | (Ok p, w2) => (Ok (p, false), w2)
      | (Raise e, w2) => (Raise e, w2)
      end
  | (Raise e, w1) => (Raise e, w1)
  end.
Proof.
  unfold get_or_cache, mbind at 1, M_bind at 1.
  destruct (get_cached_file self code language suffix w) as [[[p|]|e] w1] eqn:Hget.
  - apply get_cached_file_path in Hget. subst p. simpl.
    rewrite bool_decide_eq_false_2
      by apply path_str_nonempty, cache_file_name_nonempty. reflexivity.
  - simpl. unfold mbind, M_bind.
    destruct (cache_code_file self code language suffix w1) as [[p|e] w2];
      reflexivity.
  - reflexivity.
Qed.

(** C5. [get_or_cache] is the composition "derive the key once, look up,
    store on absent": it returns [(path, true)] exactly when
    [get_cached_file] returns that path, it returns [(path, false)]
    exactly when [get_cached_file] returns [None] and [cache_code_file]
    then returns [path], and in both branches the path is the one derived
    from the inputs. *)
Theorem get_or_cache_composition (self : CodeCache) (code language suffix : string)
    (w : world) :
  get_or_cache self code language suffix w =
    get_or_create self code language suffix w /\
  (forall p w',
     get_or_cache self code language suffix w = (Ok (p, true), w') <->
     get_cached_file self code language suffix w = (Ok (Some p), w')) /\
  (forall p w',
     get_or_cache self code language suffix w = (Ok (p, false), w') <->
     exists w1,
       get_cached_file self code language suffix w = (Ok None, w1) /\
       cache_code_file self code language suffix w1 = (Ok p, w')) /\
  (forall p b w',
     get_or_cache self code language suffix w = (Ok (p, b), w') ->
     p = Path.str (cache_dir self) (cache_file_name code language suffix)).
Proof.
  pose proof (get_or_cache_eq self code language suffix w) as Hrun.
  split; [|split; [|split]].
  - rewrite Hrun. unfold get_or_create. rewrite lookup_by_key_eq.
    unfold mbind at 1, M_bind at 1.
    destruct (get_cached_file self code language suffix w) as [[[p|]|e] w1];
      [reflexivity| |reflexivity].
    unfold mbind, M_bind. rewrite store_by_key_eq.
    destruct (cache_code_file self code language suffix w1) as [[p|e] w2];
      reflexivity.
  - intros p w'. rewrite Hrun.
    destruct (get_cached_file self code language suffix w) as [[[q|]|e] w1].
    + split; intros H; inversion H; reflexivity.
    + destruct (cache_code_file self code language suffix w1) as [[q|e] w2];
        split; intros H; discriminate H.
    + split; intros H; discriminate H.
  - intros p w'. rewrite Hrun.
    destruct (get_cached_file self code language suffix w) as [[[q|]|e] w1].
    + split; [intros H; discriminate H | intros [w2 [H _]]; discriminate H].
    + split.
      * intros H. exists w1. split; [reflexivity|].
        destruct (cache_code_file self code language suffix w1) as [[q|e] w2];
          inversion H; reflexivity.
      * intros [w2 [H1 H2]]. inversion H1; subst w2. rewrite H2. reflexivity.
    + split; [intros H; discriminate H | intros [w2 [H _]]; discriminate H].
  - intros p b w'. rewrite Hrun.
    destruct (get_cached_file self code language suffix w) as [[[q|]|e] w1] eqn:Hget.
    + intros H. inversion H; subst. eapply get_cached_file_path. exact Hget.
    + destruct (cache_code_file self code language suffix w1) as [[q|e] w2] eqn:Hst;
        intros H; inversion H; subst.
      eapply cache_code_file_path. exact Hst.
    + intros H. discriminate H.
Qed.

(** ** Key derivation *)

Section Strings.

Lemma app_nil_l' (t : string) : "" +:+ t = t.
Proof. reflexivity. Qed.

Lemma app_cons (a : ascii) (s t : string) : String a s +:+ t = String a (s +:+ t).
Proof. reflexivity. Qed.

Lemma list_of_app (s t : string) :
  list_ascii_of_string (s +:+ t) =
  (list_ascii_of_string s ++ list_ascii_of_string t)%list.
Proof.
  induction s as [|a s IH]; [reflexivity|].
  rewrite app_cons. simpl. rewrite IH. reflexivity.
Qed.

Lemma list_of_inj (s t : string) :
  list_ascii_of_string s = list_ascii_of_string t -> s = t.
Proof.
  intros H. rewrite <- (string_of_list_ascii_of_string s),
    <- (string_of_list_ascii_of_string t), H. reflexivity.
Qed.

Lemma app_inj_r (s s' t : string) : s +:+ t = s' +:+ t -> s = s'.
Proof.
  intros H. apply list_of_inj.
  apply (f_equal list_ascii_of_string) in H. rewrite !list_of_app in H.
  eapply app_inv_tail. exact H.
Qed.

End Strings.

Lemma split_at_colon (l l' r r' : string) :
  no_colon l = true -> no_colon l' = true ->
  l +:+ ":" +:+ r = l' +:+ ":" +:+ r' ->
  l = l' /\ r = r'.
Proof.
  revert l'. induction l as [|a l IH]; intros [|a' l'] Hl Hl' H.
  - rewrite !app_nil_l' in H. split; [reflexivity|].
    rewrite !app_cons, !app_nil_l' in H. congruence.
  - rewrite app_nil_l', !app_cons, app_nil_l' in H. inversion H; subst.
    simpl in Hl'. discriminate Hl'.
  - rewrite app_nil_l', !app_cons, app_nil_l' in H. inversion H; subst.
    simpl in Hl. discriminate Hl.
  - rewrite !app_cons in H. inversion H; subst.
    simpl in Hl, Hl'. apply andb_prop in Hl as [_ Hl]. apply andb_prop in Hl' as [_ Hl'].
    destruct (IH l' Hl Hl' ltac:(assumption)) as [-> ->]. split; reflexivity.
Qed.

Lemma content_inj (code language suffix code' language' suffix' : string) :
  no_colon language = true -> no_colon suffix = true ->
  no_colon language' = true -> no_colon suffix' = true ->
  content code language suffix = content code' language' suffix' ->
  (code, language, suffix) = (code', language', suffix').
Proof.
  unfold content. intros Hl Hs Hl' Hs' H.
  apply split_at_colon in H as [-> H]; [|assumption..].
  apply split_at_colon in H as [-> ->]; [|assumption..].
  reflexivity.
Qed.


(** C3, as the code has it.  The key is a function of the triple, namely
    the 64 hexadecimal digits of the SHA-256 digest of
    [language:suffix:code].  That digest input determines the triple when
    the two triples differ in one field only, and when no language or
    suffix involved contains [':']; nothing more is claimed about distinct
    triples. *)
Theorem compute_hash_spec (code language suffix code' language' suffix' : string) :
  (_compute_hash code language suffix =
     SHA256.hexdigest (encode_utf8 (language +:+ ":" +:+ suffix +:+ ":" +:+ code)) /\
   String.length (_compute_hash code language suffix) = 64%nat) /\
  ((code, language, suffix) = (code', language', suffix') ->
   _compute_hash code language suffix = _compute_hash code' language' suffix') /\
  (content code language suffix = content code' language suffix -> code = code') /\
  (content code language suffix = content code language' suffix ->
   language = language') /\
  (content code language suffix = content code language suffix' ->
   suffix = suffix') /\
  (no_colon language = true -> no_colon suffix = true ->
   no_colon language' = true -> no_colon suffix' = true ->
   content code language suffix = content code' language' suffix' ->
   (code, language, suffix) = (code', language', suffix')).
Proof.
  split; [split|split; [|split; [|split; [|split]]]].
  - reflexivity.
  - apply SHA256_facts.length_hexdigest.
  - intros H. inversion H. reflexivity.
  - unfold content. intros H.
    apply (inj (String.app language)) in H.
    apply (inj (String.app ":")) in H.
    apply (inj (String.app suffix)) in H.
    apply (inj (String.app ":")) in H. exact H.
  - unfold content. intros H. eapply app_inj_r. exact H.
  - unfold content. intros H.
    apply (inj (String.app language)) in H.
    apply (inj (String.app ":")) in H.
    eapply app_inj_r. exact H.
  - apply content_inj.
Qed.

Lemma compute_hash_spec_witness :
  _compute_hash "x" "python" ".py" = _compute_hash "x" "python" ".py" /\
  ("x", "python", ".py") = ("x", "python", ".py").
Proof.
  split.
  - apply (proj1 (proj2 (compute_hash_spec "x" "python" ".py" "x" "python" ".py"))).
    reflexivity.
  - apply (proj2 (proj2 (proj2 (proj2 (proj2
             (compute_hash_spec "x" "python" ".py" "x" "python" ".py"))))));
      reflexivity.
Defined.

(** C3 fails as stated: the same code under two different (language,
    suffix) pairs gives one and the same key, because [':'] may occur
    inside a field. *)
Lemma compute_hash_collision :
  ("x", "a", ":b") <> ("x", "a:", "b") /\
  _compute_hash "x" "a" ":b" = _compute_hash "x" "a:" "b" /\
  _compute_hash "x" "a" ":b" =
    "c4e68996643cb35e2aa3b1e178c85455b509f4d56b38f66c79bbc6eec243215a".
Proof.
  split; [discriminate|]. split; [reflexivity|]. vm_compute. reflexivity.
Qed.

(** ** Sizes and the eviction order *)

Lemma foldr_add_perm {A} (f : A -> Z) (l l' : list A) :
  l ≡ₚ l' ->
  foldr (fun x acc => f x + acc) 0 l = foldr (fun x acc => f x + acc) 0 l'.
Proof.
  induction 1; simpl; lia.
Qed.

Lemma size_of_perm l l' : l ≡ₚ l' -> size_of l = size_of l'.
Proof. apply (foldr_add_perm (fun p => file_size p.2)). Qed.

Lemma file_size_nonneg e : 0 <= file_size e.
Proof. unfold file_size, st_size. destruct (is_regular e); lia. Qed.

Lemma total_size_delete (d : gmap string entry) n e :
  d !! n = Some e -> total_size (delete n d) = total_size d - file_size e.
Proof.
  intros H. unfold total_size.
  rewrite <- (size_of_perm _ _ (map_to_list_delete d n e H)). simpl. lia.
Qed.

Lemma total_size_insert (d : gmap string entry) n e :
  d !! n = None -> total_size (<[n := e]> d) = total_size d + file_size e.
Proof.
  intros H. unfold total_size.
  rewrite (size_of_perm _ _ (map_to_list_insert d n e H)). simpl. lia.
Qed.

Lemma total_size_empty : total_size ∅ = 0.
Proof. unfold total_size. rewrite map_to_list_empty. reflexivity. Qed.

Lemma sizes_perm d l l' : l ≡ₚ l' -> sizes d l = sizes d l'.
Proof. apply (foldr_add_perm (fun n => from_option st_size 0 (d !! n))). Qed.

Lemma sizes_nonneg d l : 0 <= sizes d l.
Proof.
  induction l as [|n l IH]; simpl; [lia|].
  destruct (d !! n) as [e|]; simpl; unfold st_size; lia.
Qed.

Lemma sizes_app d l l' : sizes d (l ++ l') = sizes d l + sizes d l'.
Proof. induction l as [|n l IH]; simpl; lia. Qed.

Lemma elem_of_keys_of l a n :
  (a, n) ∈ keys_of l <->
  exists e, (n, e) ∈ l /\ is_regular e = true /\ a = e_atime e.
Proof.
  unfold keys_of. rewrite list_elem_of_fmap. split.
  - intros [[m e] [Heq Hin]]. apply list_elem_of_filter in Hin as [Hreg Hin].
    simpl in *. inversion Heq; subst. exists e. auto.
  - intros [e [Hin [Hreg ->]]]. exists (n, e). split; [reflexivity|].
    apply list_elem_of_filter. auto.
Qed.

Lemma elem_of_eviction_order d a n :
  (a, n) ∈ eviction_order d <->
  exists e, d !! n = Some e /\ is_regular e = true /\ a = e_atime e.
Proof.
  unfold eviction_order. rewrite merge_sort_Permutation, elem_of_keys_of.
  split; intros [e [H H']]; exists e; (split; [|exact H']);
    apply elem_of_map_to_list; exact H.
Qed.

Lemma keys_of_cons n e l :
  keys_of ((n, e) :: l) =
  if is_regular e then (e_atime e, n) :: keys_of l else keys_of l.
Proof.
  unfold keys_of. rewrite filter_cons. simpl.
  destruct (is_regular e).
  - rewrite decide_True by reflexivity. reflexivity.
  - rewrite decide_False by discriminate. reflexivity.
Qed.

Lemma sizes_keys_of d l :
  (forall n e, (n, e) ∈ l -> d !! n = Some e) ->
  sizes d (keys_of l).*2 = size_of l.
Proof.
  induction l as [|[n e] l IH]; intros Hl; [reflexivity|].
  assert (Hn : d !! n = Some e) by (apply Hl; left).
  assert (IH' := IH (fun m e' H => Hl m e' (list_elem_of_further _ _ _ H))).
  rewrite keys_of_cons.
  change (size_of ((n, e) :: l)) with (file_size e + size_of l).
  unfold file_size. rewrite <- IH'.
  destruct (is_regular e) eqn:He; [|reflexivity].
  change (sizes d ((e_atime e, n) :: keys_of l).*2)
    with (from_option st_size 0 (d !! n) + sizes d (keys_of l).*2).
  rewrite Hn. reflexivity.
Qed.

Lemma sizes_eviction_order d : sizes d (eviction_order d).*2 = total_size d.
Proof.
  unfold eviction_order, total_size.
  rewrite (sizes_perm d _ (keys_of (map_to_list d)).*2).
  - apply sizes_keys_of, map_to_list_lookup.
  - apply fmap_Permutation, merge_sort_Permutation.
Qed.

Lemma total_size_remove_names d names :
  NoDup names ->
  (forall n, n ∈ names -> exists e, d !! n = Some e /\ is_regular e = true) ->
  total_size (remove_names names d) = total_size d - sizes d names.
Proof.
  induction names as [|n names IH]; intros Hnd Hin; simpl; [lia|].
  apply NoDup_cons in Hnd as [Hn Hnd].
  destruct (Hin n) as [e [He Hreg]]; [left|].
  rewrite (total_size_delete _ n e).
  - rewrite IH; [|assumption|intros; apply Hin; right; assumption].
    rewrite He. simpl. unfold file_size. rewrite Hreg. lia.
  - unfold remove_names. rewrite lookup_foldr_delete_not_elem_of; assumption.
Qed.

Instance tuple_le_total : Total tuple_le.
Proof.
  intros [a n] [b m]. unfold tuple_le. simpl.
  destruct (Z.lt_trichotomy a b) as [H|[H|H]]; [left; left; exact H | | right; left; exact H].
  destruct (total String.le n m); [left|right]; right; auto.
Qed.

Instance tuple_le_trans : Transitive tuple_le.
Proof.
  intros [a n] [b m] [c k]. unfold tuple_le. simpl.
  intros [H|[-> H]] [H'|[-> H']]; try (left; lia).
  right. split; [reflexivity|]. etrans; eassumption.
Qed.

Lemma eviction_order_sorted d : StronglySorted tuple_le (eviction_order d).
Proof. apply StronglySorted_merge_sort; apply _. Qed.

(** In a sorted list an element with a strictly smaller first component
    comes first. *)
Lemma sorted_index l i j a n b m :
  StronglySorted tuple_le l ->
  l !! i = Some (a, n) -> l !! j = Some (b, m) -> a < b -> (i < j)%nat.
Proof.
  intros Hs. revert i j. induction Hs as [|x l Hs IH Hx]; intros i j Hi Hj Hab.
  - discriminate Hi.
  - destruct i as [|i], j as [|j]; simpl in *.
    + inversion Hi; subst. inversion Hj; subst. lia.
    + lia.
    + inversion Hj; subst. rewrite Forall_forall in Hx.
      assert (Hle : tuple_le (b, m) (a, n)).
      { apply Hx. eapply list_elem_of_lookup_2. exact Hi. }
      unfold tuple_le in Hle. simpl in Hle. lia.
    + apply -> Nat.succ_lt_mono. eapply IH; eassumption.
Qed.

(** ** Facts on the float operations *)

Module Float_facts.
Import Float.

Lemma round_bounds n d :
  0 < d ->
  n / d <= round_half_even n d /\ 2 * d * round_half_even n d <= 2 * n + d.
Proof.
  intros Hd. unfold round_half_even.
  pose proof (Z.div_mod n d ltac:(lia)) as Hn.
  pose proof (Z.mod_pos_bound n d Hd) as Hr.
  destruct (Z.compare_spec (2 * (n mod d)) d) as [Hc|Hc|Hc];
    [destruct (Z.even (n / d))|..]; nia.
Qed.

Lemma of_mant_neg m e :
  e < 0 -> of_mant m e = Qred (Qmake m (Z.to_pos (2 ^ (- e)))).
Proof.
  intros He. unfold of_mant. destruct (0 <=? e) eqn:H; [|reflexivity].
  apply Z.leb_le in H. lia.
Qed.

Lemma of_int_exact M : 0 <= M < 2 ^ 53 -> of_int M = inject_Z M.
Proof.
  intros [H0 H53]. unfold of_int, b64. cbn [Qnum Qden inject_Z].
  destruct (Z.compare_spec M 0) as [Hc|Hc|Hc]; [subst; reflexivity|lia|].
  unfold b64_pos, exponent. change (Z.log2 1) with 0.
  pose proof (Z.log2_spec M Hc) as [Hlo Hhi].
  assert (HL : 0 <= Z.log2 M < 53).
  { split; [apply Z.log2_nonneg|]. apply Z.log2_lt_pow2; lia. }
  set (L := Z.log2 M) in *.
  assert (Hsn : scaled_num M (L - 0 - 52) = M * 2 ^ (52 - L)).
  { unfold scaled_num. f_equal. f_equal. lia. }
  assert (Hsd : scaled_den 1 (L - 0 - 52) = 1).
  { unfold scaled_den. replace (Z.max 0 (L - 0 - 52)) with 0 by lia. reflexivity. }
  assert (Hbig : 2 ^ 52 <= M * 2 ^ (52 - L)).
  { replace (2 ^ 52) with (2 ^ L * 2 ^ (52 - L)).
    - apply Z.mul_le_mono_nonneg_r; [apply Z.pow_nonneg; lia | exact Hlo].
    - rewrite <- Z.pow_add_r by lia. f_equal. lia. }
  rewrite Hsn, Hsd, Z.div_1_r.
  destruct (M * 2 ^ (52 - L) <? 2 ^ 52) eqn:Hlt; [apply Z.ltb_lt in Hlt; lia|].
  rewrite Hsn, Hsd. unfold round_half_even. rewrite Z.mod_1_r, Z.div_1_r. simpl Z.compare.
  unfold of_mant. destruct (0 <=? L - 0 - 52) eqn:He.
  - apply Z.leb_le in He. replace L with 52 by lia. f_equal. simpl. lia.
  - rewrite <- (inject_Z_Qred M). apply Qred_complete.
    unfold Qeq. cbn [Qnum Qden inject_Z].
    rewrite Z2Pos.id by (apply Z.pow_pos_nonneg; lia).
    replace (- (L - 0 - 52)) with (52 - L) by lia. lia.
Qed.

Lemma int_le_of_mant c m e :
  e < 0 -> (int_le c (of_mant m e) = true <-> c * 2 ^ (- e) <= m).
Proof.
  intros He. rewrite of_mant_neg by exact He. unfold int_le.
  rewrite Qle_bool_iff, Qred_correct. unfold Qle. cbn [Qnum Qden inject_Z].
  rewrite Z2Pos.id by (apply Z.pow_pos_nonneg; lia). lia.
Qed.

Lemma target_exact M c :
  0 <= M <= 2 ^ 49 ->
  (int_le c (int_mul M lit_0_8) = true <-> 5 * c <= 4 * M).
Proof.
  intros [H0 H49]. unfold int_mul. rewrite of_int_exact by lia.
  rewrite lit_0_8_value. unfold b64, Qmult. cbn [Qnum Qden inject_Z].
  change (Z.to_pos (2 ^ 52)) with 4503599627370496%positive.
  change (1 * 4503599627370496)%positive with 4503599627370496%positive.
  destruct (Z.compare_spec (M * 3602879701896397) 0) as [Hc|Hc|Hc]; [|lia|].
  - assert (M = 0) by lia. subst M. unfold int_le. rewrite Qle_bool_iff.
    unfold Qle. cbn [Qnum Qden inject_Z]. lia.
  - unfold b64_pos.
    set (n := M * 3602879701896397) in *.
    set (d := 4503599627370496).
    assert (He : exponent n (Z.pos 4503599627370496) <= -4).
    { unfold exponent. change (Z.log2 (Z.pos 4503599627370496)) with 52.
      assert (Z.log2 n < 101).
      { apply Z.log2_lt_pow2; [exact Hc|]. unfold n.
        change (2 ^ 101) with (2 ^ 49 * 2 ^ 52). nia. }
      destruct (_ <? _); lia. }
    fold d in He |- *.
    set (e := exponent n d) in *.
    rewrite int_le_of_mant by lia.
    assert (Hsn : scaled_num n e = n * 2 ^ (- e)).
    { unfold scaled_num. f_equal. f_equal. lia. }
    assert (Hsd : scaled_den d e = d).
    { unfold scaled_den. replace (Z.max 0 e) with 0 by lia. lia. }
    rewrite Hsn, Hsd.
    assert (HP : 16 <= 2 ^ (- e)).
    { change 16 with (2 ^ 4). apply Z.pow_le_mono_r; lia. }
    set (P := 2 ^ (- e)) in *.
    destruct (round_bounds (n * P) d ltac:(reflexivity)) as [Hlo Hhi].
    set (m := round_half_even (n * P) d) in *.
    split.
    + intros Hcm.
      assert (H1 : 2 * d * (c * P) <= 2 * (n * P) + d) by nia.
      unfold n, d in H1. nia.
    + intros H5.
      assert (H1 : c * P <= n * P / d).
      { apply Z.div_le_lower_bound; [reflexivity|]. unfold n, d. nia. }
      lia.
Qed.

Lemma round_half_even_nonneg n d : 0 <= n -> 0 < d -> 0 <= round_half_even n d.
Proof.
  intros Hn Hd. unfold round_half_even.
  assert (0 <= n / d) by (apply Z.div_pos; assumption).
  destruct (Z.compare _ _); [destruct (Z.even _)|..]; lia.
Qed.

Lemma of_mant_nonneg m e : 0 <= m -> (0 <= of_mant m e)%Q.
Proof.
  intros Hm. unfold of_mant. destruct (0 <=? e) eqn:He.
  - apply Z.leb_le in He. unfold Qle. simpl.
    assert (0 <= m * 2 ^ e) by (apply Z.mul_nonneg_nonneg; [|apply Z.pow_nonneg]; lia).
    lia.
  - rewrite Qred_correct. unfold Qle. simpl. lia.
Qed.

Lemma b64_pos_nonneg n d : 0 <= n -> 0 < d -> (0 <= b64_pos n d)%Q.
Proof.
  intros Hn Hd. unfold b64_pos. apply of_mant_nonneg, round_half_even_nonneg.
  - unfold scaled_num. apply Z.mul_nonneg_nonneg; [|apply Z.pow_nonneg]; lia.
  - unfold scaled_den. apply Z.mul_pos_pos; [|apply Z.pow_pos_nonneg]; lia.
Qed.

Lemma b64_nonneg x : (0 <= x)%Q -> (0 <= b64 x)%Q.
Proof.
  intros Hx. unfold b64. unfold Qle in Hx. cbn [Qnum Qden] in Hx.
  destruct (Z.compare_spec (Qnum x) 0) as [Hc|Hc|Hc].
  - apply Qle_refl.
  - lia.
  - apply b64_pos_nonneg; [lia|reflexivity].
Qed.

Lemma int_mul_nonneg i : 0 <= i -> (0 <= int_mul i lit_0_8)%Q.
Proof.
  intros Hi. unfold int_mul, of_int. apply b64_nonneg, Qmult_le_0_compat.
  - apply b64_nonneg. unfold Qle. simpl. lia.
  - vm_compute. discriminate.
Qed.

Lemma int_le_zero i : 0 <= i -> int_le 0 (int_mul i lit_0_8) = true.
Proof.
  intros Hi. unfold int_le. apply Qle_bool_iff. apply (int_mul_nonneg i Hi).
Qed.

Lemma int_le_mono i j x : int_le i x = false -> i <= j -> int_le j x = false.
Proof.
  unfold int_le. intros H Hij.
  destruct (Qle_bool (inject_Z j) x) eqn:Hj; [|reflexivity].
  apply Qle_bool_iff in Hj.
  assert (Hi : Qle_bool (inject_Z i) x = true).
  { apply Qle_bool_iff. eapply Qle_trans; [|exact Hj].
    rewrite <- Zle_Qle. exact Hij. }
  congruence.
Qed.

End Float_facts.

(** ** The loop of the eviction pass *)

Lemma removable_cons d x cf : removable d (x :: cf) -> removable d cf.
Proof. intros H a n Hin. apply (H a n). right. exact Hin. Qed.

Lemma removable_app_l d cf cf' : removable d (cf ++ cf') -> removable d cf.
Proof. intros H a n Hin. apply (H a n). apply elem_of_app. left. exact Hin. Qed.

(** With removable files only, the loop returns; it stops at the first
    point where the running size is within the target, or at the end. *)
Lemma evict_run_removable target d cf : forall current,
  removable d cf ->
  (evict_run target d cf current).2 = Ok tt /\
  ((evict_run target d cf current).1 <= length cf)%nat /\
  ((evict_run target d cf current).1 = length cf \/
   Float.int_le
     (current - sizes d (take (evict_run target d cf current).1 cf.*2)) target = true) /\
  (forall j, (j < (evict_run target d cf current).1)%nat ->
     Float.int_le (current - sizes d (take j cf.*2)) target = false).
Proof.
  induction cf as [|[a n] cf IH]; intros current Hrem; simpl.
  - repeat split; auto. intros j Hj. lia.
  - destruct (Float.int_le current target) eqn:Hstop; simpl.
    + repeat split; [lia| |intros j Hj; lia].
      right. rewrite Z.sub_0_r. exact Hstop.
    + destruct (Hrem a n) as [e [He [Hk Hu]]]; [left|].
      rewrite He, Hk, Hu.
      destruct (IH (current - st_size e) (removable_cons _ _ _ Hrem))
        as [Hr [Hlen [Hend Hbefore]]].
      destruct (evict_run target d cf (current - st_size e)) as [k r]. simpl in *.
      rewrite He. simpl.
      split; [exact Hr|]. split; [lia|]. split.
      * destruct Hend as [->|Hend]; [left; reflexivity|right].
        rewrite <- Hend. f_equal. unfold fmap. lia.
      * intros [|j] Hj; simpl.
        -- rewrite Z.sub_0_r. exact Hstop.
        -- rewrite He. simpl. rewrite <- (Hbefore j) by lia. f_equal. unfold fmap. lia.
Qed.

(** The loop up to an entry that cannot be unlinked: everything sorted
    before it is removed, and the exception ends the pass there. *)
Lemma evict_run_blocked target d pre a n e post : forall current,
  removable d pre ->
  d !! n = Some e -> e_kind e = Regular -> e_unlink_ok e = false ->
  Float.int_le (current - sizes d pre.*2) target = false ->
  evict_run target d (pre ++ (a, n) :: post) current =
  (length pre, Raise PermissionError).
Proof.
  induction pre as [|[b m] pre IH]; intros current Hrem He Hk Hu Hover; simpl in *.
  - rewrite Z.sub_0_r in Hover. rewrite Hover, He, Hk, Hu. reflexivity.
  - destruct (Hrem b m) as [e' [He' [Hk' Hu']]]; [left|].
    rewrite He' in Hover. simpl in Hover.
    assert (Hnow : Float.int_le current target = false).
    { eapply Float_facts.int_le_mono; [exact Hover|].
      pose proof (sizes_nonneg d pre.*2). unfold st_size, fmap in *. lia. }
    rewrite Hnow, He', Hk', Hu'.
    rewrite (IH (current - st_size e')); try assumption.
    + reflexivity.
    + eapply removable_cons. exact Hrem.
    + rewrite <- Hover. f_equal. unfold fmap. lia.
Qed.

Lemma removable_eviction_order d :
  (forall n e, d !! n = Some e -> is_regular e = true -> e_unlink_ok e = true) ->
  removable d (eviction_order d).
Proof.
  intros H a n Hin. apply elem_of_eviction_order in Hin as [e [He [Hreg _]]].
  exists e. split; [exact He|]. split; [|eapply H; eassumption].
  unfold is_regular in Hreg. destruct (e_kind e); [reflexivity|discriminate].
Qed.

(** ** The eviction pass *)

Lemma total_size_after_removal d j :
  total_size (remove_names (take j (eviction_order d).*2) d) =
  total_size d - sizes d (take j (eviction_order d).*2).
Proof.
  apply total_size_remove_names.
  - eapply sublist_NoDup; [apply NoDup_eviction_order | apply sublist_take].
  - intros n Hn. apply subseteq_take in Hn.
    apply list_elem_of_fmap in Hn as [[a m] [-> Hin]].
    apply elem_of_eviction_order in Hin as [e [He [Hreg _]]].
    exists e. auto.
Qed.

Lemma sorted_lookup_le l i j a n b m :
  StronglySorted tuple_le l ->
  l !! i = Some (a, n) -> l !! j = Some (b, m) -> (i < j)%nat -> a <= b.
Proof.
  intros Hs. revert i j. induction Hs as [|x l Hs IH Hx]; intros i j Hi Hj Hij.
  - discriminate Hi.
  - destruct j as [|j]; [lia|]. destruct i as [|i]; simpl in *.
    + inversion Hi; subst. rewrite Forall_forall in Hx.
      assert (Hle : tuple_le (a, n) (b, m)).
      { apply Hx. eapply list_elem_of_lookup_2. exact Hj. }
      unfold tuple_le in Hle. simpl in Hle. lia.
    + eapply IH; [exact Hi | exact Hj | lia].
Qed.

Lemma five_stores :
  entry_at after_five_stores (E_name 1) = None /\
  entry_at after_five_stores (E_name 2) = None /\
  entry_at after_five_stores (E_name 3) = Some (new_file 3 (E 3)) /\
  entry_at after_five_stores (E_name 4) = Some (new_file 4 (E 4)) /\
  entry_at after_five_stores (E_name 5) = Some (new_file 5 (E 5)) /\
  (total_size <$> w_root after_five_stores) = Some 750 /\
  (size <$> w_root after_five_stores) = Some 3%nat /\
  drop 5 (w_log after_five_stores) =
    [SizeExceeds 1250; RemovedEntry (E_name 1); RemovedEntry (E_name 2)].
Proof. vm_compute. repeat split; reflexivity. Qed.

(** C2. With a non-negative ceiling and files the process may unlink, the
    pass changes nothing when the total size of the regular files is at
    most [max_size_bytes].  Above the ceiling it removes the first [k]
    files in ascending order of [st_atime] and returns; afterwards the
    total size is within the target [max_size_bytes * 0.8], and it was
    above the target after each shorter prefix, so the files removed are
    exactly the oldest ones needed.  Up to a ceiling of [2^49] bytes a
    size is within the target exactly when it is at most four fifths of
    the ceiling.  In the scenario of five 250-byte files under a
    1000-byte ceiling the first two are removed and 750 bytes remain. *)
Theorem cleanup_if_needed_spec (self : CodeCache) (d : gmap string entry)
    (now : Z) (lg : list event) :
  0 <= max_size_bytes self ->
  (forall n e, d !! n = Some e -> is_regular e = true -> e_unlink_ok e = true) ->
  let w := World (Some d) now lg in
  let order := eviction_order d in
  let target := Float.int_mul (max_size_bytes self) Float.lit_0_8 in
  (total_size d <= max_size_bytes self ->
   _cleanup_if_needed self w = (Ok tt, w)) /\
  (max_size_bytes self < total_size d ->
   exists k,
     (k <= length order)%nat /\
     _cleanup_if_needed self w =
       (Ok tt,
        World (Some (remove_names (take k order.*2) d)) now
              (lg ++ (SizeExceeds (total_size d) ::
                         (RemovedEntry <$> take k order.*2)))) /\
     Float.int_le (total_size (remove_names (take k order.*2) d)) target = true /\
     forall j, (j < k)%nat ->
       Float.int_le (total_size (remove_names (take j order.*2) d)) target = false) /\
  (forall a n,
     (a, n) ∈ order <->
     exists e, d !! n = Some e /\ is_regular e = true /\ a = e_atime e) /\
  (forall i j a n b m,
     order !! i = Some (a, n) -> order !! j = Some (b, m) -> (i < j)%nat ->
     a <= b) /\
  (max_size_bytes self <= 2 ^ 49 ->
   forall size, Float.int_le size target = true <-> 5 * size <= 4 * max_size_bytes self) /\
  (entry_at after_five_stores (E_name 1) = None /\
   entry_at after_five_stores (E_name 2) = None /\
   entry_at after_five_stores (E_name 3) = Some (new_file 3 (E 3)) /\
   entry_at after_five_stores (E_name 4) = Some (new_file 4 (E 4)) /\
   entry_at after_five_stores (E_name 5) = Some (new_file 5 (E 5)) /\
   (total_size <$> w_root after_five_stores) = Some 750).
Proof.
  intros Hmax Hok w order target.
  split; [|split; [|split; [|split; [|split]]]].
  - intros Hle. unfold w. rewrite cleanup_eq.
    destruct (total_size d >? max_size_bytes self) eqn:Hgt; [|reflexivity].
    apply Z.gtb_lt in Hgt. lia.
  - intros Hgt. unfold w. rewrite cleanup_eq.
    assert (Hb : (total_size d >? max_size_bytes self) = true) by (apply Z.gtb_lt; lia).
    unfold evicted. rewrite Hb. unfold cleanup_run. fold order. fold (cleanup_target self).
    destruct (evict_run_removable (cleanup_target self) d order (total_size d)
                (removable_eviction_order d Hok)) as [Hr [Hlen [Hend Hbefore]]].
    exists (evict_run (cleanup_target self) d order (total_size d)).1.
    split; [exact Hlen|]. split; [rewrite Hr; reflexivity|]. split.
    + unfold order. rewrite total_size_after_removal. fold order.
      destruct Hend as [Hall|Hend]; [|exact Hend].
      rewrite Hall, take_ge by (rewrite length_fmap; lia).
      unfold order. rewrite sizes_eviction_order, Z.sub_diag.
      apply Float_facts.int_le_zero, Hmax.
    + intros j Hj. unfold order. rewrite total_size_after_removal. fold order.
      apply Hbefore, Hj.
  - apply elem_of_eviction_order.
  - intros i j a n b m. apply sorted_lookup_le, eviction_order_sorted.
  - intros Hsmall size. apply Float_facts.target_exact. lia.
  - pose proof five_stores as H. tauto.
Qed.

Lemma three_files_removable :
  forall n e, three_files true true !! n = Some e ->
    is_regular e = true -> e_unlink_ok e = true.
Proof.
  change (map_Forall (fun _ e => is_regular e = true -> e_unlink_ok e = true)
            (three_files true true)).
  apply (bool_decide_unpack _). vm_compute. reflexivity.
Defined.

Lemma cleanup_if_needed_spec_witness :
  exists k,
    (k <= length (eviction_order (three_files true true)))%nat /\
    _cleanup_if_needed a_cache (World (Some (three_files true true)) 9 []) =
      (Ok tt,
       World (Some (remove_names (take k (eviction_order (three_files true true)).*2)
                      (three_files true true))) 9
             ([] ++ (SizeExceeds (total_size (three_files true true)) ::
                       (RemovedEntry <$>
                          take k (eviction_order (three_files true true)).*2)))) /\
    Float.int_le
      (total_size (remove_names (take k (eviction_order (three_files true true)).*2)
                     (three_files true true)))
      (Float.int_mul (max_size_bytes a_cache) Float.lit_0_8) = true /\
    forall j, (j < k)%nat ->
      Float.int_le
        (total_size (remove_names (take j (eviction_order (three_files true true)).*2)
                       (three_files true true)))
        (Float.int_mul (max_size_bytes a_cache) Float.lit_0_8) = false.
Proof.
  apply (proj1 (proj2 (cleanup_if_needed_spec a_cache (three_files true true) 9 []
                         ltac:(simpl; lia) three_files_removable))).
  vm_compute. reflexivity.
Defined.

(** The ceiling has to be non-negative: below zero the pass removes every
    file and the size left, zero, is still above the target. *)
Example negative_ceiling_empties_cache :
  (w_root (_cleanup_if_needed
             {| cache_dir := "/c"; max_size_bytes := -1048576; ttl_seconds := 86400 |}
             (hello_world 0 5)).2 = Some ∅) /\
  Float.int_le 0 (Float.int_mul (-1048576) Float.lit_0_8) = false.
Proof. vm_compute. split; reflexivity. Qed.

(** ** Failure inside the pass *)

(** C6 fails as stated: the oldest of three files cannot be unlinked; the
    pass raises at once, and the next oldest file, which would have to go
    to reach the target, stays. *)
Lemma cleanup_stops_at_first_failure :
  _cleanup_if_needed a_cache (World (Some (three_files false true)) 9 []) =
    (Raise PermissionError,
     World (Some (three_files false true)) 9 [SizeExceeds 1500]) /\
  three_files false true !! "b.py" = Some (Entry Regular (rep "b" 500) 2 2 true) /\
  Float.int_le (total_size (three_files false true))
    (Float.int_mul (max_size_bytes a_cache) Float.lit_0_8) = false.
Proof. vm_compute. repeat split; reflexivity. Qed.

(** C6, as the code has it.  When the pass reaches a file whose unlink
    raises, the exception leaves [_cleanup_if_needed]: the files sorted
    before it have been removed, it and every file sorted after it stay. *)
Theorem cleanup_aborts_on_error (self : CodeCache) (d : gmap string entry)
    (now : Z) (lg : list event)
    (pre post : list (Z * string)) (a : Z) (n : string) (e : entry) :
  max_size_bytes self < total_size d ->
  eviction_order d = pre ++ (a, n) :: post ->
  removable d pre ->
  d !! n = Some e ->
  e_unlink_ok e = false ->
  Float.int_le (total_size (remove_names pre.*2 d))
    (Float.int_mul (max_size_bytes self) Float.lit_0_8) = false ->
  _cleanup_if_needed self (World (Some d) now lg) =
    (Raise PermissionError,
     World (Some (remove_names pre.*2 d)) now
           (lg ++ (SizeExceeds (total_size d) :: (RemovedEntry <$> pre.*2)))) /\
  forall b m, (b, m) ∈ (a, n) :: post -> remove_names pre.*2 d !! m = d !! m.
Proof.
  intros Hgt Horder Hrem He Hu Hover.
  assert (Htake : take (length pre) (eviction_order d).*2 = pre.*2).
  { rewrite Horder, fmap_app, <- (length_fmap snd pre). apply take_app_length. }
  assert (Hreg : e_kind e = Regular).
  { assert (Hin : (a, n) ∈ eviction_order d).
    { rewrite Horder. apply elem_of_app. right. left. }
    apply elem_of_eviction_order in Hin as [e' [He' [Hreg _]]].
    rewrite He in He'. inversion He'; subst e'.
    unfold is_regular in Hreg. destruct (e_kind e); [reflexivity|discriminate]. }
  split.
  - rewrite cleanup_eq.
    assert (Hb : (total_size d >? max_size_bytes self) = true) by (apply Z.gtb_lt; lia).
    rewrite <- Htake, total_size_after_removal, Htake in Hover.
    assert (Hrun : cleanup_run self d = (length pre, Raise PermissionError)).
    { unfold cleanup_run, cleanup_target. rewrite Horder.
      apply (evict_run_blocked _ d pre a n e post (total_size d) Hrem He Hreg Hu Hover). }
    unfold evicted. rewrite Hb, Hrun. simpl. rewrite Htake. reflexivity.
  - intros b m Hin. unfold remove_names. apply lookup_foldr_delete_not_elem_of.
    pose proof (NoDup_eviction_order d) as Hnd.
    rewrite Horder, fmap_app in Hnd. apply NoDup_app in Hnd as [_ [Hdisj _]].
    intros Hpre. apply (Hdisj m Hpre).
    apply list_elem_of_fmap. exists (b, m). split; [reflexivity | exact Hin].
Qed.

Lemma cleanup_aborts_on_error_witness :
  _cleanup_if_needed a_cache (World (Some (three_files true false)) 9 []) =
    (Raise PermissionError,
     World (Some (remove_names [(1, "a.py")].*2 (three_files true false))) 9
           ([] ++ (SizeExceeds (total_size (three_files true false)) ::
                     (RemovedEntry <$> [(1, "a.py")].*2)))) /\
  forall b m, (b, m) ∈ [(2, "b.py"); (3, "c.py")] ->
    remove_names [(1, "a.py")].*2 (three_files true false) !! m =
    three_files true false !! m.
Proof.
  apply (cleanup_aborts_on_error a_cache (three_files true false) 9 []
           [(1, "a.py")] [(3, "c.py")] 2 "b.py" (Entry Regular (rep "b" 500) 2 2 false)).
  - vm_compute. reflexivity.
  - vm_compute. reflexivity.
  - intros a n H. apply list_elem_of_singleton in H. inversion H; subst.
    exists (Entry Regular (rep "a" 500) 1 1 true).
    split; [vm_compute; reflexivity | split; reflexivity].
  - vm_compute. reflexivity.
  - reflexivity.
  - vm_compute. reflexivity.
Defined.

(** ** Statistics *)

Lemma get_stats_eq self w :
  get_stats self w =
  (Ok match w_root w with
      | None => stats_without_root self
      | Some d => stats_of self d
      end, w).
Proof.
  destruct w as [[d|] now lg]; [|reflexivity].
  unfold get_stats, mbind at 1, M_bind at 1, Path.dir_exists. simpl.
  rewrite (bind_ok _ _ _ _ _ (iterdir_eq d now lg)).
  rewrite (bind_ok _ _ _ _ _
             (count_files_eq d now (map_to_list d) 0 lg (map_to_list_lookup d))).
  rewrite (bind_ok _ _ _ _ _ (get_cache_size_eq d now self lg)).
  reflexivity.
Qed.

(** C8 fails as stated: without a cache directory the dictionary has no
    ['cache_dir'] key. *)
Lemma get_stats_without_root :
  get_stats a_cache (World None 0 []) =
    (Ok [ ("num_files", VInt 0);
          ("total_size_mb", VInt 0);
          ("max_size_mb", VFloat (125 # 131072)) ],
     World None 0 []) /\
  "cache_dir" ∉ (stats_without_root a_cache).*1.
Proof.
  split; [vm_compute; reflexivity|].
  apply (bool_decide_unpack _). vm_compute. reflexivity.
Qed.

(** C8, as the code has it.  [get_stats] leaves the world as it found it.
    With a cache directory it reports the number of regular files, their
    total size and the ceiling (both in megabytes) and the directory;
    without one it reports zero files, zero size and the ceiling, and no
    directory. *)
Theorem get_stats_spec (self : CodeCache) (w : world) :
  (get_stats self w).2 = w /\
  (forall d, w_root w = Some d ->
     (get_stats self w).1 =
       Ok [ ("num_files", VInt (num_regular (map_to_list d)));
            ("total_size_mb", VFloat (mb (total_size d)));
            ("max_size_mb", VFloat (mb (max_size_bytes self)));
            ("cache_dir", VStr (cache_dir self)) ]) /\
  (w_root w = None ->
     (get_stats self w).1 =
       Ok [ ("num_files", VInt 0);
            ("total_size_mb", VInt 0);
            ("max_size_mb", VFloat (mb (max_size_bytes self))) ]).
Proof.
  rewrite get_stats_eq. simpl. split; [reflexivity|]. split.
  - intros d ->. reflexivity.
  - intros ->. reflexivity.
Qed.

Lemma get_stats_spec_witness :
  (get_stats a_cache (World (Some (three_files true true)) 9 [])).1 =
    Ok [ ("num_files", VInt (num_regular (map_to_list (three_files true true))));
         ("total_size_mb", VFloat (mb (total_size (three_files true true))));
         ("max_size_mb", VFloat (mb (max_size_bytes a_cache)));
         ("cache_dir", VStr (cache_dir a_cache)) ] /\
  (get_stats a_cache (World None 9 [])).1 =
    Ok [ ("num_files", VInt 0);
         ("total_size_mb", VInt 0);
         ("max_size_mb", VFloat (mb (max_size_bytes a_cache))) ].
Proof.
  split.
  - apply (proj1 (proj2 (get_stats_spec a_cache
                           (World (Some (three_files true true)) 9 [])))).
    reflexivity.
  - apply (proj2 (proj2 (get_stats_spec a_cache (World None 9 [])))).
    reflexivity.
Defined.

Example three_files_stats :
  (get_stats a_cache (World (Some (three_files true true)) 9 [])).1 =
    Ok [ ("num_files", VInt 3);
         ("total_size_mb", VFloat (375 # 262144));
         ("max_size_mb", VFloat (125 # 131072));
         ("cache_dir", VStr "/c") ].
Proof. vm_compute. reflexivity. Qed.

(** ** Clearing the cache *)

Lemma rmtree_entries_ok names : forall d now lg,
  NoDup names ->
  (forall n, n ∈ names -> exists e, d !! n = Some e /\ e_unlink_ok e = true) ->
  rmtree_entries names (World (Some d) now lg) =
  (Ok tt, World (Some (remove_names names d)) now lg).
Proof.
  induction names as [|n names IH]; intros d now lg Hnd Hin; [reflexivity|].
  apply NoDup_cons in Hnd as [Hn Hnd].
  destruct (Hin n) as [e [He Hu]]; [left|].
  simpl. rewrite (bind_ok _ _ _ _ _ (stat_eq d now n e lg He)). rewrite Hu.
  unfold mbind, M_bind, remove_entry, set_root. simpl.
  rewrite IH.
  - rewrite remove_names_delete. reflexivity.
  - exact Hnd.
  - intros m Hm. destruct (Hin m) as [e' [He' Hu']]; [right; exact Hm|].
    exists e'. split; [|exact Hu'].
    rewrite lookup_delete_ne; [exact He'|]. intros ->. contradiction.
Qed.

Lemma clear_no_root self now lg :
  clear self (World None now lg) = (Ok tt, World None now lg).
Proof. reflexivity. Qed.

Lemma rmtree_ok d now lg :
  (forall n e, d !! n = Some e -> e_unlink_ok e = true) ->
  rmtree (World (Some d) now lg) = (Ok tt, World None now lg).
Proof.
  intros Hok. unfold rmtree.
  rewrite (bind_ok _ _ _ _ _ (iterdir_eq d now lg)).
  rewrite (bind_ok _ _ _ tt
             (World (Some (remove_names (map_to_list d).*1 d)) now lg));
    [reflexivity|].
  apply rmtree_entries_ok.
  - apply NoDup_fst_map_to_list.
  - intros n Hn. apply list_elem_of_fmap in Hn as [[m e] [-> Hin]].
    apply elem_of_map_to_list in Hin. exists e. split; [exact Hin|].
    eapply Hok. exact Hin.
Qed.

Lemma clear_root self d now lg :
  (forall n e, d !! n = Some e -> e_unlink_ok e = true) ->
  clear self (World (Some d) now lg) =
  (Ok tt, World (Some ∅) now (lg ++ [CacheCleared])).
Proof.
  intros Hok. unfold clear, mbind at 1, M_bind at 1, Path.dir_exists. simpl.
  rewrite (bind_ok _ _ _ _ _ (rmtree_ok d now lg Hok)). reflexivity.
Qed.

Lemma unlinkable_insert_new d n now code :
  unlinkable d -> unlinkable (<[n := new_file now code]> d).
Proof.
  intros H m e Hm Hreg. apply lookup_insert_Some in Hm as [[_ <-]|[_ Hm]].
  - reflexivity.
  - eapply H; eassumption.
Qed.

Lemma cleanup_returns self d now lg :
  unlinkable d ->
  exists w', _cleanup_if_needed self (World (Some d) now lg) = (Ok tt, w').
Proof.
  intros Hok. rewrite cleanup_eq.
  destruct (total_size d >? max_size_bytes self); [|eexists; reflexivity].
  unfold cleanup_run.
  destruct (evict_run_removable (cleanup_target self) d (eviction_order d)
              (total_size d) (removable_eviction_order d Hok)) as [-> _].
  eexists. reflexivity.
Qed.

Lemma cache_code_file_returns self code language suffix d now lg :
  unlinkable d ->
  (forall e, d !! cache_file_name code language suffix = Some e ->
             e_unlink_ok e = true) ->
  exists w',
    cache_code_file self code language suffix (World (Some d) now lg) =
    (Ok (Path.str (cache_dir self) (cache_file_name code language suffix)), w').
Proof.
  intros Hok Hname.
  destruct (d !! cache_file_name code language suffix) as [e|] eqn:He.
  - rewrite (cache_code_file_present _ _ _ _ _ _ _ e He (Hname e eq_refl)).
    eexists. reflexivity.
  - rewrite cache_code_file_absent by exact He.
    destruct (cleanup_returns self _ now (lg ++ [CachedFile language
                (hash8 (_compute_hash code language suffix))])
                (unlinkable_insert_new d (cache_file_name code language suffix)
                   now code Hok)) as [w' ->].
    eexists. reflexivity.
Qed.

Lemma cache_code_file_fits self code language suffix d now lg :
  d !! cache_file_name code language suffix = None ->
  total_size d + Z.of_nat (String.length code) <= max_size_bytes self ->
  cache_code_file self code language suffix (World (Some d) now lg) =
  (Ok (Path.str (cache_dir self) (cache_file_name code language suffix)),
   World (Some (<[cache_file_name code language suffix := new_file now code]> d)) now
         (lg ++ [CachedFile language (hash8 (_compute_hash code language suffix))])).
Proof.
  intros Hnone Hfit. rewrite cache_code_file_absent by exact Hnone.
  rewrite cleanup_eq. rewrite total_size_insert by exact Hnone.
  unfold file_size, st_size. simpl.
  destruct (_ >? _) eqn:Hgt; [|reflexivity].
  apply Z.gtb_lt in Hgt. lia.
Qed.

Lemma mb_zero : mb 0 = 0%Q.
Proof. vm_compute. reflexivity. Qed.

(** C7 fails as stated: without a cache directory [clear] does nothing,
    the directory is still missing afterwards and storing raises. *)
Lemma clear_without_root :
  clear a_cache (World None 0 []) = (Ok tt, World None 0 []) /\
  cache_code_file a_cache "print(1)" "python" ".py" (World None 0 []) =
    (Raise FileNotFoundError, World None 0 []).
Proof. split; reflexivity. Qed.

(** C7, as the code has it.  [clear] never raises on a missing cache
    directory: it then does nothing, and [get_stats] reports zero files
    and zero size.  On an existing directory whose entries can all be
    removed it leaves an empty directory and logs the clearing:
    [get_stats] reports zero files and zero size, and a following
    [cache_code_file] with a suffix that keeps the name one path
    component returns its path, having written the file when the code is
    within the ceiling. *)
Theorem clear_spec (self : CodeCache) (w : world) (code language suffix : string) :
  (w_root w = None ->
   clear self w = (Ok tt, w) /\
   (get_stats self w).1 =
     Ok [ ("num_files", VInt 0);
          ("total_size_mb", VInt 0);
          ("max_size_mb", VFloat (mb (max_size_bytes self))) ]) /\
  (forall d,
     w_root w = Some d ->
     (forall n e, d !! n = Some e -> e_unlink_ok e = true) ->
     exists w',
       clear self w = (Ok tt, w') /\
       w_root w' = Some ∅ /\
       w_log w' = w_log w ++ [CacheCleared] /\
       (get_stats self w').1 =
         Ok [ ("num_files", VInt 0);
              ("total_size_mb", VFloat 0);
              ("max_size_mb", VFloat (mb (max_size_bytes self)));
              ("cache_dir", VStr (cache_dir self)) ] /\
       forall t,
         plain_suffix suffix = true ->
         exists w'',
           cache_code_file self code language suffix (at_time t w') =
           (Ok (Path.str (cache_dir self) (cache_file_name code language suffix)),
            w'') /\
           (Z.of_nat (String.length code) <= max_size_bytes self ->
            entry_at w'' (cache_file_name code language suffix) =
              Some (new_file t code))).
Proof.
  destruct w as [[d|] now lg]; simpl; split.
  - intros H. discriminate H.
  - intros d' Hd Hok. inversion Hd; subst d'.
    eexists. split; [apply clear_root, Hok|]. split; [reflexivity|].
    split; [reflexivity|]. split.
    + rewrite get_stats_eq. simpl. unfold stats_of.
      rewrite total_size_empty, map_to_list_empty, mb_zero. reflexivity.
    + intros t _. unfold at_time. simpl.
      destruct (Z.le_gt_cases (Z.of_nat (String.length code)) (max_size_bytes self))
        as [Hfit|Hbig].
      * rewrite cache_code_file_fits;
          [|apply lookup_empty|rewrite total_size_empty; lia].
        eexists. split; [reflexivity|]. intros _.
        unfold entry_at. simpl. apply lookup_insert_eq.
      * destruct (cache_code_file_returns self code language suffix ∅ t
                    (lg ++ [CacheCleared])) as [w'' Hst].
        -- intros n e Hn. rewrite lookup_empty in Hn. discriminate Hn.
        -- intros e Hn. rewrite lookup_empty in Hn. discriminate Hn.
        -- exists w''. split; [exact Hst|]. intros Hfit. lia.
  - intros _. split; reflexivity.
  - intros d H. discriminate H.
Qed.

Lemma three_files_all_removable :
  forall n e, three_files true true !! n = Some e -> e_unlink_ok e = true.
Proof.
  change (map_Forall (fun _ e => e_unlink_ok e = true) (three_files true true)).
  apply (bool_decide_unpack _). vm_compute. reflexivity.
Defined.

Lemma clear_spec_witness :
  exists w',
    clear a_cache (World (Some (three_files true true)) 9 []) = (Ok tt, w') /\
    w_root w' = Some ∅ /\
    w_log w' = [CacheCleared] /\
    (get_stats a_cache w').1 =
      Ok [ ("num_files", VInt 0);
           ("total_size_mb", VFloat 0);
           ("max_size_mb", VFloat (mb (max_size_bytes a_cache)));
           ("cache_dir", VStr (cache_dir a_cache)) ] /\
    forall t, exists w'',
      cache_code_file a_cache "print(1)" "python" ".py" (at_time t w') =
      (Ok (Path.str (cache_dir a_cache) (cache_file_name "print(1)" "python" ".py")),
       w'') /\
      entry_at w'' (cache_file_name "print(1)" "python" ".py") =
        Some (new_file t "print(1)").
Proof.
  destruct (proj2 (clear_spec a_cache (World (Some (three_files true true)) 9 [])
                     "print(1)" "python" ".py")
              (three_files true true) eq_refl three_files_all_removable)
    as [w' [Hclear [Hroot [Hlog [Hstats Hstore]]]]].
  exists w'. split; [exact Hclear|]. split; [exact Hroot|]. split; [exact Hlog|].
  split; [exact Hstats|]. intros t.
  destruct (Hstore t eq_refl) as [w'' [Hcall Hentry]].
  exists w''. split; [exact Hcall|]. apply Hentry. vm_compute. discriminate.
Defined.

(** ** Storing twice *)

(** C4 fails as stated: under a 1000-byte ceiling a 1001-byte file is
    written and removed again by the eviction pass of the same call, so
    the path returned names no file; the second call writes the file
    again and runs the eviction pass again. *)
Lemma store_evicts_own_file :
  (cache_code_file a_cache big_code "python" ".py" (World (Some ∅) 1 [])).1 =
    Ok (Path.str "/c" big_name) /\
  entry_at after_first_store big_name = None /\
  (cache_code_file a_cache big_code "python" ".py" (at_time 2 after_first_store)).1 =
    Ok (Path.str "/c" big_name) /\
  entry_at after_second_store big_name = None /\
  w_log after_second_store =
    [ CachedFile "python" (hash8 big_name); SizeExceeds 1001; RemovedEntry big_name;
      CachedFile "python" (hash8 big_name); SizeExceeds 1001; RemovedEntry big_name ].
Proof. vm_compute. repeat split; reflexivity. Qed.

Lemma cleanup_world cache d now lg r w2 :
  _cleanup_if_needed cache (World (Some d) now lg) = (r, w2) ->
  w2 = World (Some (remove_names (evicted cache d) d)) now (lg ++ pass_log cache d).
Proof.
  rewrite cleanup_eq. unfold pass_log, evicted.
  destruct (total_size d >? max_size_bytes cache); intros H; inversion H.
  - reflexivity.
  - simpl. rewrite app_nil_r. reflexivity.
Qed.

(** What a store that returned has left at the derived name. *)
Lemma stored_entry self code language suffix w p w1 e :
  cache_code_file self code language suffix w = (Ok p, w1) ->
  entry_at w1 (cache_file_name code language suffix) = Some e ->
  w_now w1 = w_now w /\
  (entry_at w (cache_file_name code language suffix) = None ->
   e = new_file (w_now w) code) /\
  (forall e0, entry_at w (cache_file_name code language suffix) = Some e0 ->
   e = touched (w_now w) e0 /\ w_log w1 = w_log w) /\
  e_unlink_ok e = true.
Proof.
  destruct w as [[d|] now lg]; unfold entry_at; simpl.
  - destruct (d !! cache_file_name code language suffix) as [e0|] eqn:He0.
    + destruct (e_unlink_ok e0) eqn:Hu.
      * rewrite (cache_code_file_present _ _ _ _ _ _ _ e0 He0 Hu).
        intros H; inversion H; subst.
        simpl. rewrite lookup_insert_eq. intros He; inversion He; subst.
        split; [reflexivity|]. split; [discriminate|]. split; [|exact Hu].
        intros e1 H1. inversion H1. split; reflexivity.
      * rewrite (cache_code_file_refused _ _ _ _ _ _ _ e0 He0 Hu). discriminate.
    + rewrite cache_code_file_absent by exact He0.
      destruct (_cleanup_if_needed _ _) as [[[]|ex] w2] eqn:Hpass; intros H; inversion H.
      subst. apply cleanup_world in Hpass. subst w1. simpl.
      intros He. apply lookup_foldr_delete_Some in He as [_ He].
      rewrite lookup_insert_eq in He. inversion He; subst.
      split; [reflexivity|]. split; [reflexivity|]. split; [discriminate|reflexivity].
  - rewrite cache_code_file_no_root. discriminate.
Qed.

(** C4, as the code has it, for a suffix that keeps the derived name one
    path component and an existing cache directory.  Whenever
    [cache_code_file] returns, it returns the derived path.  A first call
    that finds nothing at the path writes the file with content [code];
    on return the file is there with that content unless the eviction
    pass of the same call has removed it, and it is there whenever the
    total size with the new file stays within the ceiling.  A first call
    that finds an entry only sets its timestamps and logs nothing.  If
    the entry is there when the first call has returned, a second call
    returns the same path and only sets the timestamps: the content is
    the same, nothing is logged (no write, no eviction pass) and no other
    entry changes. *)
Theorem cache_code_file_twice (self : CodeCache) (code language suffix : string)
    (d : gmap string entry) (now now' : Z) (lg : list event) :
  let name := cache_file_name code language suffix in
  let path := Path.str (cache_dir self) name in
  let w := World (Some d) now lg in
  plain_suffix suffix = true ->
  (forall p w1,
     cache_code_file self code language suffix w = (Ok p, w1) ->
     p = path /\
     (d !! name = None ->
      entry_at w1 name = None \/ entry_at w1 name = Some (Entry Regular code now now true)) /\
     (forall e, d !! name = Some e ->
        entry_at w1 name = Some (touched now e) /\ w_log w1 = lg) /\
     forall e1,
       entry_at w1 name = Some e1 ->
       exists w2,
         cache_code_file self code language suffix (at_time now' w1) = (Ok path, w2) /\
         entry_at w2 name = Some (touched now' e1) /\
         w_log w2 = w_log w1 /\
         forall other, other <> name -> entry_at w2 other = entry_at w1 other) /\
  (d !! name = None ->
   total_size d + Z.of_nat (String.length code) <= max_size_bytes self ->
   exists w1,
     cache_code_file self code language suffix w = (Ok path, w1) /\
     entry_at w1 name = Some (Entry Regular code now now true) /\
     w_log w1 = lg ++ [CachedFile language (hash8 (_compute_hash code language suffix))]) /\
  (unlinkable d ->
   (forall e, d !! name = Some e -> e_unlink_ok e = true) ->
   exists w1, cache_code_file self code language suffix w = (Ok path, w1)).
Proof.
  intros name path w _. subst name path w. split; [|split].
  - intros p w1 Hcall.
    pose proof (cache_code_file_path _ _ _ _ _ _ _ Hcall) as Hp. subst p.
    split; [reflexivity|].
    assert (Hw1 : exists d1 lg1, w1 = World (Some d1) now lg1).
    { destruct (d !! cache_file_name code language suffix) as [e|] eqn:He.
      - destruct (e_unlink_ok e) eqn:Hu.
        + rewrite (cache_code_file_present _ _ _ _ _ _ _ e He Hu) in Hcall.
          inversion Hcall. eexists _, _. reflexivity.
        + rewrite (cache_code_file_refused _ _ _ _ _ _ _ e He Hu) in Hcall.
          discriminate Hcall.
      - rewrite cache_code_file_absent in Hcall by exact He.
        destruct (_cleanup_if_needed _ _) as [[[]|ex] wc] eqn:Hpass;
          inversion Hcall; subst.
        apply cleanup_world in Hpass. eexists _, _. exact Hpass. }
    destruct Hw1 as [d1 [lg1 ->]].
    split; [|split].
    + intros Hnone. destruct (entry_at (World (Some d1) now lg1)
                                (cache_file_name code language suffix)) as [e1|] eqn:H1;
        [right|left; reflexivity].
      destruct (stored_entry _ _ _ _ _ _ _ _ Hcall H1) as [_ [Hnew _]].
      rewrite (Hnew Hnone). reflexivity.
    + intros e He.
      destruct (e_unlink_ok e) eqn:Hu.
      * rewrite (cache_code_file_present _ _ _ _ _ _ _ e He Hu) in Hcall.
        inversion Hcall; subst. unfold entry_at. simpl.
        split; [apply lookup_insert_eq | reflexivity].
      * rewrite (cache_code_file_refused _ _ _ _ _ _ _ e He Hu) in Hcall.
        discriminate Hcall.
    + intros e1 H1.
      destruct (stored_entry _ _ _ _ _ _ _ _ Hcall H1) as [_ [_ [_ Hu]]].
      unfold entry_at in H1. simpl in H1. unfold at_time. simpl.
      rewrite (cache_code_file_present _ _ _ _ _ _ _ e1 H1 Hu).
      eexists. split; [reflexivity|]. unfold entry_at. simpl.
      split; [apply lookup_insert_eq|]. split; [reflexivity|].
      intros other Hne. apply lookup_insert_ne. auto.
  - intros Hnone Hfit. eexists. split; [apply cache_code_file_fits; assumption|].
    unfold entry_at. simpl. split; [apply lookup_insert_eq | reflexivity].
  - intros Hok Hname. apply cache_code_file_returns; assumption.
Qed.

Lemma cache_code_file_twice_witness :
  (exists w2,
     cache_code_file a_cache (E 1) "python" ".py" (at_time 6 after_store_and_pass) =
       (Ok (Path.str (cache_dir a_cache) (E_name 1)), w2) /\
     entry_at w2 (E_name 1) = Some (touched 6 (Entry Regular (E 1) 5 5 true)) /\
     w_log w2 = w_log after_store_and_pass /\
     forall other, other <> E_name 1 ->
       entry_at w2 other = entry_at after_store_and_pass other) /\
  (exists w1,
     cache_code_file a_cache "print(1)" "python" ".py" (World (Some ∅) 1 []) =
       (Ok (Path.str (cache_dir a_cache) hello_name), w1) /\
     entry_at w1 hello_name = Some (Entry Regular "print(1)" 1 1 true) /\
     w_log w1 =
       [] ++ [CachedFile "python" (hash8 (_compute_hash "print(1)" "python" ".py"))]).
Proof.
  split.
  - apply (proj2 (proj2 (proj2
             (proj1 (cache_code_file_twice a_cache (E 1) "python" ".py"
                       one_old_file 5 6 [] eq_refl)
                (Path.str (cache_dir a_cache) (E_name 1)) after_store_and_pass
                ltac:(vm_compute; reflexivity))))
             (Entry Regular (E 1) 5 5 true)).
    vm_compute. reflexivity.
  - apply (proj1 (proj2 (cache_code_file_twice a_cache "print(1)" "python" ".py"
                           ∅ 1 2 [] eq_refl))).
    + reflexivity.
    + vm_compute. discriminate.
Defined.

(** ** Recency *)

Lemma access_world self code language suffix w p w1 :
  get_cached_file self code language suffix w = (Ok (Some p), w1) \/
  (is_Some (entry_at w (cache_file_name code language suffix)) /\
   cache_code_file self code language suffix w = (Ok p, w1)) ->
  exists d e lg1,
    w_root w = Some d /\
    d !! cache_file_name code language suffix = Some e /\
    w1 = World (Some (<[cache_file_name code language suffix := touched (w_now w) e]> d))
               (w_now w) lg1.
Proof.
  destruct w as [[d|] now lg]; simpl.
  - destruct (d !! cache_file_name code language suffix) as [e|] eqn:He.
    + intros [H|[_ H]].
      * destruct (Z.lt_ge_cases (now - e_mtime e) (ttl_seconds self)) as [Hage|Hage].
        -- destruct (e_unlink_ok e) eqn:Hu.
           ++ rewrite (get_cached_file_hit _ _ _ _ _ _ _ e He Hage Hu) in H.
              inversion H; subst. eexists _, _, _. eauto.
           ++ rewrite (get_cached_file_refused _ _ _ _ _ _ _ e He Hage Hu) in H.
              discriminate H.
        -- rewrite (get_cached_file_expired _ _ _ _ _ _ _ e He Hage) in H.
           destruct (e_kind e); [|discriminate].
           destruct (e_unlink_ok e); discriminate.
      * destruct (e_unlink_ok e) eqn:Hu.
        -- rewrite (cache_code_file_present _ _ _ _ _ _ _ e He Hu) in H.
           inversion H; subst. eexists _, _, _. eauto.
        -- rewrite (cache_code_file_refused _ _ _ _ _ _ _ e He Hu) in H.
           discriminate H.
    + intros [H|[[e H'] _]].
      * rewrite get_cached_file_absent in H by assumption. discriminate.
      * unfold entry_at in H'. simpl in H'. congruence.
  - intros [H|[[e H'] _]]; [|discriminate H'].
    rewrite get_cached_file_no_root in H. discriminate.
Qed.

Lemma evicted_before cache (d : gmap string entry) name other e_n e_o :
  d !! name = Some e_n -> d !! other = Some e_o ->
  is_regular e_o = true -> e_atime e_o < e_atime e_n ->
  forall i, evicted cache d !! i = Some name ->
    exists j, (j < i)%nat /\ evicted cache d !! j = Some other.
Proof.
  intros Hn Ho Hreg Hlt i Hi. unfold evicted in *.
  destruct (total_size d >? max_size_bytes cache); [|discriminate Hi].
  set (k := (cleanup_run cache d).1) in *.
  apply lookup_take_Some in Hi as [Hi Hik].
  rewrite list_lookup_fmap in Hi.
  destruct (eviction_order d !! i) as [[a m]|] eqn:Hoi; [|discriminate Hi].
  simpl in Hi. inversion Hi; subst m.
  assert (Ha : a = e_atime e_n).
  { apply list_elem_of_lookup_2, elem_of_eviction_order in Hoi as [e [He [_ ->]]].
    congruence. }
  subst a.
  assert (Hin : (e_atime e_o, other) ∈ eviction_order d).
  { apply elem_of_eviction_order. exists e_o. auto. }
  apply list_elem_of_lookup in Hin as [j Hj].
  assert (Hji : (j < i)%nat).
  { eapply sorted_index; [apply eviction_order_sorted | exact Hj | exact Hoi | exact Hlt]. }
  exists j. split; [exact Hji|].
  apply lookup_take_Some. split; [|lia].
  rewrite list_lookup_fmap, Hj. reflexivity.
Qed.

(** The least recently accessed file is the first in eviction order. *)
Lemma oldest_is_first (d : gmap string entry) other eo :
  d !! other = Some eo -> is_regular eo = true ->
  (forall m em, d !! m = Some em -> is_regular em = true -> m <> other ->
     e_atime eo < e_atime em) ->
  exists rest, eviction_order d = (e_atime eo, other) :: rest.
Proof.
  intros Ho Hreg Hold.
  assert (Hin : (e_atime eo, other) ∈ eviction_order d).
  { apply elem_of_eviction_order. exists eo. auto. }
  apply list_elem_of_lookup in Hin as [i Hi].
  destruct i as [|i].
  - destruct (eviction_order d) as [|x rest]; [discriminate Hi|].
    simpl in Hi. inversion Hi. exists rest. reflexivity.
  - exfalso.
    destruct (lookup_lt_is_Some_2 (eviction_order d) 0) as [[b m] H0].
    { apply lookup_lt_Some in Hi. lia. }
    assert (Hm : m <> other).
    { intros ->.
      assert (Hsame : 0%nat = S i).
      { eapply (NoDup_lookup _ _ _ other (NoDup_eviction_order d));
          rewrite list_lookup_fmap; [rewrite H0 | rewrite Hi]; reflexivity. }
      discriminate Hsame. }
    pose proof (list_elem_of_lookup_2 _ _ _ H0) as Hin.
    apply elem_of_eviction_order in Hin as [em [Hem [Hregm ->]]].
    pose proof (Hold m em Hem Hregm Hm) as Hlt.
    assert (S i < 0)%nat; [|lia].
    eapply sorted_index; [apply eviction_order_sorted | exact Hi | exact H0 | exact Hlt].
Qed.

Lemma evict_run_stop target d cf current :
  Float.int_le current target = true -> evict_run target d cf current = (0%nat, Ok tt).
Proof. intros H. destruct cf as [|[a n] cf]; simpl; [|rewrite H]; reflexivity. Qed.

(** A pass that has to evict removes the least recently accessed file,
    and nothing else when that brings the size within the target. *)
Lemma pass_removes_oldest cache (d : gmap string entry) other eo now lg :
  0 <= max_size_bytes cache <= 2 ^ 49 ->
  max_size_bytes cache < total_size d ->
  d !! other = Some eo -> is_regular eo = true -> e_unlink_ok eo = true ->
  (forall m em, d !! m = Some em -> is_regular em = true -> m <> other ->
     e_atime eo < e_atime em) ->
  5 * (total_size d - st_size eo) <= 4 * max_size_bytes cache ->
  _cleanup_if_needed cache (World (Some d) now lg) =
  (Ok tt,
   World (Some (delete other d)) now
         (lg ++ [SizeExceeds (total_size d); RemovedEntry other])).
Proof.
  intros Hmax Hgt Ho Hreg Hu Hold Hleft.
  destruct (oldest_is_first d other eo Ho Hreg Hold) as [rest Horder].
  assert (Hover : Float.int_le (total_size d) (cleanup_target cache) = false).
  { destruct (Float.int_le (total_size d) (cleanup_target cache)) eqn:Hle; [|reflexivity].
    apply Float_facts.target_exact in Hle; [lia | exact Hmax]. }
  assert (Hwithin : Float.int_le (total_size d - st_size eo) (cleanup_target cache) = true).
  { apply Float_facts.target_exact; [exact Hmax | exact Hleft]. }
  assert (Hk : e_kind eo = Regular).
  { unfold is_regular in Hreg. destruct (e_kind eo); [reflexivity | discriminate Hreg]. }
  assert (Hrun : cleanup_run cache d = (1%nat, Ok tt)).
  { unfold cleanup_run. rewrite Horder. simpl.
    rewrite Hover, Ho, Hk, Hu.
    rewrite (evict_run_stop _ _ _ _ Hwithin). reflexivity. }
  rewrite cleanup_eq. unfold evicted.
  assert (Hb : (total_size d >? max_size_bytes cache) = true) by (apply Z.gtb_lt; lia).
  rewrite Hb, Hrun, Horder. reflexivity.
Qed.

(** C9. A hit of [get_cached_file] and a [cache_code_file] call on an
    existing entry both set the entry's [st_atime] to the current time.
    If another regular file was last accessed strictly before that time,
    then in a later eviction pass the accessed entry is removed only
    after the other one: the other one's removal is logged first, and
    whenever the accessed entry is gone after the pass, so is the other.
    When that other file is the least recently accessed one and the pass
    has to evict, the pass removes it, and when this brings the size
    within the target it removes nothing else: the file that was not
    accessed is gone and the accessed entry stays as the access left
    it. *)
Theorem access_refreshes_recency (self cache : CodeCache)
    (code language suffix : string) (w w1 w2 : world) (p other : string)
    (eo : entry) (now' : Z) (r : result unit) :
  let name := cache_file_name code language suffix in
  (get_cached_file self code language suffix w = (Ok (Some p), w1) \/
   (is_Some (entry_at w name) /\
    cache_code_file self code language suffix w = (Ok p, w1))) ->
  other <> name ->
  entry_at w other = Some eo ->
  is_regular eo = true ->
  e_atime eo < w_now w ->
  _cleanup_if_needed cache (at_time now' w1) = (r, w2) ->
  (exists e1, entry_at w1 name = Some e1 /\ e_atime e1 = w_now w) /\
  entry_at w1 other = Some eo /\
  (entry_at w2 name = None -> entry_at w2 other = None) /\
  (forall i,
     drop (length (w_log w1)) (w_log w2) !! i = Some (RemovedEntry name) ->
     exists j, (j < i)%nat /\
       drop (length (w_log w1)) (w_log w2) !! j = Some (RemovedEntry other)) /\
  (forall d1,
     w_root w1 = Some d1 ->
     0 <= max_size_bytes cache <= 2 ^ 49 ->
     max_size_bytes cache < total_size d1 ->
     e_unlink_ok eo = true ->
     (forall m em, d1 !! m = Some em -> is_regular em = true -> m <> other ->
        e_atime eo < e_atime em) ->
     5 * (total_size d1 - st_size eo) <= 4 * max_size_bytes cache ->
     r = Ok tt /\
     entry_at w2 other = None /\
     entry_at w2 name = entry_at w1 name /\
     drop (length (w_log w1)) (w_log w2) =
       [SizeExceeds (total_size d1); RemovedEntry other]).
Proof.
  intros name Hacc Hne Ho Hreg Hlt Hpass. subst name.
  apply access_world in Hacc as [d [e [lg1 [Hd [He ->]]]]].
  unfold entry_at in *. rewrite Hd in Ho. simpl in Ho.
  set (name := cache_file_name code language suffix) in *.
  set (d1 := <[name := touched (w_now w) e]> d) in *.
  assert (Hn1 : d1 !! name = Some (touched (w_now w) e)) by apply lookup_insert_eq.
  assert (Ho1 : d1 !! other = Some eo).
  { unfold d1. rewrite lookup_insert_ne by auto. exact Ho. }
  unfold at_time in Hpass. simpl in Hpass.
  pose proof Hpass as Hrun.
  apply cleanup_world in Hpass. subst w2. simpl.
  pose proof (evicted_before cache d1 name other _ eo Hn1 Ho1 Hreg Hlt) as Hbefore.
  split; [eexists; split; [exact Hn1|reflexivity]|].
  split; [exact Ho1|]. split; [|split].
  - intros Hgone. unfold remove_names in *.
    destruct (decide (name ∈ evicted cache d1)) as [Hin|Hnin].
    + apply list_elem_of_lookup in Hin as [i Hi].
      destruct (Hbefore i Hi) as [j [_ Hj]].
      apply list_elem_of_lookup_2 in Hj.
      destruct (foldr delete d1 (evicted cache d1) !! other) as [x|] eqn:Hx;
        [|reflexivity].
      apply lookup_foldr_delete_Some in Hx as [Hx _]. contradiction.
    + rewrite lookup_foldr_delete_not_elem_of in Hgone by exact Hnin. congruence.
  - rewrite drop_app_length. unfold pass_log.
    destruct (total_size d1 >? max_size_bytes cache); [|intros i Hi; discriminate Hi].
    intros [|i] Hi; [discriminate Hi|]. simpl in Hi.
    rewrite list_lookup_fmap in Hi.
    destruct (evicted cache d1 !! i) as [m|] eqn:Hm; [|discriminate Hi].
    simpl in Hi. inversion Hi; subst m.
    destruct (Hbefore i Hm) as [j [Hji Hj]].
    exists (S j). split; [lia|]. simpl. rewrite list_lookup_fmap, Hj. reflexivity.
  - intros d1' Hd1 Hmax Hgt Hu Hold Hleft. inversion Hd1; subst d1'.
    rewrite (pass_removes_oldest cache d1 other eo now' lg1
               Hmax Hgt Ho1 Hreg Hu Hold Hleft) in Hrun.
    injection Hrun as Hr Hroot Hlog.
    split; [symmetry; exact Hr|].
    rewrite <- Hroot. split; [apply lookup_delete_eq|].
    split; [apply lookup_delete_ne; exact Hne|].
    rewrite <- Hlog, drop_app_length. reflexivity.
Qed.

Lemma after_hit_oldest :
  forall m em,
    (<[hello_name := touched 5 (Entry Regular "print(1)" 0 0 true)]> two_files) !! m =
      Some em ->
    is_regular em = true -> m <> "b.py" ->
    e_atime (Entry Regular (rep "b" 500) 2 2 true) < e_atime em.
Proof.
  change (map_Forall (fun m em => is_regular em = true -> m <> "b.py" ->
                        e_atime (Entry Regular (rep "b" 500) 2 2 true) < e_atime em)
            (<[hello_name := touched 5 (Entry Regular "print(1)" 0 0 true)]> two_files)).
  apply (bool_decide_unpack _). vm_compute. reflexivity.
Defined.

Lemma access_refreshes_recency_witness :
  (exists e1, entry_at after_hit hello_name = Some e1 /\ e_atime e1 = 5) /\
  entry_at after_hit "b.py" = Some (Entry Regular (rep "b" 500) 2 2 true) /\
  (entry_at after_hit_and_pass hello_name = None ->
   entry_at after_hit_and_pass "b.py" = None) /\
  (forall i,
     drop (length (w_log after_hit)) (w_log after_hit_and_pass) !! i =
       Some (RemovedEntry hello_name) ->
     exists j, (j < i)%nat /\
       drop (length (w_log after_hit)) (w_log after_hit_and_pass) !! j =
         Some (RemovedEntry "b.py")) /\
  (Ok tt = Ok tt /\
   entry_at after_hit_and_pass "b.py" = None /\
   entry_at after_hit_and_pass hello_name = entry_at after_hit hello_name /\
   drop (length (w_log after_hit)) (w_log after_hit_and_pass) =
     [SizeExceeds
        (total_size
           (<[hello_name := touched 5 (Entry Regular "print(1)" 0 0 true)]> two_files));
      RemovedEntry "b.py"]).
Proof.
  destruct (access_refreshes_recency a_cache tiny_cache "print(1)" "python" ".py"
              (World (Some two_files) 5 []) after_hit after_hit_and_pass
              (Path.str "/c" hello_name) "b.py"
              (Entry Regular (rep "b" 500) 2 2 true) 6 (Ok tt))
    as [H1 [H2 [H3 [H4 H5]]]].
  - left. vm_compute. reflexivity.
  - intros H. vm_compute in H. discriminate H.
  - vm_compute. reflexivity.
  - reflexivity.
  - simpl. lia.
  - vm_compute. reflexivity.
  - split; [exact H1|]. split; [exact H2|]. split; [exact H3|]. split; [exact H4|].
    apply (H5 (<[hello_name := touched 5 (Entry Regular "print(1)" 0 0 true)]> two_files)).
    + vm_compute. reflexivity.
    + vm_compute. split; discriminate.
    + vm_compute. reflexivity.
    + reflexivity.
    + exact after_hit_oldest.
    + vm_compute. discriminate.
Defined.

Example pass_after_hit :
  entry_at after_hit_and_pass "b.py" = None /\
  entry_at after_hit_and_pass hello_name = Some (Entry Regular "print(1)" 5 5 true).
Proof. vm_compute. split; reflexivity. Qed.

(** The access has to come strictly after the other file's last access:
    with equal timestamps the order of removal is the order of the
    paths. *)
Example same_time_falls_back_to_path :
  w_log (_cleanup_if_needed tiny_cache
           (get_cached_file a_cache "print(1)" "python" ".py"
              (World (Some two_files) 2 [])).2).2 =
    [ CacheHit "python" (hash8 hello_name); SizeExceeds 508;
      RemovedEntry hello_name; RemovedEntry "b.py" ].
Proof. vm_compute. reflexivity. Qed.

(** ** A time-to-live of zero or less *)

Lemma unlinkable_delete d n : unlinkable d -> unlinkable (delete n d).
Proof.
  intros H m e Hm Hreg. apply lookup_delete_Some in Hm as [_ Hm].
  eapply H; eassumption.
Qed.

Lemma expired_lookup self code language suffix w :
  ttl_seconds self <= 0 ->
  (forall e, entry_at w (cache_file_name code language suffix) = Some e ->
     e_mtime e <= w_now w) ->
  forall r w1,
    get_cached_file self code language suffix w = (r, w1) ->
    (exists ex, r = Raise ex) \/
    (r = Ok None /\
     entry_at w1 (cache_file_name code language suffix) = None /\
     w_now w1 = w_now w /\
     exists l0, w_log w1 = w_log w ++ l0).
Proof.
  intros Httl Hm r w1. destruct w as [[d|] now lg]; unfold entry_at in *; simpl in *.
  - destruct (d !! cache_file_name code language suffix) as [e|] eqn:He.
    + assert (Hage : ttl_seconds self <= now - e_mtime e).
      { specialize (Hm e eq_refl). lia. }
      rewrite (get_cached_file_expired _ _ _ _ _ _ _ e He Hage).
      destruct (e_kind e); [|intros H; inversion H; left; eexists; reflexivity].
      destruct (e_unlink_ok e); intros H; inversion H.
      * right. split; [reflexivity|]. split; [apply lookup_delete_eq|].
        split; [reflexivity|]. eexists. reflexivity.
      * left. eexists. reflexivity.
    + rewrite get_cached_file_absent by exact He. intros H; inversion H; subst.
      right. split; [reflexivity|]. split; [exact He|]. split; [reflexivity|].
      exists []. symmetry. apply app_nil_r.
  - rewrite get_cached_file_no_root. intros H; inversion H.
    right. split; [reflexivity|]. split; [reflexivity|]. split; [reflexivity|].
    exists []. symmetry. apply app_nil_r.
Qed.

Lemma store_absent_log self code language suffix w1 p w' :
  entry_at w1 (cache_file_name code language suffix) = None ->
  cache_code_file self code language suffix w1 = (Ok p, w') ->
  exists l,
    w_log w' =
    w_log w1 ++
      CachedFile language (hash8 (_compute_hash code language suffix)) :: l.
Proof.
  destruct w1 as [[d|] now lg]; unfold entry_at; simpl; intros Hnone.
  - rewrite cache_code_file_absent by exact Hnone.
    destruct (_cleanup_if_needed _ _) as [[[]|ex] w2] eqn:Hpass; intros H; inversion H.
    subst. apply cleanup_world in Hpass. subst w'. simpl.
    eexists. rewrite <- app_assoc. reflexivity.
  - rewrite cache_code_file_no_root. discriminate.
Qed.

(** C10. With [ttl_seconds <= 0], a suffix that keeps the derived name
    one path component and a file that was not modified in the future,
    [get_cached_file] never returns a path: a regular file at the derived
    path that the process may remove is unlinked and [None] is returned.
    So [get_or_cache], whenever it returns, returns the derived path with
    [was_cached = False] and has written the file in that call: the
    write is logged and what is at the derived path afterwards, if the
    pass of that call has not removed it, is the file written at the time
    of the call.  It does return when the cache directory exists and its
    files may be unlinked, and the file it wrote is there when the size
    stays within the ceiling. *)
Theorem nonpositive_ttl_never_hits (self : CodeCache) (code language suffix : string)
    (w : world) :
  let name := cache_file_name code language suffix in
  plain_suffix suffix = true ->
  ttl_seconds self <= 0 ->
  (forall e, entry_at w name = Some e -> e_mtime e <= w_now w) ->
  (forall p w', get_cached_file self code language suffix w <> (Ok (Some p), w')) /\
  (forall e,
     entry_at w name = Some e -> e_kind e = Regular -> e_unlink_ok e = true ->
     exists w',
       get_cached_file self code language suffix w = (Ok None, w') /\
       entry_at w' name = None) /\
  (forall p b w',
     get_or_cache self code language suffix w = (Ok (p, b), w') ->
     b = false /\
     p = Path.str (cache_dir self) name /\
     (exists lg',
        w_log w' = w_log w ++ lg' /\
        CachedFile language (hash8 (_compute_hash code language suffix)) ∈ lg') /\
     (entry_at w' name = None \/
      entry_at w' name = Some (Entry Regular code (w_now w) (w_now w) true))) /\
  (forall d,
     w_root w = Some d -> unlinkable d ->
     (forall e, d !! name = Some e -> e_kind e = Regular) ->
     exists w',
       get_or_cache self code language suffix w =
       (Ok (Path.str (cache_dir self) name, false), w') /\
       (total_size (delete name d) + Z.of_nat (String.length code)
          <= max_size_bytes self ->
        entry_at w' name = Some (Entry Regular code (w_now w) (w_now w) true) /\
        forall other, other <> name -> entry_at w' other = entry_at w other)).
Proof.
  intros name _ Httl Hm. subst name.
  pose proof (expired_lookup self code language suffix w Httl Hm) as Hlook.
  split; [|split; [|split]].
  - intros p w' H. destruct (Hlook _ _ H) as [[ex Hex]|[Hr _]]; discriminate.
  - intros e He Hk Hu.
    destruct (get_cached_file self code language suffix w) as [r w1] eqn:Hget.
    destruct (Hlook _ _ eq_refl) as [[ex ->]|[-> [Hgone _]]].
    + exfalso. destruct w as [[d|] now lg]; unfold entry_at in He; simpl in He;
        [|discriminate He].
      assert (Hage : ttl_seconds self <= now - e_mtime e).
      { specialize (Hm e He). simpl in Hm. lia. }
      rewrite (get_cached_file_expired _ _ _ _ _ _ _ e He Hage), Hk, Hu in Hget.
      discriminate Hget.
    + exists w1. split; [reflexivity | exact Hgone].
  - intros p b w'. rewrite get_or_cache_eq.
    destruct (get_cached_file self code language suffix w) as [r w1] eqn:Hget.
    destruct (Hlook _ _ eq_refl) as [[ex ->]|[-> [Hgone [Hnow [l0 Hl0]]]]];
      [discriminate|].
    destruct (cache_code_file self code language suffix w1) as [[q|ex] w2] eqn:Hst;
      [|discriminate].
    intros H. inversion H; subst. split; [reflexivity|].
    split; [eapply cache_code_file_path; exact Hst|]. split.
    + destruct (store_absent_log _ _ _ _ _ _ _ Hgone Hst) as [l Hl].
      exists (l0 ++ CachedFile language (hash8 (_compute_hash code language suffix)) :: l).
      split.
      * rewrite Hl, Hl0, <- app_assoc. reflexivity.
      * apply elem_of_app. right. left.
    + destruct (entry_at w' (cache_file_name code language suffix)) as [e1|] eqn:H1;
        [right|left; reflexivity].
      destruct (stored_entry _ _ _ _ _ _ _ _ Hst H1) as [_ [Hnew _]].
      rewrite (Hnew Hgone), Hnow. reflexivity.
  - intros d Hd Hok Hk. rewrite get_or_cache_eq.
    destruct w as [[d'|] now lg]; simpl in Hd; inversion Hd; subst d'.
    assert (Hstore : forall lg0,
              exists w',
                cache_code_file self code language suffix
                  (World (Some (delete (cache_file_name code language suffix) d)) now lg0) =
                (Ok (Path.str (cache_dir self) (cache_file_name code language suffix)), w') /\
                (total_size (delete (cache_file_name code language suffix) d) +
                   Z.of_nat (String.length code) <= max_size_bytes self ->
                 entry_at w' (cache_file_name code language suffix) =
                   Some (Entry Regular code now now true) /\
                 forall other, other <> cache_file_name code language suffix ->
                   entry_at w' other = d !! other)).
    { intros lg0.
      destruct (Z.le_gt_cases
                  (total_size (delete (cache_file_name code language suffix) d) +
                     Z.of_nat (String.length code)) (max_size_bytes self)) as [Hfit|Hbig].
      - rewrite cache_code_file_fits; [|apply lookup_delete_eq|exact Hfit].
        eexists. split; [reflexivity|]. intros _. unfold entry_at. simpl.
        split; [apply lookup_insert_eq|].
        intros other Hne. rewrite lookup_insert_ne, lookup_delete_ne by auto.
        reflexivity.
      - destruct (cache_code_file_returns self code language suffix
                    (delete (cache_file_name code language suffix) d) now lg0)
          as [w' Hst].
        + apply unlinkable_delete, Hok.
        + intros e He. rewrite lookup_delete_eq in He. discriminate He.
        + exists w'. split; [exact Hst|]. intros Hfit. lia. }
    simpl.
    destruct (d !! cache_file_name code language suffix) as [e|] eqn:He.
    + assert (Hage : ttl_seconds self <= now - e_mtime e).
      { specialize (Hm e He). simpl in Hm. lia. }
      rewrite (get_cached_file_expired _ _ _ _ _ _ _ e He Hage), (Hk e eq_refl).
      assert (Hu : e_unlink_ok e = true).
      { apply (Hok _ e He). unfold is_regular. rewrite (Hk e eq_refl). reflexivity. }
      rewrite Hu.
      destruct (Hstore (lg ++ [CacheExpired (hash8 (_compute_hash code language suffix))]))
        as [w' [-> Hentry]].
      exists w'. split; [reflexivity | exact Hentry].
    + rewrite get_cached_file_absent by exact He.
      destruct (Hstore lg) as [w' [Hst Hentry]].
      rewrite (delete_id d (cache_file_name code language suffix) He) in Hst at 1.
      rewrite Hst. exists w'. split; [reflexivity | exact Hentry].
Qed.

Lemma hello_dir_unlinkable :
  unlinkable {[ hello_name := Entry Regular "print(1)" 0 0 true ]}.
Proof.
  change (map_Forall (fun _ e => is_regular e = true -> e_unlink_ok e = true)
            ({[ hello_name := Entry Regular "print(1)" 0 0 true ]} : gmap string entry)).
  apply (bool_decide_unpack _). vm_compute. reflexivity.
Defined.

Lemma hello_dir_regular :
  forall e,
    ({[ hello_name := Entry Regular "print(1)" 0 0 true ]} : gmap string entry)
      !! hello_name = Some e ->
    e_kind e = Regular.
Proof. intros e H. rewrite lookup_singleton_eq in H. inversion H. reflexivity. Defined.

Lemma nonpositive_ttl_never_hits_witness :
  (forall p w',
     get_cached_file zero_ttl_cache "print(1)" "python" ".py" (hello_world 0 5) <>
     (Ok (Some p), w')) /\
  (exists w',
     get_cached_file zero_ttl_cache "print(1)" "python" ".py" (hello_world 0 5) =
       (Ok None, w') /\
     entry_at w' hello_name = None) /\
  (exists w',
     get_or_cache zero_ttl_cache "print(1)" "python" ".py" (hello_world 0 5) =
     (Ok (Path.str (cache_dir zero_ttl_cache) hello_name, false), w') /\
     entry_at w' hello_name = Some (Entry Regular "print(1)" 5 5 true) /\
     forall other, other <> hello_name ->
       entry_at w' other = entry_at (hello_world 0 5) other).
Proof.
  destruct (nonpositive_ttl_never_hits zero_ttl_cache "print(1)" "python" ".py"
              (hello_world 0 5) eq_refl)
    as [H1 [H2 [_ H4]]].
  - simpl. lia.
  - intros e H. vm_compute in H. inversion H. simpl. lia.
  - split; [exact H1|]. split.
    + apply (H2 (Entry Regular "print(1)" 0 0 true)).
      * vm_compute. reflexivity.
      * reflexivity.
      * reflexivity.
    + destruct (H4 {[ hello_name := Entry Regular "print(1)" 0 0 true ]} eq_refl
                  hello_dir_unlinkable hello_dir_regular) as [w' [Hcall Hentry]].
      exists w'. split; [exact Hcall|]. apply Hentry. vm_compute. discriminate.
Defined.

Example zero_ttl_rewrites :
  (get_or_cache zero_ttl_cache "print(1)" "python" ".py" (hello_world 0 5)).1 =
    Ok (Path.str "/c" hello_name, false) /\
  w_log (get_or_cache zero_ttl_cache "print(1)" "python" ".py" (hello_world 0 5)).2 =
    [ CacheExpired (hash8 hello_name); CachedFile "python" (hash8 hello_name) ] /\
  entry_at (get_or_cache zero_ttl_cache "print(1)" "python" ".py" (hello_world 0 5)).2
    hello_name = Some (Entry Regular "print(1)" 5 5 true).
Proof. vm_compute. repeat split; reflexivity. Qed.

(** The bound on [st_mtime] is needed: a file modified "in the future"
    has a negative age, which is below a time-to-live of zero. *)
Example future_mtime_hits :
  (get_cached_file zero_ttl_cache "print(1)" "python" ".py" (hello_world 10 5)).1 =
    Ok (Some (Path.str "/c" hello_name)).
Proof. vm_compute. reflexivity. Qed.

(** * Further properties *)

(** ** Store, then look up *)

(** X1. A lookup that follows a store of the same triple is a hit as long
    as the file is still there and less than [ttl_seconds] have passed
    since the store: it returns the path the store returned, keeps the
    content and sets both timestamps to the time of the lookup. *)
Theorem lookup_after_store_hits (self : CodeCache) (code language suffix : string)
    (w w1 : world) (p : string) (e : entry) (now' : Z) :
  let name := cache_file_name code language suffix in
  cache_code_file self code language suffix w = (Ok p, w1) ->
  entry_at w1 name = Some e ->
  now' - w_now w < ttl_seconds self ->
  exists w2,
    get_cached_file self code language suffix (at_time now' w1) = (Ok (Some p), w2) /\
    entry_at w2 name = Some (touched now' e) /\
    (entry_at w name = None -> e_content e = code) /\
    forall other, other <> name -> entry_at w2 other = entry_at w1 other.
Proof.
  intros name Hstore He Hage. subst name.
  destruct (stored_entry _ _ _ _ _ _ _ _ Hstore He) as [Hnow [Hnew [Hold Hu]]].
  assert (Hp := cache_code_file_path _ _ _ _ _ _ _ Hstore). subst p.
  assert (Hm : e_mtime e = w_now w).
  { destruct (entry_at w (cache_file_name code language suffix)) as [e0|] eqn:H0.
    - rewrite (proj1 (Hold e0 eq_refl)). reflexivity.
    - rewrite (Hnew eq_refl). reflexivity. }
  destruct w1 as [[d1|] now1 lg1]; unfold entry_at in *; simpl in *; [|discriminate He].
  unfold at_time. simpl.
  eexists. split; [|split; [|split]].
  - apply get_cached_file_hit; [exact He| |exact Hu]. rewrite Hm. exact Hage.
  - simpl. apply lookup_insert_eq.
  - intros Hnone. rewrite (Hnew Hnone). reflexivity.
  - intros other Hne. simpl. apply lookup_insert_ne. auto.
Qed.

Lemma lookup_after_store_hits_witness :
  exists w2,
    get_cached_file a_cache "print(1)" "python" ".py" (at_time 7 after_hello_store) =
      (Ok (Some (Path.str "/c" hello_name)), w2) /\
    entry_at w2 hello_name = Some (touched 7 (Entry Regular "print(1)" 5 5 true)) /\
    (entry_at (World (Some ∅) 5 []) hello_name = None ->
     e_content (Entry Regular "print(1)" 5 5 true) = "print(1)") /\
    forall other, other <> hello_name ->
      entry_at w2 other = entry_at after_hello_store other.
Proof.
  apply (lookup_after_store_hits a_cache "print(1)" "python" ".py"
           (World (Some ∅) 5 []) after_hello_store (Path.str "/c" hello_name)
           (Entry Regular "print(1)" 5 5 true) 7).
  - vm_compute. reflexivity.
  - vm_compute. reflexivity.
  - simpl. lia.
Defined.

(** X2. A lookup that comes [ttl_seconds] or more after the store of a
    new file finds the file expired: it returns [None] and the file is
    gone afterwards. *)
Theorem lookup_after_ttl_misses (self : CodeCache) (code language suffix : string)
    (w w1 : world) (p : string) (now' : Z) :
  let name := cache_file_name code language suffix in
  entry_at w name = None ->
  cache_code_file self code language suffix w = (Ok p, w1) ->
  is_Some (entry_at w1 name) ->
  ttl_seconds self <= now' - w_now w ->
  exists w2,
    get_cached_file self code language suffix (at_time now' w1) = (Ok None, w2) /\
    entry_at w2 name = None /\
    forall other, other <> name -> entry_at w2 other = entry_at w1 other.
Proof.
  intros name Hnone Hstore [e He] Hage. subst name.
  destruct (stored_entry _ _ _ _ _ _ _ _ Hstore He) as [Hnow [Hnew _]].
  specialize (Hnew Hnone). subst e.
  destruct w1 as [[d1|] now1 lg1]; unfold entry_at in *; simpl in *; [|discriminate He].
  unfold at_time. simpl.
  eexists. split; [|split].
  - rewrite (get_cached_file_expired _ _ _ _ _ _ _ _ He); [reflexivity|].
    simpl. exact Hage.
  - simpl. apply lookup_delete_eq.
  - intros other Hne. simpl. apply lookup_delete_ne. auto.
Qed.

Lemma lookup_after_ttl_misses_witness :
  exists w2,
    get_cached_file a_cache "print(1)" "python" ".py"
      (at_time 86405 after_hello_store) = (Ok None, w2) /\
    entry_at w2 hello_name = None /\
    forall other, other <> hello_name ->
      entry_at w2 other = entry_at after_hello_store other.
Proof.
  apply (lookup_after_ttl_misses a_cache "print(1)" "python" ".py"
           (World (Some ∅) 5 []) after_hello_store (Path.str "/c" hello_name) 86405).
  - reflexivity.
  - vm_compute. reflexivity.
  - exists (Entry Regular "print(1)" 5 5 true). vm_compute. reflexivity.
  - simpl. lia.
Defined.

Lemma get_cached_file_none_absent self code language suffix w :
  entry_at w (cache_file_name code language suffix) = None ->
  get_cached_file self code language suffix w = (Ok None, w).
Proof.
  destruct w as [[d|] now lg]; unfold entry_at; simpl; intros H.
  - apply get_cached_file_absent. exact H.
  - apply get_cached_file_no_root.
Qed.

(** X3. Two [get_or_cache] calls for a triple that is not cached yet: the
    first one writes the file and reports [was_cached = False]; if the
    file is still there and less than [ttl_seconds] have passed, the
    second one returns the same path with [was_cached = True], writes
    nothing and only logs the hit. *)
Theorem get_or_cache_miss_then_hit (self : CodeCache) (code language suffix : string)
    (w w1 : world) (p : string) (b : bool) (now' : Z) :
  let name := cache_file_name code language suffix in
  entry_at w name = None ->
  get_or_cache self code language suffix w = (Ok (p, b), w1) ->
  is_Some (entry_at w1 name) ->
  now' - w_now w < ttl_seconds self ->
  b = false /\
  exists w2,
    get_or_cache self code language suffix (at_time now' w1) = (Ok (p, true), w2) /\
    entry_at w2 name = Some (Entry Regular code now' now' true) /\
    w_log w2 =
      w_log w1 ++ [CacheHit language (hash8 (_compute_hash code language suffix))].
Proof.
  intros name Hnone Hfirst [e He] Hage. subst name.
  rewrite get_or_cache_eq, (get_cached_file_none_absent _ _ _ _ _ Hnone) in Hfirst.
  destruct (cache_code_file self code language suffix w) as [[q|ex] w'] eqn:Hstore;
    inversion Hfirst; subst.
  split; [reflexivity|].
  destruct (stored_entry _ _ _ _ _ _ _ _ Hstore He) as [Hnow [Hnew _]].
  specialize (Hnew Hnone). subst e.
  assert (Hp := cache_code_file_path _ _ _ _ _ _ _ Hstore). subst p.
  destruct w1 as [[d1|] now1 lg1]; unfold entry_at in *; simpl in *; [|discriminate He].
  unfold at_time. simpl.
  rewrite get_or_cache_eq.
  rewrite (get_cached_file_hit _ _ _ _ _ _ _ _ He)
    by (simpl; first [exact Hage | reflexivity]).
  eexists. split; [reflexivity|]. split; [|reflexivity].
  simpl. apply lookup_insert_eq.
Qed.

Lemma get_or_cache_miss_then_hit_witness :
  false = false /\
  exists w2,
    get_or_cache a_cache "print(1)" "python" ".py" (at_time 7 after_hello_store) =
      (Ok (Path.str "/c" hello_name, true), w2) /\
    entry_at w2 hello_name = Some (Entry Regular "print(1)" 7 7 true) /\
    w_log w2 =
      w_log after_hello_store ++
        [CacheHit "python" (hash8 (_compute_hash "print(1)" "python" ".py"))].
Proof.
  apply (get_or_cache_miss_then_hit a_cache "print(1)" "python" ".py"
           (World (Some ∅) 5 []) after_hello_store (Path.str "/c" hello_name) false 7).
  - reflexivity.
  - vm_compute. reflexivity.
  - exists (Entry Regular "print(1)" 5 5 true). vm_compute. reflexivity.
  - simpl. lia.
Defined.

(** ** What a pass removes and what it leaves *)

Lemma elem_of_evicted cache d n :
  n ∈ evicted cache d ->
  exists e i,
    d !! n = Some e /\ is_regular e = true /\
    eviction_order d !! i = Some (e_atime e, n) /\
    (i < length (evicted cache d))%nat.
Proof.
  unfold evicted. destruct (total_size d >? max_size_bytes cache);
    [|intros H; apply elem_of_nil in H; contradiction].
  intros H. apply elem_of_take in H as [i [Hi Hik]].
  rewrite list_lookup_fmap in Hi.
  destruct (eviction_order d !! i) as [[a m]|] eqn:Hoi; [|discriminate Hi].
  simpl in Hi. inversion Hi; subst m.
  pose proof (list_elem_of_lookup_2 _ _ _ Hoi) as Hin.
  apply elem_of_eviction_order in Hin as [e [He [Hreg ->]]].
  exists e, i. split; [exact He|]. split; [exact Hreg|]. split; [exact Hoi|].
  rewrite length_take. apply lookup_lt_Some in Hoi. rewrite length_fmap. lia.
Qed.

Lemma evicted_is_prefix cache d :
  exists k, evicted cache d = take k (eviction_order d).*2.
Proof.
  unfold evicted. destruct (total_size d >? max_size_bytes cache).
  - eexists. reflexivity.
  - exists 0%nat. reflexivity.
Qed.

(** X4. Whatever way a pass ends, it only removes regular files: every
    entry left was there before, unchanged; an entry that is gone was a
    regular file and its removal is in the log; sub-directories stay; and
    the cache directory itself stays. *)
Theorem cleanup_only_removes_files (cache : CodeCache) (d : gmap string entry)
    (now : Z) (lg : list event) (r : result unit) (w2 : world) :
  _cleanup_if_needed cache (World (Some d) now lg) = (r, w2) ->
  exists d2,
    w_root w2 = Some d2 /\
    (forall n e, d2 !! n = Some e -> d !! n = Some e) /\
    (forall n e, d !! n = Some e -> d2 !! n = None ->
       is_regular e = true /\ RemovedEntry n ∈ w_log w2) /\
    (forall n e, d !! n = Some e -> is_regular e = false -> d2 !! n = Some e).
Proof.
  intros Hpass. apply cleanup_world in Hpass. subst w2. simpl.
  eexists. split; [reflexivity|].
  assert (Hgone : forall n e, d !! n = Some e ->
            remove_names (evicted cache d) d !! n = None -> n ∈ evicted cache d).
  { intros n e He Hn. destruct (decide (n ∈ evicted cache d)) as [Hin|Hnin]; [exact Hin|].
    unfold remove_names in Hn.
    rewrite lookup_foldr_delete_not_elem_of in Hn by exact Hnin. congruence. }
  split; [|split].
  - intros n e Hn. apply lookup_foldr_delete_Some in Hn as [_ Hn]. exact Hn.
  - intros n e He Hn. pose proof (Hgone n e He Hn) as Hin.
    destruct (elem_of_evicted _ _ _ Hin) as [e' [i [He' [Hreg _]]]].
    rewrite He in He'. inversion He'; subst e'. split; [exact Hreg|].
    apply elem_of_app. right. unfold pass_log.
    destruct (total_size d >? max_size_bytes cache) eqn:Hgt.
    + right. apply list_elem_of_fmap. exists n. split; [reflexivity | exact Hin].
    + unfold evicted in Hin. rewrite Hgt in Hin. apply elem_of_nil in Hin. contradiction.
  - intros n e He Hreg.
    destruct (remove_names (evicted cache d) d !! n) as [e2|] eqn:Hn.
    + apply lookup_foldr_delete_Some in Hn as [_ Hn]. congruence.
    + pose proof (Hgone n e He Hn) as Hin.
      destruct (elem_of_evicted _ _ _ Hin) as [e' [i [He' [Hreg' _]]]].
      congruence.
Qed.

Lemma cleanup_only_removes_files_witness :
  exists d2,
    w_root (_cleanup_if_needed a_cache (World (Some (three_files true true)) 9 [])).2 =
      Some d2 /\
    (forall n e, d2 !! n = Some e -> three_files true true !! n = Some e) /\
    (forall n e, three_files true true !! n = Some e -> d2 !! n = None ->
       is_regular e = true /\
       RemovedEntry n ∈
         w_log (_cleanup_if_needed a_cache (World (Some (three_files true true)) 9 [])).2) /\
    (forall n e, three_files true true !! n = Some e -> is_regular e = false ->
       d2 !! n = Some e).
Proof.
  apply (cleanup_only_removes_files a_cache (three_files true true) 9 []
           (_cleanup_if_needed a_cache (World (Some (three_files true true)) 9 [])).1).
  destruct (_cleanup_if_needed a_cache (World (Some (three_files true true)) 9 []));
    reflexivity.
Defined.

(** X5. A pass evicts least recently used files first: whatever way it
    ends, no regular file that it leaves was last accessed strictly
    before a file that it removed. *)
Theorem cleanup_removes_oldest_first (cache : CodeCache) (d : gmap string entry)
    (now : Z) (lg : list event) (r : result unit) (w2 : world)
    (gone kept : string) (e_gone e_kept : entry) :
  _cleanup_if_needed cache (World (Some d) now lg) = (r, w2) ->
  d !! gone = Some e_gone ->
  entry_at w2 gone = None ->
  entry_at w2 kept = Some e_kept ->
  is_regular e_kept = true ->
  e_atime e_gone <= e_atime e_kept.
Proof.
  intros Hpass Hg Hgone Hkept Hreg. apply cleanup_world in Hpass. subst w2.
  unfold entry_at in *. simpl in *. unfold remove_names in *.
  apply lookup_foldr_delete_Some in Hkept as [Hnin Hk].
  assert (Hin : gone ∈ evicted cache d).
  { destruct (decide (gone ∈ evicted cache d)) as [Hin|Hn]; [exact Hin|].
    rewrite lookup_foldr_delete_not_elem_of in Hgone by exact Hn. congruence. }
  destruct (elem_of_evicted _ _ _ Hin) as [e' [i [He' [_ [Hi Hlen]]]]].
  rewrite Hg in He'. inversion He'; subst e'.
  assert (Hko : (e_atime e_kept, kept) ∈ eviction_order d).
  { apply elem_of_eviction_order. exists e_kept. auto. }
  apply list_elem_of_lookup in Hko as [j Hj].
  destruct (Z.le_gt_cases (e_atime e_gone) (e_atime e_kept)) as [Hle|Hlt]; [exact Hle|].
  exfalso. apply Hnin.
  assert (Hji : (j < i)%nat).
  { eapply sorted_index; [apply eviction_order_sorted | exact Hj | exact Hi | lia]. }
  destruct (evicted_is_prefix cache d) as [k Hk'].
  rewrite Hk' in Hlen |- *. rewrite length_take in Hlen.
  apply elem_of_take. exists j. split; [|lia].
  rewrite list_lookup_fmap, Hj. reflexivity.
Qed.

Lemma cleanup_removes_oldest_first_witness :
  e_atime (Entry Regular (rep "a" 500) 1 1 true) <=
  e_atime (Entry Regular (rep "c" 500) 3 3 true).
Proof.
  apply (cleanup_removes_oldest_first a_cache (three_files true true) 9 []
           (Ok tt) (_cleanup_if_needed a_cache (World (Some (three_files true true)) 9 [])).2
           "a.py" "c.py").
  - vm_compute. reflexivity.
  - vm_compute. reflexivity.
  - vm_compute. reflexivity.
  - vm_compute. reflexivity.
  - reflexivity.
Defined.

(** ** The file just written and the pass that follows *)

Lemma sizes_elem_of d names n :
  n ∈ names -> from_option st_size 0 (d !! n) <= sizes d names.
Proof.
  induction names as [|m names IH]; intros Hin.
  - apply elem_of_nil in Hin. contradiction.
  - change (sizes d (m :: names))
      with (from_option st_size 0 (d !! m) + sizes d names).
    pose proof (sizes_nonneg d names).
    assert (0 <= from_option st_size 0 (d !! m)).
    { destruct (d !! m); simpl; [unfold st_size|]; lia. }
    apply elem_of_cons in Hin as [->|Hin]; [lia|].
    specialize (IH Hin). lia.
Qed.

(** The newest file sorts last. *)
Lemma newest_is_last (d : gmap string entry) name now code :
  d !! name = None ->
  (forall n e, d !! n = Some e -> is_regular e = true -> e_atime e < now) ->
  exists i,
    eviction_order (<[name := new_file now code]> d) !! i = Some (now, name) /\
    length (eviction_order (<[name := new_file now code]> d)) = S i.
Proof.
  intros Hnone Hold. set (d' := <[name := new_file now code]> d).
  assert (Hin : (now, name) ∈ eviction_order d').
  { apply elem_of_eviction_order. exists (new_file now code).
    split; [apply lookup_insert_eq|]. split; reflexivity. }
  apply list_elem_of_lookup in Hin as [i Hi]. exists i. split; [exact Hi|].
  pose proof (lookup_lt_Some _ _ _ Hi) as Hlt.
  destruct (decide (length (eviction_order d') = S i)) as [Heq|Hne]; [exact Heq|].
  exfalso.
  destruct (lookup_lt_is_Some_2 (eviction_order d') (S i)) as [[a m] Hj]; [lia|].
  assert (Hm : m <> name).
  { intros ->.
    assert (Hsame : S i = i).
    { eapply (NoDup_lookup _ _ _ name (NoDup_eviction_order d'));
        rewrite list_lookup_fmap; [rewrite Hj | rewrite Hi]; reflexivity. }
    lia. }
  pose proof (list_elem_of_lookup_2 _ _ _ Hj) as Hin.
  apply elem_of_eviction_order in Hin as [e [He [Hreg ->]]].
  unfold d' in He. rewrite lookup_insert_ne in He by auto.
  pose proof (Hold m e He Hreg) as Hlt'.
  assert (S i < i)%nat; [|lia].
  eapply sorted_index; [apply eviction_order_sorted | exact Hj | exact Hi | exact Hlt'].
Qed.

(** X6. For a suffix that keeps the derived name one path component:
    when every other regular file was last accessed before the store and
    may be unlinked, the file [cache_code_file] writes is still there on
    return exactly when the cache stays within its ceiling or the file is
    at most four fifths of the ceiling; a larger file is removed by the
    pass that its own store starts, and the path returned names no
    entry. *)
Theorem stored_file_survives_iff_small (self : CodeCache)
    (code language suffix : string) (d : gmap string entry) (now : Z)
    (lg : list event) :
  let name := cache_file_name code language suffix in
  let len := Z.of_nat (String.length code) in
  plain_suffix suffix = true ->
  0 <= max_size_bytes self <= 2 ^ 49 ->
  d !! name = None ->
  unlinkable d ->
  (forall n e, d !! n = Some e -> is_regular e = true -> e_atime e < now) ->
  exists w1,
    cache_code_file self code language suffix (World (Some d) now lg) =
      (Ok (Path.str (cache_dir self) name), w1) /\
    (total_size d + len <= max_size_bytes self \/ 5 * len <= 4 * max_size_bytes self ->
     entry_at w1 name = Some (new_file now code)) /\
    (max_size_bytes self < total_size d + len -> 4 * max_size_bytes self < 5 * len ->
     entry_at w1 name = None).
Proof.
  intros name len _ Hmax Hnone Hok Hold.
  set (d' := <[name := new_file now code]> d).
  assert (Hok' : unlinkable d') by (apply unlinkable_insert_new, Hok).
  assert (Htot : total_size d' = total_size d + len).
  { unfold d'. rewrite total_size_insert by exact Hnone. reflexivity. }
  rewrite cache_code_file_absent by exact Hnone. fold name. fold d'.
  rewrite cleanup_eq. unfold evicted.
  destruct (total_size d' >? max_size_bytes self) eqn:Hgt.
  - apply Z.gtb_lt in Hgt. unfold cleanup_run.
    destruct (evict_run_removable (cleanup_target self) d' (eviction_order d')
                (total_size d') (removable_eviction_order d' Hok'))
      as [Hr [Hlen [Hend Hbefore]]].
    set (k := (evict_run (cleanup_target self) d' (eviction_order d') (total_size d')).1) in *.
    rewrite Hr. eexists. split; [reflexivity|].
    destruct (newest_is_last d name now code Hnone Hold) as [i [Hi Hlast]].
    fold d' in Hi, Hlast.
    set (names := (eviction_order d').*2) in *.
    assert (Hni : names !! i = Some name).
    { unfold names. rewrite list_lookup_fmap, Hi. reflexivity. }
    assert (Hsplit : forall j, (j <= i)%nat ->
              len <= total_size d' - sizes d' (take j names)).
    { intros j Hj. rewrite <- (sizes_eviction_order d'). fold names.
      rewrite <- (take_drop j names) at 1. rewrite sizes_app.
      assert (Hin : name ∈ drop j names).
      { apply list_elem_of_lookup. exists (i - j)%nat.
        rewrite lookup_drop. rewrite <- Hni. f_equal. lia. }
      pose proof (sizes_elem_of d' _ _ Hin) as Hle.
      unfold d' in Hle at 1. rewrite lookup_insert_eq in Hle. simpl in Hle.
      fold d' in Hle. unfold st_size in Hle. simpl in Hle. fold len in Hle. lia. }
    assert (Hexact : total_size d' - sizes d' (take i names) = len).
    { rewrite <- (sizes_eviction_order d'). fold names.
      rewrite <- (take_drop i names) at 1. rewrite sizes_app.
      rewrite (drop_S _ _ _ Hni), drop_ge
        by (unfold names; rewrite length_fmap; lia).
      unfold sizes at 2. simpl. unfold d' at 2. rewrite lookup_insert_eq. simpl.
      unfold st_size. simpl. fold len. lia. }
    unfold entry_at. simpl. unfold remove_names. split.
    + intros Hsmall. destruct Hsmall as [Hfit|Hsmall]; [lia|].
      rewrite lookup_foldr_delete_not_elem_of; [apply lookup_insert_eq|].
      intros Hin. apply elem_of_take in Hin as [j [Hj Hjk]].
      assert (j = i).
      { eapply (NoDup_lookup _ _ _ name (NoDup_eviction_order d')); eassumption. }
      subst j. pose proof (Hbefore i Hjk) as Hover. fold names in Hover.
      rewrite Hexact in Hover.
      assert (Hin' : Float.int_le len (cleanup_target self) = true).
      { apply Float_facts.target_exact; [exact Hmax | exact Hsmall]. }
      congruence.
    + intros _ Hbig. apply lookup_foldr_delete.
      apply elem_of_take. exists i. split; [exact Hni|].
      destruct (decide (i < k)%nat) as [Hik|Hik]; [exact Hik|]. exfalso.
      destruct Hend as [Hall|Hend]; [lia|]. fold names in Hend.
      assert (Hout : Float.int_le len (cleanup_target self) = false).
      { destruct (Float.int_le len (cleanup_target self)) eqn:Hle; [|reflexivity].
        apply Float_facts.target_exact in Hle; [lia | exact Hmax]. }
      rewrite (Float_facts.int_le_mono _ _ _ Hout (Hsplit k ltac:(lia))) in Hend.
      discriminate.
  - rewrite Z.gtb_ltb in Hgt. apply Z.ltb_ge in Hgt.
    eexists. split; [reflexivity|]. unfold entry_at. simpl. split.
    + intros _. apply lookup_insert_eq.
    + intros Hover. lia.
Qed.

Lemma one_old_file_unlinkable : unlinkable one_old_file.
Proof.
  change (map_Forall (fun _ e => is_regular e = true -> e_unlink_ok e = true)
            one_old_file).
  apply (bool_decide_unpack _). vm_compute. reflexivity.
Defined.

Lemma one_old_file_older :
  forall n e, one_old_file !! n = Some e -> is_regular e = true -> e_atime e < 5.
Proof.
  change (map_Forall (fun _ e => is_regular e = true -> e_atime e < 5) one_old_file).
  apply (bool_decide_unpack _). vm_compute. reflexivity.
Defined.

Lemma stored_file_survives_iff_small_witness :
  exists w1,
    cache_code_file a_cache (E 1) "python" ".py" (World (Some one_old_file) 5 []) =
      (Ok (Path.str (cache_dir a_cache) (E_name 1)), w1) /\
    (total_size one_old_file + Z.of_nat (String.length (E 1)) <= max_size_bytes a_cache \/
     5 * Z.of_nat (String.length (E 1)) <= 4 * max_size_bytes a_cache ->
     entry_at w1 (E_name 1) = Some (new_file 5 (E 1))) /\
    (max_size_bytes a_cache < total_size one_old_file + Z.of_nat (String.length (E 1)) ->
     4 * max_size_bytes a_cache < 5 * Z.of_nat (String.length (E 1)) ->
     entry_at w1 (E_name 1) = None).
Proof.
  apply (stored_file_survives_iff_small a_cache (E 1) "python" ".py" one_old_file 5 []).
  - reflexivity.
  - vm_compute. split; discriminate.
  - vm_compute. reflexivity.
  - exact one_old_file_unlinkable.
  - exact one_old_file_older.
Defined.

(** ** The slack a pass leaves *)

Lemma pass_within_target self d :
  0 <= max_size_bytes self <= 2 ^ 49 ->
  unlinkable d ->
  max_size_bytes self < total_size d ->
  (cleanup_run self d).2 = Ok tt /\
  5 * total_size (remove_names (evicted self d) d) <= 4 * max_size_bytes self.
Proof.
  intros Hmax Hok Hgt. unfold evicted.
  assert (Hb : (total_size d >? max_size_bytes self) = true) by (apply Z.gtb_lt; lia).
  rewrite Hb. unfold cleanup_run.
  destruct (evict_run_removable (cleanup_target self) d (eviction_order d)
              (total_size d) (removable_eviction_order d Hok))
    as [Hr [Hlen [Hend Hbefore]]].
  split; [exact Hr|]. rewrite total_size_after_removal.
  destruct Hend as [Hall|Hend].
  - rewrite Hall, take_ge by (rewrite length_fmap; lia).
    rewrite sizes_eviction_order. lia.
  - apply Float_facts.target_exact in Hend; [exact Hend | exact Hmax].
Qed.

(** X7. A pass that had to evict leaves a fifth of the ceiling free: it
    returns, a second pass at any later time changes nothing, and a new
    file of at most a fifth of the ceiling, with a suffix that keeps its
    name one path component, is then stored without any eviction, all
    files the pass left staying as they are. *)
Theorem store_after_pass_evicts_nothing (self : CodeCache) (d : gmap string entry)
    (now now' : Z) (lg : list event) (r : result unit) (w1 : world)
    (code language suffix : string) :
  let name := cache_file_name code language suffix in
  0 <= max_size_bytes self <= 2 ^ 49 ->
  unlinkable d ->
  max_size_bytes self < total_size d ->
  _cleanup_if_needed self (World (Some d) now lg) = (r, w1) ->
  r = Ok tt /\
  _cleanup_if_needed self (at_time now' w1) = (Ok tt, at_time now' w1) /\
  (plain_suffix suffix = true ->
   entry_at w1 name = None ->
   5 * Z.of_nat (String.length code) <= max_size_bytes self ->
   exists d1,
     w_root w1 = Some d1 /\
     cache_code_file self code language suffix (at_time now' w1) =
       (Ok (Path.str (cache_dir self) name),
        World (Some (<[name := new_file now' code]> d1)) now'
              (w_log w1 ++
               [CachedFile language (hash8 (_compute_hash code language suffix))]))).
Proof.
  intros name Hmax Hok Hgt Hpass.
  destruct (pass_within_target self d Hmax Hok Hgt) as [Hr Hleft].
  pose proof (cleanup_world _ _ _ _ _ _ Hpass) as Hw1.
  rewrite cleanup_eq in Hpass.
  assert (Hb : (total_size d >? max_size_bytes self) = true) by (apply Z.gtb_lt; lia).
  rewrite Hb, Hr in Hpass. inversion Hpass as [[Hr' Hw]]. clear Hw.
  subst w1. unfold at_time. simpl.
  set (d1 := remove_names (evicted self d) d) in *.
  split; [reflexivity|]. split.
  - rewrite cleanup_eq.
    destruct (total_size d1 >? max_size_bytes self) eqn:Hgt1; [|reflexivity].
    apply Z.gtb_lt in Hgt1. lia.
  - unfold entry_at. simpl. intros _ Hnone Hsmall. exists d1. split; [reflexivity|].
    apply cache_code_file_fits; [exact Hnone | lia].
Qed.

Lemma store_after_pass_evicts_nothing_witness :
  (_cleanup_if_needed a_cache (World (Some (three_files true true)) 9 [])).1 = Ok tt /\
  _cleanup_if_needed a_cache (at_time 20 after_pass) = (Ok tt, at_time 20 after_pass) /\
  exists d1,
    w_root after_pass = Some d1 /\
    cache_code_file a_cache "print(1)" "python" ".py" (at_time 20 after_pass) =
      (Ok (Path.str (cache_dir a_cache) hello_name),
       World (Some (<[hello_name := new_file 20 "print(1)"]> d1)) 20
             (w_log after_pass ++
              [CachedFile "python" (hash8 (_compute_hash "print(1)" "python" ".py"))])).
Proof.
  destruct (store_after_pass_evicts_nothing a_cache (three_files true true) 9 20 []
              (_cleanup_if_needed a_cache (World (Some (three_files true true)) 9 [])).1
              after_pass "print(1)" "python" ".py")
    as [H1 [H2 H3]].
  - vm_compute. split; discriminate.
  - exact three_files_removable.
  - vm_compute. reflexivity.
  - unfold after_pass.
    destruct (_cleanup_if_needed a_cache (World (Some (three_files true true)) 9 []));
      reflexivity.
  - split; [exact H1|]. split; [exact H2|].
    apply H3; [reflexivity | vm_compute; reflexivity | vm_compute; discriminate].
Defined.

(** ** The order in which the directory is listed *)

Instance tuple_le_antisymm : AntiSymm eq tuple_le.
Proof.
  intros [a n] [b m]. unfold tuple_le. simpl.
  intros [H|[-> H]] [H'|[Heq H']]; try lia.
  f_equal. apply (anti_symm String.le); assumption.
Qed.

Lemma keys_of_perm l l' : l ≡ₚ l' -> keys_of l ≡ₚ keys_of l'.
Proof. intros H. unfold keys_of. rewrite H. reflexivity. Qed.

Lemma num_regular_perm l l' : l ≡ₚ l' -> num_regular l = num_regular l'.
Proof.
  intros H. unfold num_regular.
  apply (foldr_add_perm (fun p : string * entry => if is_regular p.2 then 1 else 0)).
  exact H.
Qed.

(** A listing of the directory in any order, with the entries it names. *)
Lemma listing_entries (d : gmap string entry) (names : list string) :
  names ≡ₚ (map_to_list d).*1 ->
  exists l, l.*1 = names /\ l ≡ₚ map_to_list d.
Proof.
  intros Hperm.
  assert (Hsome : forall n, n ∈ names -> is_Some (d !! n)).
  { intros n Hn. rewrite Hperm in Hn. apply list_elem_of_fmap in Hn as [[m e] [-> Hin]].
    apply elem_of_map_to_list in Hin. exists e. exact Hin. }
  assert (Hex : exists l, l.*1 = names /\ forall n e, (n, e) ∈ l -> d !! n = Some e).
  { clear Hperm. induction names as [|n names IH].
    - exists []. split; [reflexivity|]. intros n e H. apply elem_of_nil in H. contradiction.
    - destruct IH as [l [Hl Hin]]; [intros m Hm; apply Hsome; right; exact Hm|].
      destruct (Hsome n) as [e He]; [left|].
      exists ((n, e) :: l). split; [rewrite fmap_cons, Hl; reflexivity|].
      intros m e' H. apply elem_of_cons in H as [H|H]; [|apply Hin, H].
      inversion H; subst. exact He. }
  destruct Hex as [l [Hl Hin]]. exists l. split; [exact Hl|].
  assert (Hnd : NoDup l.*1).
  { rewrite Hl, Hperm. apply NoDup_fst_map_to_list. }
  apply NoDup_Permutation.
  - eapply NoDup_fmap_1. exact Hnd.
  - apply NoDup_map_to_list.
  - intros [n e]. rewrite elem_of_map_to_list. split; [apply Hin|].
    intros He.
    assert (Hn : n ∈ l.*1).
    { rewrite Hl, Hperm. apply list_elem_of_fmap. exists (n, e).
      split; [reflexivity|]. apply elem_of_map_to_list, He. }
    apply list_elem_of_fmap in Hn as [[m e'] [Hm Hin']]. simpl in Hm. subst m.
    pose proof (Hin n e' Hin') as He'. rewrite He in He'. inversion He'; subst.
    exact Hin'.
Qed.

(** X8. The results do not depend on the order in which the file system
    lists the cache directory: for every order of the entries, the loop
    of [_get_cache_size] gives the same total, the loop of [get_stats]
    the same count, and the files collected by [_cleanup_if_needed] are,
    once sorted, in the same eviction order; none of the loops changes
    anything. *)
Theorem listing_order_is_irrelevant (d : gmap string entry) (now : Z)
    (lg : list event) (entries : list string) :
  entries ≡ₚ (map_to_list d).*1 ->
  let w := World (Some d) now lg in
  sum_sizes entries 0 w = (Ok (total_size d), w) /\
  count_files entries 0 w = (Ok (num_regular (map_to_list d)), w) /\
  exists cache_files,
    collect_files entries [] w = (Ok cache_files, w) /\
    merge_sort tuple_le cache_files = eviction_order d.
Proof.
  intros Hperm w. destruct (listing_entries d entries Hperm) as [l [<- Hl]].
  assert (Hin : forall n e, (n, e) ∈ l -> d !! n = Some e).
  { intros n e H. rewrite Hl in H. apply elem_of_map_to_list, H. }
  unfold w. split; [|split].
  - rewrite sum_sizes_eq by exact Hin. unfold total_size.
    rewrite (size_of_perm _ _ Hl). reflexivity.
  - rewrite count_files_eq by exact Hin. rewrite (num_regular_perm _ _ Hl). reflexivity.
  - exists (keys_of l). split; [rewrite collect_files_eq by exact Hin; reflexivity|].
    unfold eviction_order.
    apply (Sorted_unique tuple_le).
    + apply Sorted_merge_sort, _.
    + apply Sorted_merge_sort, _.
    + rewrite !merge_sort_Permutation. apply keys_of_perm, Hl.
Qed.

Lemma listing_order_is_irrelevant_witness :
  sum_sizes ["a.py"; "b.py"; "c.py"] 0 (World (Some (three_files true true)) 9 []) =
    (Ok (total_size (three_files true true)), World (Some (three_files true true)) 9 []) /\
  count_files ["a.py"; "b.py"; "c.py"] 0 (World (Some (three_files true true)) 9 []) =
    (Ok (num_regular (map_to_list (three_files true true))),
     World (Some (three_files true true)) 9 []) /\
  exists cache_files,
    collect_files ["a.py"; "b.py"; "c.py"] [] (World (Some (three_files true true)) 9 []) =
      (Ok cache_files, World (Some (three_files true true)) 9 []) /\
    merge_sort tuple_le cache_files = eviction_order (three_files true true).
Proof.
  apply (listing_order_is_irrelevant (three_files true true) 9 [] ["a.py"; "b.py"; "c.py"]).
  assert (Heq : (map_to_list (three_files true true)).*1 = ["c.py"; "a.py"; "b.py"])
    by (vm_compute; reflexivity).
  rewrite Heq. symmetry. apply (Permutation_cons_append ["a.py"; "b.py"] "c.py").
Defined.

(** ** File names *)

Lemma app_inj_length (s s' t t' : string) :
  String.length s = String.length s' ->
  s +:+ t = s' +:+ t' -> s = s' /\ t = t'.
Proof.
  revert s'. induction s as [|a s IH]; intros [|a' s'] Hlen H; try discriminate Hlen.
  - rewrite !app_nil_l' in H. auto.
  - rewrite !app_cons in H. inversion H; subst.
    destruct (IH s' ltac:(simpl in Hlen; lia) ltac:(assumption)) as [-> ->]. auto.
Qed.

Lemma length_string_app (s t : string) :
  String.length (s +:+ t) = (String.length s + String.length t)%nat.
Proof. induction s as [|a s IH]; simpl; [reflexivity | rewrite IH; reflexivity]. Qed.

Lemma length_compute_hash code language suffix :
  String.length (_compute_hash code language suffix) = 64%nat.
Proof. apply SHA256_facts.length_hexdigest. Qed.

(** X9. With suffixes that keep the derived name one path component, two
    requests derive the same file name exactly when they have the same
    key and the same suffix: the name is the 64 characters of the key
    followed by the suffix, at most 255 bytes, so it splits in one way
    only.  Requests whose keys coincide but whose suffixes differ
    therefore never derive the same name, and when the digest inputs
    coincide and neither language contains [':'], the requests have the
    same code and language. *)
Theorem cache_file_name_inj (code language suffix code' language' suffix' : string) :
  plain_suffix suffix = true ->
  plain_suffix suffix' = true ->
  (cache_file_name code language suffix = cache_file_name code' language' suffix' <->
   _compute_hash code language suffix = _compute_hash code' language' suffix' /\
   suffix = suffix') /\
  String.length (cache_file_name code language suffix) =
    (64 + String.length suffix)%nat /\
  (String.length (cache_file_name code language suffix) <= 255)%nat /\
  (no_colon language = true -> no_colon language' = true ->
   cache_file_name code language suffix = cache_file_name code' language' suffix' ->
   content code language suffix = content code' language' suffix' ->
   code = code' /\ language = language').
Proof.
  intros Hplain _.
  assert (Hinj : cache_file_name code language suffix =
                 cache_file_name code' language' suffix' ->
                 _compute_hash code language suffix =
                 _compute_hash code' language' suffix' /\ suffix = suffix').
  { unfold cache_file_name. apply app_inj_length.
    rewrite !length_compute_hash. reflexivity. }
  assert (Hlen : String.length (cache_file_name code language suffix) =
                 (64 + String.length suffix)%nat).
  { unfold cache_file_name.
    rewrite length_string_app, length_compute_hash. reflexivity. }
  split; [|split; [|split]].
  - split; [exact Hinj|]. intros [Hk ->]. unfold cache_file_name. rewrite Hk. reflexivity.
  - exact Hlen.
  - rewrite Hlen. unfold plain_suffix in Hplain.
    apply andb_prop in Hplain as [_ Hshort]. apply Nat.leb_le in Hshort. lia.
  - intros Hl Hl' Hname Hcontent. destruct (Hinj Hname) as [_ <-].
    unfold content in Hcontent.
    apply split_at_colon in Hcontent as [-> Hcontent]; [|assumption..].
    split; [|reflexivity].
    apply (inj (String.app suffix)) in Hcontent.
    apply (inj (String.app ":")) in Hcontent. exact Hcontent.
Qed.

Lemma cache_file_name_inj_witness :
  (cache_file_name "x" "a" ".py" = cache_file_name "x" "a" ".txt" <->
   _compute_hash "x" "a" ".py" = _compute_hash "x" "a" ".txt" /\ ".py" = ".txt") /\
  String.length (cache_file_name "x" "a" ".py") = (64 + String.length ".py")%nat /\
  (String.length (cache_file_name "x" "a" ".py") <= 255)%nat /\
  (no_colon "a" = true -> no_colon "a" = true ->
   cache_file_name "x" "a" ".py" = cache_file_name "x" "a" ".txt" ->
   content "x" "a" ".py" = content "x" "a" ".txt" ->
   "x" = "x" /\ "a" = "a").
Proof.
  apply (cache_file_name_inj "x" "a" ".py" "x" "a" ".txt"); reflexivity.
Defined.

(** ** What the statistics see *)

Lemma num_regular_insert (d : gmap string entry) n e :
  d !! n = None ->
  num_regular (map_to_list (<[n := e]> d)) =
  num_regular (map_to_list d) + (if is_regular e then 1 else 0).
Proof.
  intros H. rewrite (num_regular_perm _ _ (map_to_list_insert d n e H)).
  unfold num_regular. simpl. lia.
Qed.

Lemma num_regular_delete (d : gmap string entry) n e :
  d !! n = Some e ->
  num_regular (map_to_list (delete n d)) =
  num_regular (map_to_list d) - (if is_regular e then 1 else 0).
Proof.
  intros H. rewrite <- (num_regular_perm _ _ (map_to_list_delete d n e H)).
  unfold num_regular. simpl. lia.
Qed.

Lemma touch_keeps_stats (d : gmap string entry) n e now :
  d !! n = Some e ->
  total_size (<[n := touched now e]> d) = total_size d /\
  num_regular (map_to_list (<[n := touched now e]> d)) = num_regular (map_to_list d).
Proof.
  intros H. rewrite <- (insert_delete_eq d n (touched now e)).
  rewrite total_size_insert, num_regular_insert by apply lookup_delete_eq.
  rewrite (total_size_delete d n e H), (num_regular_delete d n e H).
  unfold file_size, is_regular, st_size, touched. simpl. split; lia.
Qed.

(** X10. The statistics follow the accesses.  After [get_or_cache] has
    stored a file that was absent and fits under the ceiling, [get_stats]
    counts one file more and [len(code)] bytes more; after a hit it
    reports what it reported before, because a hit changes time stamps
    only. *)
Theorem get_stats_after_get_or_cache (self : CodeCache) (code language suffix : string)
    (d : gmap string entry) (now now' : Z) (lg : list event)
    (p : string) (b : bool) (w1 : world) :
  get_or_cache self code language suffix (World (Some d) now lg) = (Ok (p, b), w1) ->
  (b = true ->
   (get_stats self (at_time now' w1)).1 = (get_stats self (World (Some d) now lg)).1) /\
  (b = false ->
   d !! cache_file_name code language suffix = None ->
   total_size d + Z.of_nat (String.length code) <= max_size_bytes self ->
   (get_stats self (at_time now' w1)).1 =
     Ok [ ("num_files", VInt (num_regular (map_to_list d) + 1));
          ("total_size_mb",
           VFloat (mb (total_size d + Z.of_nat (String.length code))));
          ("max_size_mb", VFloat (mb (max_size_bytes self)));
          ("cache_dir", VStr (cache_dir self)) ]).
Proof.
  intros Hcall. rewrite get_or_cache_eq in Hcall.
  rewrite !get_stats_eq. simpl.
  destruct (get_cached_file self code language suffix (World (Some d) now lg))
    as [[[q|]|ex] w0] eqn:Hget; try discriminate Hcall.
  - inversion Hcall; subst p b w1. split; [intros _|discriminate].
    destruct (access_world self code language suffix _ q w0 (or_introl Hget))
      as [d0 [e [lg1 [Hd [He ->]]]]].
    simpl in Hd. inversion Hd; subst d0. simpl.
    destruct (touch_keeps_stats d _ e now He) as [Hsize Hnum].
    unfold stats_of. rewrite Hsize, Hnum. reflexivity.
  - split; [|intros _ Hnone Hfit].
    + intros ->.
      destruct (cache_code_file self code language suffix w0) as [[q|ex] w2];
        [inversion Hcall | discriminate Hcall].
    + rewrite get_cached_file_absent in Hget by exact Hnone.
      inversion Hget; subst w0.
      rewrite (cache_code_file_fits _ _ _ _ _ _ _ Hnone Hfit) in Hcall.
      inversion Hcall; subst. simpl. unfold stats_of.
      rewrite total_size_insert, num_regular_insert by exact Hnone.
      reflexivity.
Qed.

Lemma get_stats_after_get_or_cache_witness :
  (false = true ->
   (get_stats a_cache (at_time 9 after_hello_store)).1 =
   (get_stats a_cache (World (Some ∅) 5 [])).1) /\
  (false = false ->
   (∅ : gmap string entry) !! cache_file_name "print(1)" "python" ".py" = None ->
   total_size ∅ + Z.of_nat (String.length "print(1)") <= max_size_bytes a_cache ->
   (get_stats a_cache (at_time 9 after_hello_store)).1 =
     Ok [ ("num_files", VInt (num_regular (map_to_list (∅ : gmap string entry)) + 1));
          ("total_size_mb",
           VFloat (mb (total_size ∅ + Z.of_nat (String.length "print(1)"))));
          ("max_size_mb", VFloat (mb (max_size_bytes a_cache)));
          ("cache_dir", VStr (cache_dir a_cache)) ]).
Proof.
  apply (get_stats_after_get_or_cache a_cache "print(1)" "python" ".py" ∅ 5 9 []
           (Path.str "/c" hello_name) false after_hello_store).
  vm_compute. reflexivity.
Defined.

(** ** What [get_or_cache] leaves of the directory *)

Lemma get_or_cache_world self code language suffix d now lg r w1 :
  get_or_cache self code language suffix (World (Some d) now lg) = (r, w1) ->
  exists d1 lg1,
    w1 = World (Some d1) now lg1 /\
    forall n e1, d1 !! n = Some e1 ->
      (n <> cache_file_name code language suffix -> d !! n = Some e1) /\
      (n = cache_file_name code language suffix ->
       e1 = new_file now code \/
       exists e, d !! n = Some e /\ (e1 = e \/ e1 = touched now e)).
Proof.
  intros Hcall. rewrite get_or_cache_eq in Hcall.
  assert (Hstore : forall d0 lg0 r0 w0,
            d0 !! cache_file_name code language suffix = None ->
            (forall n e1, d0 !! n = Some e1 -> d !! n = Some e1) ->
            match cache_code_file self code language suffix (World (Some d0) now lg0) with
            | (Ok p, w2) => (Ok (p, false), w2)
            | (Raise e, w2) => (Raise e, w2)
            end = (r0, w0) ->
            exists d1 lg1,
              w0 = World (Some d1) now lg1 /\
              forall n e1, d1 !! n = Some e1 ->
                (n <> cache_file_name code language suffix -> d !! n = Some e1) /\
                (n = cache_file_name code language suffix ->
                 e1 = new_file now code \/
                 exists e, d !! n = Some e /\ (e1 = e \/ e1 = touched now e))).
  { intros d0 lg0 r0 w0 Hnone Hsub H.
    rewrite cache_code_file_absent in H by exact Hnone.
    destruct (_cleanup_if_needed self _) as [rc wc] eqn:Hpass.
    apply cleanup_world in Hpass. subst wc.
    assert (Hw0 : w0 = World (Some (remove_names (evicted self
                     (<[cache_file_name code language suffix := new_file now code]> d0))
                     (<[cache_file_name code language suffix := new_file now code]> d0)))
                   now ((lg0 ++ [CachedFile language (hash8 (_compute_hash code language suffix))])
                        ++ pass_log self
                             (<[cache_file_name code language suffix := new_file now code]> d0))).
    { destruct rc; inversion H; reflexivity. }
    eexists _, _. split; [exact Hw0|].
    intros n e1 Hn. unfold remove_names in Hn.
    apply lookup_foldr_delete_Some in Hn as [_ Hn].
    apply lookup_insert_Some in Hn as [[<- <-]|[Hne Hn]].
    - split; [intros Hc; contradiction | intros _; left; reflexivity].
    - split; [intros _; apply Hsub, Hn | intros ->; contradiction]. }
  assert (Hsame : forall lg0, exists d1 lg1,
            World (Some d) now lg0 = World (Some d1) now lg1 /\
            forall n e1, d1 !! n = Some e1 ->
              (n <> cache_file_name code language suffix -> d !! n = Some e1) /\
              (n = cache_file_name code language suffix ->
               e1 = new_file now code \/
               exists e, d !! n = Some e /\ (e1 = e \/ e1 = touched now e))).
  { intros lg0. exists d, lg0. split; [reflexivity|]. intros n e1 Hn.
    split; [intros _; exact Hn|]. intros _. right. exists e1. auto. }
  destruct (d !! cache_file_name code language suffix) as [e|] eqn:He.
  - destruct (Z.lt_ge_cases (now - e_mtime e) (ttl_seconds self)) as [Hage|Hage].
    + destruct (e_unlink_ok e) eqn:Hu.
      * rewrite (get_cached_file_hit _ _ _ _ _ _ _ e He Hage Hu) in Hcall.
        inversion Hcall; subst. eexists _, _. split; [reflexivity|].
        intros n e1 Hn. apply lookup_insert_Some in Hn as [[<- <-]|[Hne Hn]].
        -- split; [intros Hc; contradiction|]. intros _. right. exists e. auto.
        -- split; [intros _; exact Hn | intros ->; contradiction].
      * rewrite (get_cached_file_refused _ _ _ _ _ _ _ e He Hage Hu) in Hcall.
        inversion Hcall; subst. apply Hsame.
    + rewrite (get_cached_file_expired _ _ _ _ _ _ _ e He Hage) in Hcall.
      destruct (e_kind e).
      * destruct (e_unlink_ok e).
        -- apply (Hstore _ _ _ _ (lookup_delete_eq _ _)) in Hcall; [exact Hcall|].
           intros n e1 Hn. apply lookup_delete_Some in Hn as [_ Hn]. exact Hn.
        -- inversion Hcall; subst. apply Hsame.
      * inversion Hcall; subst. apply Hsame.
  - rewrite get_cached_file_absent in Hcall by exact He.
    apply (Hstore _ _ _ _ He) in Hcall; [exact Hcall|]. auto.
Qed.

(** X11. [get_or_cache] never creates and never removes the cache
    directory, whatever way it ends: a directory that exists before the
    call exists after it, and on a missing directory the call raises
    [FileNotFoundError] and changes nothing. *)
Theorem get_or_cache_keeps_directory (self : CodeCache) (code language suffix : string)
    (w w1 : world) (r : result (string * bool)) :
  get_or_cache self code language suffix w = (r, w1) ->
  w_now w1 = w_now w /\
  (w_root w1 = None <-> w_root w = None) /\
  (w_root w = None -> r = Raise FileNotFoundError /\ w1 = w).
Proof.
  destruct w as [[d|] now lg]; intros Hcall; simpl.
  - destruct (get_or_cache_world _ _ _ _ _ _ _ _ _ Hcall) as [d1 [lg1 [-> _]]].
    simpl. split; [reflexivity|]. split; [split; discriminate | discriminate].
  - rewrite get_or_cache_eq, get_cached_file_no_root, cache_code_file_no_root in Hcall.
    inversion Hcall; subst. simpl. auto.
Qed.

Lemma get_or_cache_keeps_directory_witness :
  w_now after_hello_store = w_now (World (Some ∅) 5 []) /\
  (w_root after_hello_store = None <-> w_root (World (Some ∅) 5 []) = None) /\
  (w_root (World (Some ∅) 5 []) = None ->
   Ok (Path.str "/c" hello_name, false) = Raise FileNotFoundError /\
   after_hello_store = World (Some ∅) 5 []).
Proof.
  apply (get_or_cache_keeps_directory a_cache "print(1)" "python" ".py"
           (World (Some ∅) 5 []) after_hello_store
           (Ok (Path.str "/c" hello_name, false))).
  vm_compute. reflexivity.
Defined.

(** X12. [get_or_cache], with a suffix that keeps the derived name one
    path component, never modifies what another cached file holds,
    whatever way it ends: an entry found afterwards at any other name was
    there before, unchanged.  When the call returns, the entry at the
    derived name either was there before with the same kind and content,
    or is the file the call has just written, holding [code]. *)
Theorem get_or_cache_keeps_contents (self : CodeCache) (code language suffix : string)
    (w w1 : world) (r : result (string * bool)) (n : string) (e1 : entry) :
  plain_suffix suffix = true ->
  get_or_cache self code language suffix w = (r, w1) ->
  entry_at w1 n = Some e1 ->
  (n <> cache_file_name code language suffix -> entry_at w n = Some e1) /\
  (n = cache_file_name code language suffix ->
   (exists p b, r = Ok (p, b)) ->
   (exists e, entry_at w n = Some e /\
              e_kind e1 = e_kind e /\ e_content e1 = e_content e) \/
   e1 = new_file (w_now w) code).
Proof.
  intros _. destruct w as [[d|] now lg]; intros Hcall Hn.
  - destruct (get_or_cache_world _ _ _ _ _ _ _ _ _ Hcall) as [d1 [lg1 [-> Hd1]]].
    unfold entry_at in *. simpl in *.
    destruct (Hd1 n e1 Hn) as [Hother Hname].
    split; [exact Hother|]. intros Heq _.
    destruct (Hname Heq) as [->|[e [He [->| ->]]]].
    + right. reflexivity.
    + left. exists e. auto.
    + left. exists e. auto.
  - rewrite get_or_cache_eq, get_cached_file_no_root, cache_code_file_no_root in Hcall.
    inversion Hcall; subst. discriminate Hn.
Qed.

Lemma get_or_cache_keeps_contents_witness :
  (hello_name <> cache_file_name "print(1)" "python" ".py" ->
   entry_at (World (Some ∅) 5 []) hello_name = Some (new_file 5 "print(1)")) /\
  ((exists e, entry_at (World (Some ∅) 5 []) hello_name = Some e /\
              e_kind (new_file 5 "print(1)") = e_kind e /\
              e_content (new_file 5 "print(1)") = e_content e) \/
   new_file 5 "print(1)" = new_file (w_now (World (Some ∅) 5 [])) "print(1)").
Proof.
  destruct (get_or_cache_keeps_contents a_cache "print(1)" "python" ".py"
              (World (Some ∅) 5 []) after_hello_store
              (Ok (Path.str "/c" hello_name, false)) hello_name
              (new_file 5 "print(1)") eq_refl)
    as [H1 H2].
  - vm_compute. reflexivity.
  - vm_compute. reflexivity.
  - split; [exact H1|]. apply H2; [reflexivity|]. eexists _, _. reflexivity.
Defined.

(** ** Construction and the module-level instance *)

Lemma init_eq cd size ttl w :
  __init__ cd size ttl w =
  (Ok {| cache_dir :=
           Path.normalize
             match cd with
             | Some s => if decide (s = "") then default_cache_dir else s
             | None => default_cache_dir
             end;
         max_size_bytes := size * 1024 * 1024;
         ttl_seconds := ttl |},
   World (Some (default ∅ (w_root w))) (w_now w) (w_log w)).
Proof. destruct w as [[d|] now lg]; reflexivity. Qed.

Lemma normalize_nonempty s : Path.normalize s <> "".
Proof. unfold Path.normalize. case_decide; [discriminate | assumption]. Qed.

(** X13. When the constructor returns, it leaves a usable cache: the
    directory exists, created empty when it was missing and with every
    entry kept otherwise, and nothing is logged; the instance holds the
    directory name as [pathlib] normalises it, which is never empty
    ([None] and the empty string give the default).  On a directory the
    constructor created, a first [get_or_cache] of a code within the
    ceiling, with a suffix that keeps the name one path component, stores
    the file and returns its path with [False]. *)
Theorem init_makes_cache_usable (dir : option string) (size ttl t : Z) (w w1 : world)
    (self : CodeCache) (code language suffix : string) :
  __init__ dir size ttl w = (Ok self, w1) ->
  cache_dir self =
    Path.normalize
      match dir with
      | Some s => if decide (s = "") then default_cache_dir else s
      | None => default_cache_dir
      end /\
  cache_dir self <> "" /\
  max_size_bytes self = size * 1048576 /\
  ttl_seconds self = ttl /\
  w_root w1 = Some (default ∅ (w_root w)) /\
  w_log w1 = w_log w /\
  (w_root w = None ->
   plain_suffix suffix = true ->
   Z.of_nat (String.length code) <= size * 1048576 ->
   get_or_cache self code language suffix (at_time t w1) =
     (Ok (Path.str (cache_dir self) (cache_file_name code language suffix), false),
      World (Some {[ cache_file_name code language suffix := new_file t code ]}) t
            (w_log w ++
             [CachedFile language (hash8 (_compute_hash code language suffix))]))).
Proof.
  rewrite init_eq. intros H. inversion H; subst. clear H. simpl.
  split; [reflexivity|]. split; [apply normalize_nonempty|].
  split; [lia|]. split; [reflexivity|]. split; [reflexivity|]. split; [reflexivity|].
  intros Hnone _ Hfit. rewrite Hnone. unfold at_time. simpl.
  rewrite get_or_cache_eq.
  rewrite get_cached_file_absent by apply lookup_empty.
  rewrite cache_code_file_fits.
  - rewrite insert_empty. reflexivity.
  - apply lookup_empty.
  - simpl. rewrite total_size_empty. lia.
Qed.

Lemma init_makes_cache_usable_witness :
  cache_dir {| cache_dir := "/c"; max_size_bytes := 1048576; ttl_seconds := 60 |} =
    Path.normalize "/c/" /\
  w_root (World (Some ∅) 0 []) = Some ∅ /\
  get_or_cache {| cache_dir := "/c"; max_size_bytes := 1048576; ttl_seconds := 60 |}
    "print(1)" "python" ".py" (at_time 3 (World (Some ∅) 0 [])) =
    (Ok (Path.str "/c" hello_name, false),
     World (Some {[ hello_name := new_file 3 "print(1)" ]}) 3
           [CachedFile "python" (hash8 (_compute_hash "print(1)" "python" ".py"))]).
Proof.
  destruct (init_makes_cache_usable (Some "/c/") 1 60 3 (World None 0 []) (World (Some ∅) 0 [])
              {| cache_dir := "/c"; max_size_bytes := 1048576; ttl_seconds := 60 |}
              "print(1)" "python" ".py" eq_refl)
    as [Hdir [_ [_ [_ [Hroot [_ Hstore]]]]]].
  split; [exact Hdir|]. split; [exact Hroot|].
  apply Hstore; [reflexivity | reflexivity | vm_compute; discriminate].
Defined.

(** X14. [get_code_cache] keeps one instance: a disabled call returns
    [None] and touches nothing; the first enabled call constructs the
    instance from its keyword arguments and creates the directory; every
    later enabled call returns that same instance whatever arguments it
    is given, without touching the file system, and a disabled call in
    between does not reset it. *)
Theorem get_code_cache_singleton (kw kw' : kwargs) (g : option CodeCache)
    (w w' : world) :
  get_code_cache false kw g w = (Ok (None, g), w) /\
  exists c w1,
    get_code_cache true kw g w = (Ok (Some c, Some c), w1) /\
    (g = None ->
     CodeCache_new kw w = (Ok c, w1) /\
     w_root w1 = Some (default ∅ (w_root w)) /\
     max_size_bytes c = default 1024 (kw_max_size_mb kw) * 1048576 /\
     ttl_seconds c = default 86400 (kw_ttl_seconds kw)) /\
    (forall c0, g = Some c0 -> c = c0 /\ w1 = w) /\
    get_code_cache true kw' (Some c) w' = (Ok (Some c, Some c), w') /\
    get_code_cache false kw' (Some c) w' = (Ok (None, Some c), w').
Proof.
  split; [reflexivity|]. destruct g as [c0|].
  - exists c0, w. split; [reflexivity|]. split; [discriminate|].
    split; [intros c1 H; inversion H; auto|]. split; reflexivity.
  - unfold get_code_cache, CodeCache_new. simpl.
    unfold mbind, M_bind. rewrite init_eq. simpl.
    eexists _, _. split; [reflexivity|]. simpl.
    split; [intros _; split; [reflexivity|split; [reflexivity|split; [lia|reflexivity]]]|].
    split; [discriminate|]. split; reflexivity.
Qed.

(** ** Entries that cannot be removed *)

(** X15. An expired entry that cannot be removed blocks its key: when the
    entry at the derived name is past its time to live and is a
    directory or a file that may not be unlinked, [get_or_cache] raises
    at that time and at every later one, logs the expiry, and leaves the
    directory as it is; it never stores the code. *)
Theorem expired_unremovable_entry_blocks (self : CodeCache)
    (code language suffix : string) (d : gmap string entry) (now now' : Z)
    (lg : list event) (e : entry) :
  d !! cache_file_name code language suffix = Some e ->
  ttl_seconds self <= now - e_mtime e ->
  e_kind e = Directory \/ e_unlink_ok e = false ->
  now <= now' ->
  get_or_cache self code language suffix (World (Some d) now' lg) =
    (Raise match e_kind e with
           | Directory => IsADirectoryError
           | Regular => PermissionError
           end,
     World (Some d) now'
           (lg ++ [CacheExpired (hash8 (_compute_hash code language suffix))])).
Proof.
  intros He Hage Hblocked Hlater. rewrite get_or_cache_eq.
  rewrite (get_cached_file_expired _ _ _ _ _ _ _ e He) by lia.
  destruct (e_kind e); [|reflexivity].
  destruct Hblocked as [Hk|Hu]; [discriminate Hk|]. rewrite Hu. reflexivity.
Qed.

Lemma rmtree_entries_blocked names : forall (d : gmap string entry) now lg n e,
  NoDup names ->
  (forall m, m ∈ names -> is_Some (d !! m)) ->
  n ∈ names -> d !! n = Some e -> e_unlink_ok e = false ->
  exists d',
    rmtree_entries names (World (Some d) now lg) =
      (Raise PermissionError, World (Some d') now lg) /\
    d' !! n = Some e /\
    forall m em, d' !! m = Some em -> d !! m = Some em.
Proof.
  induction names as [|m names IH]; intros d now lg n e Hnd Hin Hn He Hu.
  - apply elem_of_nil in Hn. contradiction.
  - apply NoDup_cons in Hnd as [Hm Hnd].
    destruct (Hin m) as [em Hem]; [left|].
    simpl. rewrite (bind_ok _ _ _ _ _ (stat_eq d now m em lg Hem)).
    destruct (e_unlink_ok em) eqn:Hum.
    + assert (Hne : m <> n) by (intros ->; congruence).
      apply elem_of_cons in Hn as [->|Hn]; [contradiction|].
      unfold mbind, M_bind, remove_entry, set_root. simpl.
      destruct (IH (delete m d) now lg n e Hnd) as [d' [Hrun [Hn' Hsub]]].
      * intros k Hk. rewrite lookup_delete_ne by (intros ->; contradiction).
        apply Hin. right. exact Hk.
      * exact Hn.
      * rewrite lookup_delete_ne by exact Hne. exact He.
      * exact Hu.
      * exists d'. rewrite Hrun. split; [reflexivity|]. split; [exact Hn'|].
        intros k ek Hk. apply Hsub in Hk. apply lookup_delete_Some in Hk as [_ Hk].
        exact Hk.
    + exists d. split; [reflexivity|]. split; [exact He|]. auto.
Qed.

(** X16. [clear] is not atomic: when some entry of the directory cannot
    be removed it raises [PermissionError] with the directory still in
    place, that entry still in it, every entry left being one that was
    there before, and nothing logged. *)
Theorem clear_stops_at_unremovable_entry (self : CodeCache) (d : gmap string entry)
    (now : Z) (lg : list event) (n : string) (e : entry) :
  d !! n = Some e ->
  e_unlink_ok e = false ->
  exists d',
    clear self (World (Some d) now lg) =
      (Raise PermissionError, World (Some d') now lg) /\
    d' !! n = Some e /\
    forall m em, d' !! m = Some em -> d !! m = Some em.
Proof.
  intros He Hu.
  destruct (rmtree_entries_blocked (map_to_list d).*1 d now lg n e) as [d' [Hrun H]].
  - apply NoDup_fst_map_to_list.
  - intros m Hm. apply list_elem_of_fmap in Hm as [[k ek] [-> Hk]].
    apply elem_of_map_to_list in Hk. exists ek. exact Hk.
  - apply list_elem_of_fmap. exists (n, e). split; [reflexivity|].
    apply elem_of_map_to_list, He.
  - exact He.
  - exact Hu.
  - exists d'. split; [|exact H].
    unfold clear, mbind at 1, M_bind at 1, Path.dir_exists. simpl.
    unfold rmtree.
    rewrite (bind_raise _ _ _ PermissionError (World (Some d') now lg)); [reflexivity|].
    rewrite (bind_ok _ _ _ _ _ (iterdir_eq d now lg)).
    rewrite (bind_raise _ _ _ PermissionError (World (Some d') now lg)); [reflexivity|].
    exact Hrun.
Qed.

Lemma expired_unremovable_entry_blocks_witness :
  get_or_cache a_cache "print(1)" "python" ".py" (World (Some locked_hello) 90000 []) =
    (Raise PermissionError,
     World (Some locked_hello) 90000
           [CacheExpired (hash8 (_compute_hash "print(1)" "python" ".py"))]).
Proof.
  apply (expired_unremovable_entry_blocks a_cache "print(1)" "python" ".py"
           locked_hello 86400 90000 [] (Entry Regular "print(1)" 0 0 false)).
  - vm_compute. reflexivity.
  - vm_compute. discriminate.
  - right. reflexivity.
  - lia.
Defined.

Lemma clear_stops_at_unremovable_entry_witness :
  exists d',
    clear a_cache (World (Some (three_files false true)) 9 []) =
      (Raise PermissionError, World (Some d') 9 []) /\
    d' !! "a.py" = Some (Entry Regular (rep "a" 500) 1 1 false) /\
    forall m em, d' !! m = Some em -> three_files false true !! m = Some em.
Proof.
  apply (clear_stops_at_unremovable_entry a_cache (three_files false true) 9 []
           "a.py" (Entry Regular (rep "a" 500) 1 1 false)).
  - vm_compute. reflexivity.
  - reflexivity.
Defined.

(** ** The ceiling as an invariant *)

Lemma unlinkable_remove_names names d : unlinkable d -> unlinkable (remove_names names d).
Proof.
  intros H n e Hn. unfold remove_names in Hn.
  apply lookup_foldr_delete_Some in Hn as [_ Hn]. apply (H n e Hn).
Qed.

Lemma unlinkable_touch d n e now :
  unlinkable d -> d !! n = Some e -> unlinkable (<[n := touched now e]> d).
Proof.
  intros H He m em Hm Hreg. apply lookup_insert_Some in Hm as [[_ <-]|[_ Hm]].
  - apply (H n e He). exact Hreg.
  - apply (H m em Hm Hreg).
Qed.

Lemma store_keeps_ceiling self code language suffix d now lg r w1 :
  0 <= max_size_bytes self <= 2 ^ 49 ->
  unlinkable d ->
  d !! cache_file_name code language suffix = None ->
  cache_code_file self code language suffix (World (Some d) now lg) = (r, w1) ->
  exists d1,
    w_root w1 = Some d1 /\ unlinkable d1 /\ total_size d1 <= max_size_bytes self.
Proof.
  intros Hmax Hok Hnone Hcall.
  rewrite cache_code_file_absent in Hcall by exact Hnone.
  set (d' := <[cache_file_name code language suffix := new_file now code]> d) in *.
  assert (Hok' : unlinkable d') by apply unlinkable_insert_new, Hok.
  destruct (_cleanup_if_needed self _) as [rc wc] eqn:Hpass.
  assert (Hw : w1 = wc) by (destruct rc; inversion Hcall; reflexivity).
  subst wc. clear Hcall. rewrite cleanup_eq in Hpass.
  destruct (total_size d' >? max_size_bytes self) eqn:Hgt.
  - apply Z.gtb_lt in Hgt.
    destruct (pass_within_target self d' Hmax Hok' ltac:(lia)) as [_ Hleft].
    inversion Hpass; subst. simpl. eexists. split; [reflexivity|].
    split; [apply unlinkable_remove_names, Hok' | lia].
  - rewrite Z.gtb_ltb in Hgt. apply Z.ltb_ge in Hgt.
    inversion Hpass; subst. simpl. exists d'. auto.
Qed.

(** X17. The ceiling is an invariant of [get_or_cache].  With a ceiling
    between 0 and [2^49] bytes and regular files that may be unlinked, a
    cache directory whose total size is within the ceiling is still
    within it after the call, whatever way the call ends, and its files
    may still be unlinked, so the same holds after any number of
    calls. *)
Theorem get_or_cache_keeps_ceiling (self : CodeCache) (code language suffix : string)
    (d : gmap string entry) (now : Z) (lg : list event)
    (r : result (string * bool)) (w1 : world) :
  0 <= max_size_bytes self <= 2 ^ 49 ->
  unlinkable d ->
  total_size d <= max_size_bytes self ->
  get_or_cache self code language suffix (World (Some d) now lg) = (r, w1) ->
  exists d1,
    w_root w1 = Some d1 /\ unlinkable d1 /\ total_size d1 <= max_size_bytes self.
Proof.
  intros Hmax Hok Hsize Hcall. rewrite get_or_cache_eq in Hcall.
  destruct (d !! cache_file_name code language suffix) as [e|] eqn:He.
  - destruct (Z.lt_ge_cases (now - e_mtime e) (ttl_seconds self)) as [Hage|Hage].
    + destruct (e_unlink_ok e) eqn:Hu.
      * rewrite (get_cached_file_hit _ _ _ _ _ _ _ e He Hage Hu) in Hcall.
        inversion Hcall; subst. simpl. eexists. split; [reflexivity|].
        split; [apply unlinkable_touch; assumption|].
        destruct (touch_keeps_stats d _ e now He) as [-> _]. exact Hsize.
      * rewrite (get_cached_file_refused _ _ _ _ _ _ _ e He Hage Hu) in Hcall.
        inversion Hcall; subst. simpl. exists d. auto.
    + rewrite (get_cached_file_expired _ _ _ _ _ _ _ e He Hage) in Hcall.
      destruct (e_kind e) eqn:Hk.
      * assert (Hu : e_unlink_ok e = true).
        { apply (Hok _ e He). unfold is_regular. rewrite Hk. reflexivity. }
        rewrite Hu in Hcall.
        destruct (cache_code_file self code language suffix _) as [rs ws] eqn:Hstore.
        apply (store_keeps_ceiling _ _ _ _ _ _ _ _ _ Hmax) in Hstore.
        -- destruct Hstore as [d1 H]. exists d1.
           destruct rs; inversion Hcall; subst; exact H.
        -- apply unlinkable_delete, Hok.
        -- apply lookup_delete_eq.
      * inversion Hcall; subst. simpl. exists d. auto.
  - rewrite get_cached_file_absent in Hcall by exact He.
    destruct (cache_code_file self code language suffix _) as [rs ws] eqn:Hstore.
    apply (store_keeps_ceiling _ _ _ _ _ _ _ _ _ Hmax Hok He) in Hstore.
    destruct Hstore as [d1 H]. exists d1.
    destruct rs; inversion Hcall; subst; exact H.
Qed.

Lemma get_or_cache_keeps_ceiling_witness :
  exists d1,
    w_root (get_or_cache a_cache (E 1) "python" ".py"
              (World (Some one_old_file) 5 [])).2 = Some d1 /\
    unlinkable d1 /\ total_size d1 <= max_size_bytes a_cache.
Proof.
  apply (get_or_cache_keeps_ceiling a_cache (E 1) "python" ".py" one_old_file 5 []
           (get_or_cache a_cache (E 1) "python" ".py" (World (Some one_old_file) 5 [])).1).
  - vm_compute. split; discriminate.
  - exact one_old_file_unlinkable.
  - vm_compute. discriminate.
  - destruct (get_or_cache a_cache (E 1) "python" ".py" (World (Some one_old_file) 5 []));
      reflexivity.
Defined.

(** ** A hit renews the entry *)

Lemma hit_entry self code language suffix w p w1 :
  get_cached_file self code language suffix w = (Ok (Some p), w1) ->
  exists d e lg1,
    w_root w = Some d /\
    d !! cache_file_name code language suffix = Some e /\
    e_unlink_ok e = true /\
    w1 = World (Some (<[cache_file_name code language suffix := touched (w_now w) e]> d))
               (w_now w) lg1.
Proof.
  destruct w as [[d|] now lg]; simpl.
  - destruct (d !! cache_file_name code language suffix) as [e|] eqn:He.
    + destruct (Z.lt_ge_cases (now - e_mtime e) (ttl_seconds self)) as [Hage|Hage].
      * destruct (e_unlink_ok e) eqn:Hu.
        -- rewrite (get_cached_file_hit _ _ _ _ _ _ _ e He Hage Hu).
           intros H. inversion H; subst. eexists _, _, _. eauto.
        -- rewrite (get_cached_file_refused _ _ _ _ _ _ _ e He Hage Hu). discriminate.
      * rewrite (get_cached_file_expired _ _ _ _ _ _ _ e He Hage).
        destruct (e_kind e); [|discriminate].
        destruct (e_unlink_ok e); discriminate.
    + rewrite get_cached_file_absent by assumption. discriminate.
  - rewrite get_cached_file_no_root. discriminate.
Qed.

(** X18. The time to live is counted from the last access, not from the
    write: after a hit of [get_cached_file] at some time, a lookup less
    than [ttl_seconds] later hits again and returns the same path,
    however old the file was at the first hit. *)
Theorem hit_renews_time_to_live (self : CodeCache) (code language suffix : string)
    (w w1 : world) (p : string) (now' : Z) :
  get_cached_file self code language suffix w = (Ok (Some p), w1) ->
  now' - w_now w < ttl_seconds self ->
  exists w2,
    get_cached_file self code language suffix (at_time now' w1) = (Ok (Some p), w2) /\
    (e_content <$> entry_at w2 (cache_file_name code language suffix)) =
    (e_content <$> entry_at w (cache_file_name code language suffix)).
Proof.
  intros Hhit Hage.
  pose proof (get_cached_file_path _ _ _ _ _ _ _ Hhit) as Hp.
  destruct (hit_entry self code language suffix w p w1 Hhit)
    as [d [e [lg1 [Hd [He [Hu ->]]]]]].
  unfold at_time. simpl.
  rewrite (get_cached_file_hit _ _ _ _ _ _ _ (touched (w_now w) e)
             (lookup_insert_eq _ _ _)) by (simpl; first [lia | exact Hu]).
  eexists. split; [rewrite Hp; reflexivity|].
  unfold entry_at. simpl. rewrite Hd. simpl. rewrite lookup_insert_eq, He. reflexivity.
Qed.

Lemma hit_renews_time_to_live_witness :
  exists w2,
    get_cached_file a_cache "print(1)" "python" ".py"
      (at_time 150000 (get_cached_file a_cache "print(1)" "python" ".py"
                         (hello_world 0 80000)).2) =
      (Ok (Some (Path.str "/c" hello_name)), w2) /\
    (e_content <$> entry_at w2 (cache_file_name "print(1)" "python" ".py")) =
    (e_content <$> entry_at (hello_world 0 80000)
                     (cache_file_name "print(1)" "python" ".py")).
Proof.
  apply (hit_renews_time_to_live a_cache "print(1)" "python" ".py"
           (hello_world 0 80000)
           (get_cached_file a_cache "print(1)" "python" ".py" (hello_world 0 80000)).2
           (Path.str "/c" hello_name) 150000).
  - vm_compute. reflexivity.
  - vm_compute. reflexivity.
Defined.
